(** * cloc: the line classifier of dev-utils, and its drivers

    A shallow embedding of [src/src/cloc.c] (with the types of
    [src/src/include/cloc.h]).  The scanner [count_lines] walks a byte
    buffer with a cursor [p]; reads through the cursor are explicit, so
    that a read outside the buffer shows up as [Fault] and a loop that
    does not end shows up as [Diverge]. *)

From Stdlib Require Import Ascii String List Bool Arith NArith ZArith Lia.
From Stdlib Require Import Strings.Byte.
Import ListNotations.

(** ** Outcomes of running C code *)

Inductive outcome (A : Type) : Type :=
| Done (a : A)     (* the code ran to completion with this value *)
| Fault            (* a read outside the object pointed into *)
| Diverge.         (* the allotted number of loop iterations is used up *)

Arguments Done {A} a.
Arguments Fault {A}.
Arguments Diverge {A}.

Definition bind {A B : Type} (m : outcome A) (k : A -> outcome B) : outcome B :=
  match m with
  | Done a => k a
  | Fault => Fault
  | Diverge => Diverge
  end.

Declare Scope outcome_scope.
Delimit Scope outcome_scope with outcome.
Notation "x <- m ;; k" := (bind m (fun x => k))
  (at level 61, m at next level, right associativity) : outcome_scope.
Open Scope outcome_scope.

(** [b && e] of C, where [e] reads memory: [e] is not run when [b] is 0. *)
Definition and_then (b : bool) (e : outcome bool) : outcome bool :=
  if b then e else Done false.

(** ** Bytes and buffers *)

Definition nl : byte := x0a.          (* newline *)
Definition dquote : byte := x22.      (* double quote *)
Definition squote : byte := x27.      (* single quote *)
Definition backslash : byte := x5c.   (* backslash *)

(** [isspace] in the C locale (the program never calls setlocale):
    space, and the controls \t \n \v \f \r. *)
Definition isspace (c : byte) : bool :=
  match c with
  | x09 | x0a | x0b | x0c | x0d | x20 => true
  | _ => false
  end.

(** [*q] for a pointer [q = buf + i] into a buffer of [length buf] bytes. *)
Definition read (buf : list byte) (i : nat) : outcome byte :=
  match nth_error buf i with
  | Some c => Done c
  | None => Fault
  end.

(** [*(q - 1)] for [q = buf + i]: one byte before [buf] is outside it. *)
Definition read_prev (buf : list byte) (i : nat) : outcome byte :=
  match i with
  | O => Fault
  | S j => read buf j
  end.

(** [memcmp(buf + i, m, strlen(m)) == 0]: all [strlen(m)] bytes at
    [buf + i] are read. *)
Fixpoint memcmp_eq (buf : list byte) (i : nat) (m : list byte) : outcome bool :=
  match m with
  | [] => Done true
  | c :: m' =>
      b <- read buf i ;;
      r <- memcmp_eq buf (S i) m' ;;
      Done (Byte.eqb b c && r)
  end.

(** [q + strlen(m) <= end && memcmp(q, m, strlen(m)) == 0]. *)
Definition marker_at (buf : list byte) (i : nat) (m : list byte) : outcome bool :=
  and_then (i + length m <=? length buf) (memcmp_eq buf i m).

(** ** Data model of cloc.h *)

Definition CLOC_MAX_PATH : nat := 4096.
Definition CLOC_MAX_LANGUAGES : nat := 128.

Definition CLOC_SUCCESS : Z := 0.
Definition CLOC_ERROR_IO : Z := -1.
Definition CLOC_ERROR_MEM : Z := -2.
Definition CLOC_ERROR_ARG : Z := -3.
Definition CLOC_ERROR_LIMIT : Z := -4.

Definition CLOC_LANG_NONE : nat := 0.
Definition CLOC_LANG_C : nat := 1.
Definition CLOC_LANG_CPP : nat := 2.
Definition CLOC_LANG_PYTHON : nat := 3.
Definition CLOC_LANG_JAVA : nat := 4.
Definition CLOC_LANG_GO : nat := 5.
Definition CLOC_LANG_RUST : nat := 6.
Definition CLOC_LANG_JS : nat := 7.

(** [uint32_t] counters: [x++] wraps at 2^32. *)
Definition incr32 (x : N) : N := ((x + 1) mod 2 ^ 32)%N.

(** [file_stats_t]. *)
Record file_stats : Type := {
  path : string;
  size : Z;
  lines_code : N;
  lines_comment : N;
  lines_blank : N;
  language : nat;
  error : Z
}.

(** [lang_syntax_t]; a C string is the list of its bytes before the NUL,
    and a NULL [name] is [None]. *)
Record lang_syntax : Type := {
  name : option string;
  extensions : list string;
  line_comment : list byte;
  block_start : list byte;
  block_end : list byte;
  id : nat
}.

Definition bytes (s : string) : list byte := list_byte_of_string s.

Definition mk_lang (n : string) (exts : list string) (lc bs be : string) (i : nat)
  : lang_syntax :=
  {| name := Some n; extensions := exts; line_comment := bytes lc;
     block_start := bytes bs; block_end := bytes be; id := i |}.

Definition lang_C := mk_lang "C" [".c"; ".h"]%string "//" "/*" "*/" CLOC_LANG_C.
Definition lang_CPP :=
  mk_lang "C++" [".cpp"; ".hpp"; ".cc"; ".hxx"; ".cxx"]%string "//" "/*" "*/" CLOC_LANG_CPP.
Definition lang_Python :=
  {| name := Some "Python"%string; extensions := [".py"; ".pyw"]%string;
     line_comment := [x23]; block_start := [dquote; dquote; dquote];
     block_end := [dquote; dquote; dquote]; id := CLOC_LANG_PYTHON |}.
Definition lang_Java := mk_lang "Java" [".java"]%string "//" "/*" "*/" CLOC_LANG_JAVA.
Definition lang_Go := mk_lang "Go" [".go"]%string "//" "/*" "*/" CLOC_LANG_GO.
Definition lang_Rust := mk_lang "Rust" [".rs"]%string "//" "/*" "*/" CLOC_LANG_RUST.
Definition lang_JS :=
  mk_lang "JavaScript" [".js"; ".jsx"; ".mjs"]%string "//" "/*" "*/" CLOC_LANG_JS.

(** The table [languages] without its all-NULL sentinel row. *)
Definition languages : list lang_syntax :=
  [lang_C; lang_CPP; lang_Python; lang_Java; lang_Go; lang_Rust; lang_JS].

(** ** The scanner: [count_lines] *)

(** The local variables of [count_lines] together with [*stats]. *)
Record scan : Type := {
  p : nat;                       (* the cursor, as an offset from [buf] *)
  in_block_comment : bool;
  in_line_comment : bool;
  has_code : bool;
  in_string : bool;
  string_char : byte;
  stats : file_stats
}.

Definition set_size (z : Z) (st : file_stats) : file_stats :=
  {| path := path st; size := z; lines_code := lines_code st;
     lines_comment := lines_comment st; lines_blank := lines_blank st;
     language := language st; error := error st |}.

Definition incr_code (st : file_stats) : file_stats :=
  {| path := path st; size := size st; lines_code := incr32 (lines_code st);
     lines_comment := lines_comment st; lines_blank := lines_blank st;
     language := language st; error := error st |}.

Definition incr_comment (st : file_stats) : file_stats :=
  {| path := path st; size := size st; lines_code := lines_code st;
     lines_comment := incr32 (lines_comment st); lines_blank := lines_blank st;
     language := language st; error := error st |}.

Definition incr_blank (st : file_stats) : file_stats :=
  {| path := path st; size := size st; lines_code := lines_code st;
     lines_comment := lines_comment st; lines_blank := incr32 (lines_blank st);
     language := language st; error := error st |}.

(** The four-way [if] of the end-of-line branch (cloc.c:119-127). *)
Definition classify_line (s : scan) : file_stats :=
  if in_line_comment s then incr_comment (stats s)
  else if in_block_comment s then incr_comment (stats s)
  else if has_code s then incr_code (stats s)
  else incr_blank (stats s).

(** [p += n]. *)
Definition advance (n : nat) (s : scan) : scan :=
  {| p := p s + n; in_block_comment := in_block_comment s;
     in_line_comment := in_line_comment s; has_code := has_code s;
     in_string := in_string s; string_char := string_char s; stats := stats s |}.

Definition set_block (b : bool) (s : scan) : scan :=
  {| p := p s; in_block_comment := b;
     in_line_comment := in_line_comment s; has_code := has_code s;
     in_string := in_string s; string_char := string_char s; stats := stats s |}.

Definition set_line (b : bool) (s : scan) : scan :=
  {| p := p s; in_block_comment := in_block_comment s;
     in_line_comment := b; has_code := has_code s;
     in_string := in_string s; string_char := string_char s; stats := stats s |}.

Definition set_code (b : bool) (s : scan) : scan :=
  {| p := p s; in_block_comment := in_block_comment s;
     in_line_comment := in_line_comment s; has_code := b;
     in_string := in_string s; string_char := string_char s; stats := stats s |}.

Definition open_string (c : byte) (s : scan) : scan :=
  {| p := p s; in_block_comment := in_block_comment s;
     in_line_comment := in_line_comment s; has_code := true;
     in_string := true; string_char := c; stats := stats s |}.

Definition close_string (s : scan) : scan :=
  {| p := p s; in_block_comment := in_block_comment s;
     in_line_comment := in_line_comment s; has_code := has_code s;
     in_string := false; string_char := string_char s; stats := stats s |}.

(** The end-of-line branch (cloc.c:118-133). *)
Definition end_of_line (s : scan) : scan :=
  {| p := p s + 1; in_block_comment := in_block_comment s;
     in_line_comment := false; has_code := false;
     in_string := in_string s; string_char := string_char s;
     stats := classify_line s |}.

Section Scanner.

Variable buf : list byte.
Variable lang : lang_syntax.

(** "Handle strings" (cloc.c:142-150); [c] is [*p]. *)
Definition handle_string (c : byte) (s : scan) : outcome scan :=
  if negb (in_line_comment s) && negb (in_block_comment s) then
    if negb (in_string s) && (Byte.eqb c dquote || Byte.eqb c squote) then
      Done (open_string c s)
    else
      closes <- and_then (in_string s && Byte.eqb c (string_char s))
                  (prev <- read_prev buf (p s) ;;
                   Done (negb (Byte.eqb prev backslash))) ;;
      Done (if closes then close_string s else s)
  else Done s.

(** The comment rules and the final "count code" (cloc.c:157-188). *)
Definition handle_markers (s : scan) : outcome scan :=
  starts <- and_then (negb (in_line_comment s) && negb (in_block_comment s))
              (marker_at buf (p s) (block_start lang)) ;;
  if starts then Done (advance (length (block_start lang)) (set_block true s))
  else
    ends <- and_then (in_block_comment s) (marker_at buf (p s) (block_end lang)) ;;
    if ends then Done (advance (length (block_end lang)) (set_block false s))
    else
      line <- and_then (negb (in_block_comment s) && negb (in_line_comment s))
                (marker_at buf (p s) (line_comment lang)) ;;
      if line then Done (advance (length (line_comment lang)) (set_line true s))
      else
        Done (advance 1
                (if negb (in_block_comment s) && negb (in_line_comment s)
                 then set_code true s else s)).

(** One iteration of [while (p < end)] (cloc.c:116-189), entered with
    [p < end], so that [end - 1] is inside the buffer. *)
Definition step (s : scan) : outcome scan :=
  c <- read buf (p s) ;;
  if Byte.eqb c nl || (p s =? length buf - 1) then Done (end_of_line s)
  else if isspace c then Done (advance 1 s)
  else
    s1 <- handle_string c s ;;
    if in_string s1 then Done (advance 1 s1)
    else handle_markers s1.

(** [while (p < end) ...], for at most [fuel] iterations. *)
Fixpoint scan_loop (fuel : nat) (s : scan) : outcome scan :=
  if p s <? length buf then
    match fuel with
    | O => Diverge
    | S fuel' => s' <- step s ;; scan_loop fuel' s'
    end
  else Done s.

(** The state after [n] iterations, or the exit state when the loop
    ends earlier. *)
Fixpoint iterate (n : nat) (s : scan) : outcome scan :=
  match n with
  | O => Done s
  | S n' => if p s <? length buf then (s' <- step s ;; iterate n' s') else Done s
  end.

(** The locals at function entry (cloc.c:106-114). *)
Definition scan_init (st : file_stats) : scan :=
  {| p := 0; in_block_comment := false; in_line_comment := false;
     has_code := false; in_string := false; string_char := x00;
     stats := set_size (Z.of_nat (length buf)) st |}.

(** "Handle last line if it doesn't end with newline" (cloc.c:191-194). *)
Definition last_line (s : scan) : outcome file_stats :=
  extra <- and_then (has_code s)
             (last <- read_prev buf (length buf) ;;
              Done (negb (Byte.eqb last nl))) ;;
  Done (if extra then incr_code (stats s) else stats s).

Definition count_lines_fuel (fuel : nat) (st : file_stats) : outcome file_stats :=
  s <- scan_loop fuel (scan_init st) ;;
  last_line s.

(** Every iteration moves the cursor when the markers are not empty, so
    [length buf] iterations are all the loop can take. *)
Definition count_lines (st : file_stats) : outcome file_stats :=
  count_lines_fuel (length buf) st.

End Scanner.

(** [init_file_stats]: [memset(stats, 0, sizeof *stats)]. *)
Definition init_file_stats : file_stats :=
  {| path := ""; size := 0; lines_code := 0; lines_comment := 0;
     lines_blank := 0; language := 0; error := 0 |}.

(** The result of a run that ended, for stating what it computed. *)
Definition result {A : Type} (o : outcome A) : option A :=
  match o with
  | Done a => Some a
  | _ => None
  end.

(** ** What the specification counts *)

(** Number of newline bytes. *)
Definition newlines (l : list byte) : N :=
  N.of_nat (List.length (filter (Byte.eqb nl) l)).

(** 1 when the buffer is not empty and its last byte is no newline. *)
Definition partial_line (l : list byte) : N :=
  match rev l with
  | [] => 0
  | c :: _ => if Byte.eqb c nl then 0 else 1
  end%N.

Definition line_count (l : list byte) : N := (newlines l + partial_line l)%N.

Definition total (st : file_stats) : N :=
  (lines_code st + lines_comment st + lines_blank st)%N.

(** No marker of the descriptor is the empty string. *)
Definition markers_nonempty (lang : lang_syntax) : Prop :=
  0 < List.length (line_comment lang) /\
  0 < List.length (block_start lang) /\
  0 < List.length (block_end lang).

(** ** The transitions of one iteration, as rules *)

Section ScannerRulesDef.

Variable buf : list byte.
Variable lang : lang_syntax.

(** Does the marker [m] stand at offset [i], wholly inside the buffer? *)
Definition stands_at (i : nat) (m : list byte) : Prop :=
  i + List.length m <= List.length buf /\
  firstn (List.length m) (skipn i buf) = m.

(** What "Handle strings" does with the byte [c] under the cursor. *)
Inductive string_view (c : byte) (s : scan) : scan -> Prop :=
| SV_open :
    in_line_comment s = false -> in_block_comment s = false ->
    in_string s = false -> c = dquote \/ c = squote ->
    string_view c s (open_string c s)
| SV_close (prev : byte) :
    in_line_comment s = false -> in_block_comment s = false ->
    in_string s = true -> c = string_char s ->
    read_prev buf (p s) = Done prev -> prev <> backslash ->
    string_view c s (close_string s)
| SV_keep :
    (in_line_comment s = false -> in_block_comment s = false ->
     in_string s = false -> c <> dquote /\ c <> squote) ->
    (in_line_comment s = false -> in_block_comment s = false ->
     in_string s = true -> c = string_char s ->
     read_prev buf (p s) = Done backslash) ->
    string_view c s s.

(** What the comment rules and "Count code" do. *)
Inductive marker_view (s : scan) : scan -> Prop :=
| MV_block_start :
    in_line_comment s = false -> in_block_comment s = false ->
    stands_at (p s) (block_start lang) ->
    marker_view s (advance (List.length (block_start lang)) (set_block true s))
| MV_block_end :
    in_block_comment s = true ->
    stands_at (p s) (block_end lang) ->
    marker_view s (advance (List.length (block_end lang)) (set_block false s))
| MV_line :
    in_block_comment s = false -> in_line_comment s = false ->
    stands_at (p s) (line_comment lang) ->
    marker_view s (advance (List.length (line_comment lang)) (set_line true s))
| MV_code :
    in_block_comment s = false -> in_line_comment s = false ->
    marker_view s (advance 1 (set_code true s))
| MV_comment :
    in_block_comment s = true \/ in_line_comment s = true ->
    marker_view s (advance 1 s).

(** One iteration of the loop. *)
Inductive step_view (s : scan) : scan -> Prop :=
| TV_eol (c : byte) :
    nth_error buf (p s) = Some c ->
    c = nl \/ p s = List.length buf - 1 ->
    step_view s (end_of_line s)
| TV_space (c : byte) :
    nth_error buf (p s) = Some c ->
    c <> nl -> p s <> List.length buf - 1 -> isspace c = true ->
    step_view s (advance 1 s)
| TV_string (c : byte) (s1 : scan) :
    nth_error buf (p s) = Some c ->
    c <> nl -> p s <> List.length buf - 1 -> isspace c = false ->
    string_view c s s1 -> in_string s1 = true ->
    step_view s (advance 1 s1)
| TV_marker (c : byte) (s1 s' : scan) :
    nth_error buf (p s) = Some c ->
    c <> nl -> p s <> List.length buf - 1 -> isspace c = false ->
    string_view c s s1 -> in_string s1 = false ->
    marker_view s1 s' ->
    step_view s s'.

Definition is_quote (c : byte) : Prop := c = dquote \/ c = squote.

(** What holds of the locals at every test of [p < end]. *)
Record scan_inv (s : scan) : Prop := {
  inv_bound : p s <= List.length buf;
  inv_string :
    in_string s = true ->
    exists q, q < p s /\ nth_error buf q = Some (string_char s) /\
              is_quote (string_char s);
  inv_code : has_code s = true -> 1 <= p s;
  inv_exclusive :
    (in_string s = true -> in_line_comment s = false /\ in_block_comment s = false)
    /\ (in_line_comment s = true -> in_block_comment s = false)
}.

(** The lines counted so far, against the newlines behind the cursor
    ([base] is the sum of the counters at entry). *)
Definition count_inv (base : N) (s : scan) : Prop :=
  (total (stats s) <=
   base + newlines (firstn (p s) buf) +
   (if Nat.leb (List.length buf) (p s) && negb (has_code s)
    then partial_line buf else 0))%N.

End ScannerRulesDef.

(** ** Language detection *)

Definition MAX_EXAMINE_SIZE : nat := 4096.

Definition cpp_keywords : list string :=
  ["class"; "namespace"; "template"; "typename"; "operator";
   "virtual"; "public:"; "private:"; "protected:"; "friend"]%string.

(** [strrchr(s, c)]: the suffix of [s] that starts at the last [c]. *)
Fixpoint strrchr (s : string) (c : Ascii.ascii) : option string :=
  match s with
  | EmptyString => None
  | String a rest =>
      match strrchr rest c with
      | Some r => Some r
      | None => if Ascii.eqb a c then Some s else None
      end
  end.

(** The C string held by a NUL-terminated copy of [l]: the bytes before
    the first NUL. *)
Fixpoint c_string (l : list byte) : list byte :=
  match l with
  | [] => []
  | c :: l' => if Byte.eqb c x00 then [] else c :: c_string l'
  end.

Fixpoint is_prefix (needle hay : list byte) : bool :=
  match needle, hay with
  | [], _ => true
  | _ :: _, [] => false
  | a :: needle', b :: hay' => Byte.eqb a b && is_prefix needle' hay'
  end.

(** [strstr(hay, needle) != NULL]. *)
Fixpoint strstr (hay needle : list byte) : bool :=
  is_prefix needle hay ||
  match hay with
  | [] => false
  | _ :: hay' => strstr hay' needle
  end.

(** [is_cpp_file]; [malloc_ok] tells whether [malloc] gives the buffer
    for the copy: without it the answer is 0 (cloc.c:61-62). *)
Definition is_cpp_file (malloc_ok : bool) (content : list byte) : bool :=
  if negb malloc_ok then false
  else existsb (fun keyword => strstr (c_string content) (bytes keyword))
         cpp_keywords.

(** What the system calls made on one path answer. *)
Record file : Type := {
  f_fopen : bool;         (* fopen(path, "rb") gives a stream *)
  f_malloc : bool;        (* malloc in is_cpp_file gives a buffer *)
  f_open : bool;          (* open(path, O_RDONLY) gives a descriptor *)
  f_fstat : bool;         (* fstat succeeds *)
  f_mmap : bool;          (* mmap succeeds *)
  f_data : list byte      (* the st_size bytes of the file *)
}.

(** [detect_language]: the first row of [languages] with the extension of
    [path]; a header is C or C++ by the keywords in its first bytes. *)
Definition detect_language (path : string) (f : file) : option lang_syntax :=
  match strrchr path "."%char with
  | None => None
  | Some ext =>
      match find (fun lang => existsb (String.eqb ext) (extensions lang)) languages with
      | None => None
      | Some lang =>
          if String.eqb ext ".h" then
            if negb (f_fopen f) then Some lang_C
            else if is_cpp_file (f_malloc f)
                      (firstn MAX_EXAMINE_SIZE (f_data f))
                 then Some lang_CPP else Some lang_C
          else Some lang
      end
  end.

(** ** [process_file] *)

Definition set_path (s : string) (st : file_stats) : file_stats :=
  {| path := s; size := size st; lines_code := lines_code st;
     lines_comment := lines_comment st; lines_blank := lines_blank st;
     language := language st; error := error st |}.

Definition set_language (l : nat) (st : file_stats) : file_stats :=
  {| path := path st; size := size st; lines_code := lines_code st;
     lines_comment := lines_comment st; lines_blank := lines_blank st;
     language := l; error := error st |}.

Definition set_error (e : Z) (st : file_stats) : file_stats :=
  {| path := path st; size := size st; lines_code := lines_code st;
     lines_comment := lines_comment st; lines_blank := lines_blank st;
     language := language st; error := e |}.

(** [process_file]: the return value and what is left in [*stats]. *)
Definition process_file (path : string) (f : file) : outcome (Z * file_stats) :=
  let stats := set_path (substring 0 (CLOC_MAX_PATH - 1) path) init_file_stats in
  match detect_language path f with
  | None => Done (CLOC_ERROR_ARG, stats)
  | Some lang =>
      let stats := set_language (id lang) stats in
      if negb (f_open f) then Done (CLOC_ERROR_IO, set_error CLOC_ERROR_IO stats)
      else if negb (f_fstat f) then Done (CLOC_ERROR_IO, stats)
      else if List.length (f_data f) =? 0 then Done (CLOC_SUCCESS, stats)
      else if negb (f_mmap f) then Done (CLOC_ERROR_IO, stats)
      else
        stats' <- count_lines (f_data f) lang stats ;;
        Done (CLOC_SUCCESS, stats')
  end.

(** ** Per-language totals *)

(** [lang_stats_t]: [files] is a [uint32_t], the other counters are
    [uint64_t]. *)
Module lang_stats.

Record t : Type := {
  name : option string;
  files : N;
  lines_code : N;
  lines_comment : N;
  lines_blank : N;
  bytes : N
}.

End lang_stats.

Definition add64 (x y : N) : N := ((x + y) mod 2 ^ 64)%N.

(** [languages[k].name], the table being indexed with its sentinel row:
    row 7 is the sentinel, whose name is NULL.  The array has the rows 0
    to 7; for a larger [k] the code reads outside it, and the definition
    stands for the code for [k <= 7] only. *)
Definition language_name (k : nat) : option string :=
  match nth_error languages k with
  | Some lang => name lang
  | None => None
  end.

(** [a == b] on two names (cloc.c:303): the code compares the pointers.
    A name stands for the pointer to the name of a row of [languages];
    these names are different texts, so that on them the pointers are
    equal exactly when the texts are. *)
Definition same_name (a b : option string) : bool :=
  match a, b with
  | Some x, Some y => String.eqb x y
  | None, None => true
  | _, _ => false
  end.

(** "Update statistics" (cloc.c:317-322) on one row. *)
Definition add_file (fs : file_stats) (row : lang_stats.t) : lang_stats.t :=
  {| lang_stats.name := lang_stats.name row;
     lang_stats.files := incr32 (lang_stats.files row);
     lang_stats.lines_code := add64 (lang_stats.lines_code row) (lines_code fs);
     lang_stats.lines_comment :=
       add64 (lang_stats.lines_comment row) (lines_comment fs);
     lang_stats.lines_blank := add64 (lang_stats.lines_blank row) (lines_blank fs);
     lang_stats.bytes :=
       add64 (lang_stats.bytes row) (Z.to_N (size fs mod 2 ^ 64)) |}.

Definition new_row (n : option string) : lang_stats.t :=
  {| lang_stats.name := n; lang_stats.files := 0; lang_stats.lines_code := 0;
     lang_stats.lines_comment := 0; lang_stats.lines_blank := 0;
     lang_stats.bytes := 0 |}.

(** The first row named [n] gets the file added; [None] without such a row. *)
Fixpoint update_row (n : option string) (fs : file_stats)
    (rows : list lang_stats.t) : option (list lang_stats.t) :=
  match rows with
  | [] => None
  | row :: rows' =>
      if same_name (lang_stats.name row) n then Some (add_file fs row :: rows')
      else option_map (cons row) (update_row n fs rows')
  end.

(** [update_stats_callback], on the first [global_stats_count] rows of
    [global_stats]. *)
Definition update_stats_callback (fs : file_stats) (global_stats : list lang_stats.t)
  : Z * list lang_stats.t :=
  let n := language_name (language fs) in
  match update_row n fs global_stats with
  | Some rows => (CLOC_SUCCESS, rows)
  | None =>
      if CLOC_MAX_LANGUAGES <=? List.length global_stats
      then (CLOC_ERROR_LIMIT, global_stats)
      else (CLOC_SUCCESS, global_stats ++ [add_file fs (new_row n)])
  end.

(** ** [process_directory] and [main] *)

(** What [stat] and [lstat] report for a path, with what lies below it:
    a directory has the entries [readdir] returns, in order, each with
    the answer of [lstat] ([None] when it fails). *)
#[local] Set Warnings "-register-all".
Inductive node : Type :=
| Regular (f : file)
| Directory (opens : bool) (entries : list (string * option node))
| Special (f : file).

Definition hidden (d_name : string) : bool :=
  match d_name with
  | String c _ => Ascii.eqb c "."%char
  | EmptyString => false
  end || String.eqb d_name "..".

Definition too_long (path d_name : string) : bool :=
  CLOC_MAX_PATH <? String.length path + String.length d_name + 2.

Definition full_path (path d_name : string) : string :=
  (path ++ "/" ++ d_name)%string.

Section Walk.

(** The state the callback works on, and the callback (NULL is [None]). *)
Variable G : Type.
Variable callback : option (file_stats -> G -> Z * G).

Section Entries.

Variable walk : string -> node -> G -> outcome (Z * G).
Variable path : string.

(** [while ((entry = readdir(dir)))] (cloc.c:263-291): [result] at the
    end of the loop and the state of the callback. *)
Fixpoint readdir_loop (entries : list (string * option node)) (g : G)
  : outcome (Z * G) :=
  match entries with
  | [] => Done (CLOC_SUCCESS, g)
  | (d_name, st) :: rest =>
      if hidden d_name then readdir_loop rest g
      else if too_long path d_name then readdir_loop rest g
      else
        match st with
        | None => readdir_loop rest g
        | Some (Directory _ _ as child) =>
            r <- walk (full_path path d_name) child g ;;
            if (fst r =? CLOC_SUCCESS)%Z then readdir_loop rest (snd r)
            else Done r
        | Some (Regular f) =>
            r <- process_file (full_path path d_name) f ;;
            if (fst r =? CLOC_SUCCESS)%Z then
              match callback with
              | Some cb =>
                  let (code, g') := cb (snd r) g in
                  if (code =? 0)%Z then readdir_loop rest g'
                  else Done (CLOC_ERROR_ARG, g')
              | None => readdir_loop rest g
              end
            else readdir_loop rest g
        | Some (Special _) => readdir_loop rest g
        end
  end.

End Entries.

(** [process_directory]; [opendir] fails on what is not a directory. *)
Fixpoint process_directory (path : string) (n : node) (g : G) {struct n}
  : outcome (Z * G) :=
  match n with
  | Directory true entries => readdir_loop process_directory path entries g
  | _ => Done (CLOC_ERROR_IO, g)
  end.

End Walk.

Arguments readdir_loop {G} callback walk path entries g.
Arguments process_directory {G} callback path n g.

(** One round of the loop over [argv] in [main] (cloc.c:422-444): the
    exit code so far and the totals. *)
Definition main_arg (arg : string * option node) (acc : Z * list lang_stats.t)
  : outcome (Z * list lang_stats.t) :=
  let (exit_code, g) := acc in
  match snd arg with
  | None => Done (1%Z, g)
  | Some (Directory _ _ as dir) =>
      r <- process_directory (Some update_stats_callback) (fst arg) dir g ;;
      Done (if (fst r =? CLOC_SUCCESS)%Z then exit_code else 1%Z, snd r)
  | Some (Regular f) | Some (Special f) =>
      r <- process_file (fst arg) f ;;
      if (fst r =? CLOC_SUCCESS)%Z
      then Done (exit_code, snd (update_stats_callback (snd r) g))
      else Done (1%Z, g)
  end.

Fixpoint main_loop (args : list (string * option node)) (acc : Z * list lang_stats.t)
  : outcome (Z * list lang_stats.t) :=
  match args with
  | [] => Done acc
  | arg :: rest => acc' <- main_arg arg acc ;; main_loop rest acc'
  end.

(** [main]: [args] are [argv[1]], ... with what [stat] answers for each;
    the exit status and the rows handed to [print_stats]. *)
Definition main (calloc_ok : bool) (args : list (string * option node))
  : outcome (Z * list lang_stats.t) :=
  match args with
  | [] => Done (1%Z, [])
  | _ => if calloc_ok then main_loop args (0%Z, []) else Done (1%Z, [])
  end.

(** The failures [main] meets on an argument itself: [stat] fails, or
    [process_file] fails on what is no directory, or [process_directory]
    does not return [CLOC_SUCCESS]. *)
Definition arg_fails (arg : string * option node) : Prop :=
  snd arg = None \/
  (exists f code st,
     (snd arg = Some (Regular f) \/ snd arg = Some (Special f)) /\
     process_file (fst arg) f = Done (code, st) /\ code <> CLOC_SUCCESS) \/
  (exists opens entries,
     snd arg = Some (Directory opens entries) /\
     forall g, exists code g',
       process_directory (Some update_stats_callback) (fst arg)
         (Directory opens entries) g = Done (code, g') /\
       code <> CLOC_SUCCESS).

(** ** Sample inputs *)

(** The counters of a result, as (code, comment, blank). *)
Definition counts (st : file_stats) : N * N * N :=
  (lines_code st, lines_comment st, lines_blank st).

(** Cursor, the four flags and the counters after [n] iterations of
    [count_lines] on zeroed statistics. *)
Definition snapshot (buf : list byte) (lang : lang_syntax) (n : nat)
  : option (nat * (bool * bool * bool * bool) * (N * N * N)) :=
  match iterate buf lang n (scan_init buf init_file_stats) with
  | Done s =>
      Some (p s,
            (in_block_comment s, in_line_comment s, has_code s, in_string s),
            counts (stats s))
  | _ => None
  end.

(** A block comment over three lines with code after its end marker. *)
Definition sample_block_comment : list byte :=
  bytes "/* start" ++ [nl] ++ bytes "mid" ++ [nl] ++ bytes "end */ x();" ++ [nl].

(** A line holding the string literal with the text // not a comment. *)
Definition sample_string_marker : list byte :=
  [dquote] ++ bytes "// not a comment" ++ [dquote; nl].

(** The literal a, backslash, quote, b between quotes, then a newline. *)
Definition sample_escaped_quote : list byte :=
  [dquote] ++ bytes "a" ++ [backslash; dquote] ++ bytes "b" ++ [dquote; nl].

(** The literal a, backslash, backslash between quotes, then [ x] and a
    newline: in C the second quote closes the literal. *)
Definition sample_escaped_backslash : list byte :=
  [dquote] ++ bytes "a" ++ [backslash; backslash; dquote] ++ bytes " x" ++ [nl].

(** A file that is one line comment, without a final newline. *)
Definition sample_marker_at_end : list byte := bytes "//".

Definition readable (data : list byte) : file :=
  {| f_fopen := true; f_malloc := true; f_open := true; f_fstat := true;
     f_mmap := true;
     f_data := data |}.

Definition unreadable (data : list byte) : file :=
  {| f_fopen := false; f_malloc := true; f_open := false; f_fstat := true;
     f_mmap := true;
     f_data := data |}.

Definition sample_source : list byte := bytes "int x;" ++ [nl].

(** A directory with a file of no known language, a C file that cannot
    be opened, and a C file that can. *)
Definition sample_dir : node :=
  Directory true
    [("notes.txt"%string, Some (Regular (readable (bytes "hello" ++ [nl]))));
     ("locked.c"%string, Some (Regular (unreadable sample_source)));
     ("main.c"%string, Some (Regular (readable sample_source)))].

(** No marker of the descriptor holds a newline byte. *)
Definition markers_one_line (lang : lang_syntax) : Prop :=
  ~ In nl (line_comment lang) /\ ~ In nl (block_start lang) /\
  ~ In nl (block_end lang).

(** Two records agree on the fields that [count_lines] leaves alone. *)
Definition same_file (a b : file_stats) : Prop :=
  path a = path b /\ language a = language b /\ error a = error b.

(** The rest of the line under the cursor: [n] bytes that are no
    newline from offset [i] on, then a newline. *)
Definition line_ahead (buf : list byte) (i n : nat) : Prop :=
  (forall k, k < n -> exists c, nth_error buf (i + k) = Some c /\ c <> nl) /\
  nth_error buf (i + n) = Some nl.

(** The same, all of the [n] bytes being white space. *)
Definition blank_ahead (buf : list byte) (i n : nat) : Prop :=
  (forall k, k < n ->
     exists c, nth_error buf (i + k) = Some c /\ c <> nl /\ isspace c = true) /\
  nth_error buf (i + n) = Some nl.

(** ** The callback as the walk sees it *)

(** A callback that accepts every file and keeps the list of what it was
    handed, and the files [process_directory] hands to its callback. *)
Definition log_callback (fs : file_stats) (seen : list file_stats)
  : Z * list file_stats :=
  (0%Z, seen ++ [fs]).

Definition walked (path : string) (n : node) : outcome (Z * list file_stats) :=
  process_directory (Some log_callback) path n [].

(** The state of a callback after it has been handed the files in turn. *)
Definition replay {G : Type} (cb : file_stats -> G -> Z * G)
    (files : list file_stats) (g : G) : G :=
  fold_left (fun g fs => snd (cb fs g)) files g.

(** [process_file] succeeds on some file with these statistics. *)
Definition accepted (fs : file_stats) : Prop :=
  exists path f, process_file path f = Done (CLOC_SUCCESS, fs).

(** The callback [cb] accepts every file [process_file] can produce, in
    every state that satisfies [I], and keeps [I]. *)
Definition callback_ok {G : Type} (cb : file_stats -> G -> Z * G)
    (I : G -> Prop) : Prop :=
  forall fs g, accepted fs -> I g -> fst (cb fs g) = 0%Z /\ I (snd (cb fs g)).

(** ** The table of totals and [print_stats] *)

(** The first row of the table named [n]. *)
Definition find_row (n : option string) (rows : list lang_stats.t)
  : option lang_stats.t :=
  find (fun row => same_name (lang_stats.name row) n) rows.

(** The names [update_stats_callback] can give a row: those at the
    identifiers 1 to 7. *)
Definition row_names : list (option string) := map language_name (seq 1 7).

(** The rows have different names, all among [row_names]. *)
Definition table_ok (rows : list lang_stats.t) : Prop :=
  NoDup (map lang_stats.name rows) /\
  incl (map lang_stats.name rows) row_names.

(** [(unsigned)x], for the [%u] conversions of [print_stats]. *)
Definition to_unsigned (x : N) : N := (x mod 2 ^ 32)%N.

(** The five numbers of a line of the table: files, code, comments,
    blank, total. *)
Definition print_row (row : lang_stats.t) : option string * (N * N * N * N * N) :=
  (lang_stats.name row,
   (to_unsigned (lang_stats.files row),
    to_unsigned (lang_stats.lines_code row),
    to_unsigned (lang_stats.lines_comment row),
    to_unsigned (lang_stats.lines_blank row),
    to_unsigned (add64 (add64 (lang_stats.lines_code row)
                              (lang_stats.lines_comment row))
                       (lang_stats.lines_blank row)))).

(** [total_files], [total_code], [total_comment] and [total_blank]
    after one more row (cloc.c:362-365). *)
Definition add_totals (acc : N * N * N * N) (row : lang_stats.t) : N * N * N * N :=
  let '(tf, tc, tm, tb) := acc in
  (add64 tf (lang_stats.files row), add64 tc (lang_stats.lines_code row),
   add64 tm (lang_stats.lines_comment row), add64 tb (lang_stats.lines_blank row)).

(** [print_stats]: the return value, and the numbers written: a line per
    row and the line of totals.  The layout of the text is left out. *)
Definition print_stats (stats : option (list lang_stats.t)) (stream : bool)
  : Z * option (list (option string * (N * N * N * N * N)) * (N * N * N * N * N)) :=
  match stats with
  | None => ((-1)%Z, None)
  | Some rows =>
      if stream then
        let '(tf, tc, tm, tb) := fold_left add_totals rows (0, 0, 0, 0)%N in
        (0%Z, Some (map print_row rows, (tf, tc, tm, tb, add64 (add64 tc tm) tb)))
      else ((-1)%Z, None)
  end.

(** [main] with what it prints: nothing but the usage or the error
    message when it returns early. *)
Definition main_report (calloc_ok : bool) (args : list (string * option node))
  : outcome (Z * option (list (option string * (N * N * N * N * N)) *
                         (N * N * N * N * N))) :=
  r <- main calloc_ok args ;;
  match args with
  | [] => Done (fst r, None)
  | _ => if calloc_ok then Done (fst r, snd (print_stats (Some (snd r)) true))
         else Done (fst r, None)
  end.

(** The files an argument of [main] adds to the totals. *)
Definition files_of_arg (arg : string * option node) : list file_stats :=
  match snd arg with
  | None => []
  | Some (Directory _ _ as dir) =>
      match walked (fst arg) dir with
      | Done r => snd r
      | _ => []
      end
  | Some (Regular f) | Some (Special f) =>
      match process_file (fst arg) f with
      | Done r => if (fst r =? CLOC_SUCCESS)%Z then [snd r] else []
      | _ => []
      end
  end.

Definition main_files (args : list (string * option node)) : list file_stats :=
  flat_map files_of_arg args.

(** [main] meets no error on the argument. *)
Definition arg_succeeds (arg : string * option node) : Prop :=
  match snd arg with
  | None => False
  | Some (Directory _ _ as dir) =>
      exists files, walked (fst arg) dir = Done (CLOC_SUCCESS, files)
  | Some (Regular f) | Some (Special f) =>
      exists st, process_file (fst arg) f = Done (CLOC_SUCCESS, st)
  end.

(** Sum of a column of the table, and of a counter over files. *)
Definition column (f : lang_stats.t -> N) (rows : list lang_stats.t) : N :=
  fold_right (fun row acc => (f row + acc)%N) 0%N rows.

Definition sum_files (f : file_stats -> N) (files : list file_stats) : N :=
  fold_right (fun fs acc => (f fs + acc)%N) 0%N files.

(** ** Paths below a directory *)

(** The paths [process_directory] builds below [root]: an entry of
    [root], or an entry of a directory below it. *)
Inductive below (root : string) : string -> Prop :=
| below_entry (d_name : string) : below root (full_path root d_name)
| below_deeper (dir d_name : string) :
    below root dir -> below root (full_path dir d_name).

(** [fs] is what [process_file] leaves for a file below [root], with the
    whole path of the file in it. *)
Definition reported (root : string) (fs : file_stats) : Prop :=
  exists file_path f,
    below root file_path /\
    process_file file_path f = Done (CLOC_SUCCESS, fs) /\
    path fs = file_path.

(** ** [get_supported_languages] and [cloc_strerror] *)

(** The loop of [get_supported_languages] (cloc.c:383-385) from the row
    [table] on: the rows copied to [syntax].  The end of the list stands
    for the sentinel row, whose [name] is NULL. *)
Fixpoint copy_rows (table : list lang_syntax) (max_langs : nat)
  : list lang_syntax :=
  match table, max_langs with
  | lang :: rest, S m =>
      match name lang with
      | Some _ => lang :: copy_rows rest m
      | None => []
      end
  | _, _ => []
  end.

(** [get_supported_languages]: the return value and the rows written to
    [syntax]; the boolean tells whether [syntax] is not NULL. *)
Definition get_supported_languages (syntax : bool) (max_langs : nat)
  : Z * list lang_syntax :=
  if negb syntax || (max_langs =? 0) then ((-1)%Z, [])
  else
    let rows := copy_rows languages max_langs in
    (Z.of_nat (List.length rows), rows).

Definition cloc_strerror (err : Z) : string :=
  if (err =? CLOC_SUCCESS)%Z then "Success"
  else if (err =? CLOC_ERROR_IO)%Z then "I/O error"
  else if (err =? CLOC_ERROR_MEM)%Z then "Memory allocation failed"
  else if (err =? CLOC_ERROR_ARG)%Z then "Invalid argument"
  else if (err =? CLOC_ERROR_LIMIT)%Z then "Internal limit reached"
  else "Unknown error".

(** Handing the files to a callback in turn, up to the first one it
    does not return 0 for: whether all were taken, and the state left. *)
Fixpoint feed {G : Type} (cb : file_stats -> G -> Z * G)
    (files : list file_stats) (g : G) : bool * G :=
  match files with
  | [] => (true, g)
  | fs :: rest =>
      let (code, g') := cb fs g in
      if (code =? 0)%Z then feed cb rest g' else (false, g')
  end.

(** ** The scanner on a part of a buffer *)

(** The locals of a run on a buffer, [s], and of a run on a buffer that
    holds it [k] bytes further on, [t]: the same but for the cursor, the
    size recorded at entry, and the quote character left behind by a
    string that has ended. *)
Record shifted (k : nat) (s t : scan) : Prop := {
  sh_p : p t = p s + k;
  sh_block : in_block_comment t = in_block_comment s;
  sh_line : in_line_comment t = in_line_comment s;
  sh_code : has_code t = has_code s;
  sh_string : in_string t = in_string s;
  sh_char : in_string s = true -> string_char t = string_char s;
  sh_stats : set_size 0 (stats t) = set_size 0 (stats s)
}.

(** The byte at offset [i] is plain: no quote, and no comment marker
    starts there. *)
Definition plain_at (buf : list byte) (lang : lang_syntax) (i : nat) : Prop :=
  nth_error buf i <> Some dquote /\ nth_error buf i <> Some squote /\
  ~ stands_at buf i (block_start lang) /\
  ~ stands_at buf i (line_comment lang).

(** Some byte among the [n] from offset [i] on is no white space. *)
Definition ink (buf : list byte) (i n : nat) : bool :=
  existsb (fun c => negb (isspace c)) (firstn n (skipn i buf)).

(** ** The end of the buffer *)

(** An iteration of the run of [count_lines] on [buf] that starts before
    the last byte and leaves the cursor at the end: [s'] is the state
    after it. *)
Definition jumps_to_end (buf : list byte) (lang : lang_syntax)
    (st : file_stats) (s' : scan) : Prop :=
  exists n s,
    iterate buf lang n (scan_init buf st) = Done s /\
    p s + 1 < List.length buf /\
    step buf lang s = Done s' /\
    p s' = List.length buf.

(** What holds in the run of [count_lines] on a buffer that does not end
    with a newline. *)
Definition last_line_inv (buf : list byte) (lang : lang_syntax)
    (st : file_stats) (s : scan) : Prop :=
  (exists n, iterate buf lang n (scan_init buf st) = Done s) /\
  p s <= List.length buf /\
  (p s < List.length buf ->
   total (stats s) = newlines (firstn (p s) buf)) /\
  (p s = List.length buf ->
   (total (stats s) = line_count buf /\ has_code s = false) \/
   (total (stats s) = newlines buf /\ jumps_to_end buf lang st s)).

(** ** A tree without an entry that fails *)

(** [without_failed path n n']: [n'] is the tree [n], walked as [path],
    without one of its entries, at any depth, that is a regular file on
    which [process_file] fails or an entry on which [lstat] fails. *)
Inductive without_failed : string -> node -> node -> Prop :=
| WF_file (path d_name : string) (f : file) (opens : bool)
    (pre post : list (string * option node)) (code : Z) (st : file_stats) :
    process_file (full_path path d_name) f = Done (code, st) ->
    code <> CLOC_SUCCESS ->
    without_failed path
      (Directory opens (pre ++ (d_name, Some (Regular f)) :: post))
      (Directory opens (pre ++ post))
| WF_lstat (path d_name : string) (opens : bool)
    (pre post : list (string * option node)) :
    without_failed path
      (Directory opens (pre ++ (d_name, None) :: post))
      (Directory opens (pre ++ post))
| WF_deeper (path d_name : string) (opens : bool)
    (pre post : list (string * option node)) (child child' : node) :
    without_failed (full_path path d_name) child child' ->
    without_failed path
      (Directory opens (pre ++ (d_name, Some child) :: post))
      (Directory opens (pre ++ (d_name, Some child') :: post)).

(** A directory with a subdirectory that holds a file that cannot be
    opened and a file that can. *)
Definition sample_nested : node :=
  Directory true
    [("src"%string,
      Some (Directory true
              [("locked.c"%string, Some (Regular (unreadable sample_source)));
               ("main.c"%string, Some (Regular (readable sample_source)))]))].

(** The names of the rows of [languages], sentinel included: what the
    name of a row of the table of totals points to. *)
Definition table_names : list (option string) := map language_name (seq 0 8).

(** ** Reads and marker comparison *)

Lemma byte_eqb_eq (a b : byte) : Byte.eqb a b = true <-> a = b.
Proof.
  split; [apply Byte.byte_dec_bl | apply Byte.byte_dec_lb].
Qed.

Lemma byte_eqb_neq (a b : byte) : Byte.eqb a b = false <-> a <> b.
Proof.
  split.
  - apply Byte.eqb_false.
  - intros Hne. destruct (Byte.eqb a b) eqn:E; [|reflexivity].
    apply byte_eqb_eq in E. contradiction.
Qed.

Lemma read_Done (buf : list byte) (i : nat) (c : byte) :
  read buf i = Done c <-> nth_error buf i = Some c.
Proof.
  unfold read. destruct (nth_error buf i); split; intros H; congruence.
Qed.

Lemma read_in_range (buf : list byte) (i : nat) :
  i < List.length buf -> exists c, read buf i = Done c.
Proof.
  intros Hi. unfold read.
  destruct (nth_error buf i) eqn:E; [eauto|].
  apply nth_error_None in E. lia.
Qed.

Lemma read_prev_in_range (buf : list byte) (i : nat) :
  1 <= i <= List.length buf -> exists c, read_prev buf i = Done c.
Proof.
  intros [H1 H2]. destruct i as [|j]; [lia|]. simpl.
  apply read_in_range. lia.
Qed.

Lemma skipn_cons_nth (buf : list byte) (i : nat) (c : byte) :
  nth_error buf i = Some c -> skipn i buf = c :: skipn (S i) buf.
Proof.
  revert i. induction buf as [|b buf IH]; intros [|i] H; simpl in *;
    try discriminate.
  - congruence.
  - apply IH in H. exact H.
Qed.

(** Within the buffer, [memcmp_eq] reads without fault and compares the
    [length m] bytes at offset [i] with [m]. *)
Lemma memcmp_eq_in_range (buf m : list byte) (i : nat) :
  i + List.length m <= List.length buf ->
  exists b, memcmp_eq buf i m = Done b /\
            (b = true <-> firstn (List.length m) (skipn i buf) = m).
Proof.
  revert i. induction m as [|c m IH]; intros i Hi;
    cbn [memcmp_eq List.length] in *.
  - exists true. split; [reflexivity|]. split; reflexivity.
  - destruct (read_in_range buf i) as [b Hb]; [lia|].
    rewrite Hb. cbn [bind].
    destruct (IH (S i)) as [r [Hr Hiff]]; [lia|].
    rewrite Hr. cbn [bind]. eexists. split; [reflexivity|].
    apply read_Done in Hb. rewrite (skipn_cons_nth buf i b Hb), firstn_cons.
    rewrite andb_true_iff, byte_eqb_eq, Hiff.
    split.
    + intros [-> ->]. reflexivity.
    + intros H. injection H as H1 H2. split; assumption.
Qed.

Lemma marker_at_spec (buf m : list byte) (i : nat) :
  exists b, marker_at buf i m = Done b /\
            (b = true <-> i + List.length m <= List.length buf /\
                          firstn (List.length m) (skipn i buf) = m).
Proof.
  unfold marker_at, and_then.
  destruct (i + List.length m <=? List.length buf) eqn:E.
  - apply Nat.leb_le in E.
    destruct (memcmp_eq_in_range buf m i E) as [b [Hb Hiff]].
    exists b. split; [exact Hb|]. rewrite Hiff. tauto.
  - apply Nat.leb_gt in E. exists false. split; [reflexivity|].
    split; [discriminate|]. intros [H _]. lia.
Qed.

(** ** The rules describe [step] *)

Section ScannerRules.

Variable buf : list byte.
Variable lang : lang_syntax.

Lemma handle_string_sound (c : byte) (s s1 : scan) :
  handle_string buf c s = Done s1 -> string_view buf c s s1.
Proof.
  unfold handle_string, and_then. intros H.
  destruct (in_line_comment s) eqn:Hl; cbn [negb andb] in H.
  { injection H as <-. apply SV_keep; intros; congruence. }
  destruct (in_block_comment s) eqn:Hb; cbn [negb andb] in H.
  { injection H as <-. apply SV_keep; intros; congruence. }
  destruct (in_string s) eqn:Hs; cbn [negb andb] in H.
  - destruct (Byte.eqb c (string_char s)) eqn:Hc; cbn [bind] in H.
    + apply byte_eqb_eq in Hc.
      destruct (read_prev buf (p s)) as [prev| |] eqn:Hp; cbn [bind] in H;
        try discriminate.
      destruct (Byte.eqb prev backslash) eqn:Hq; cbn [negb] in H;
        injection H as <-.
      * apply byte_eqb_eq in Hq. subst prev.
        apply SV_keep; intros; [congruence | assumption].
      * apply byte_eqb_neq in Hq. eapply SV_close; eauto.
    + apply byte_eqb_neq in Hc. injection H as <-.
      apply SV_keep; intros; [congruence | contradiction].
  - destruct (Byte.eqb c dquote || Byte.eqb c squote) eqn:Hq.
    + injection H as <-. apply orb_true_iff in Hq.
      rewrite !byte_eqb_eq in Hq. apply SV_open; assumption.
    + cbn [bind] in H. injection H as <-. apply orb_false_iff in Hq.
      rewrite !byte_eqb_neq in Hq.
      apply SV_keep; intros; [assumption | congruence].
Qed.

Lemma handle_markers_sound (s s' : scan) :
  handle_markers buf lang s = Done s' -> marker_view buf lang s s'.
Proof.
  unfold handle_markers, and_then. intros H.
  destruct (marker_at_spec buf (block_start lang) (p s)) as [b1 [E1 H1]].
  destruct (marker_at_spec buf (block_end lang) (p s)) as [b2 [E2 H2]].
  destruct (marker_at_spec buf (line_comment lang) (p s)) as [b3 [E3 H3]].
  rewrite E1, E2, E3 in H. clear E1 E2 E3.
  destruct (in_block_comment s) eqn:Hb, (in_line_comment s) eqn:Hl;
    cbn [negb andb bind] in H.
  - destruct b2; injection H as <-.
    + apply MV_block_end; [assumption | apply H2; reflexivity].
    + apply MV_comment. left. assumption.
  - destruct b2; injection H as <-.
    + apply MV_block_end; [assumption | apply H2; reflexivity].
    + apply MV_comment. left. assumption.
  - injection H as <-. apply MV_comment. right. assumption.
  - destruct b1; cbn [bind] in H.
    + injection H as <-. apply MV_block_start; try assumption.
      apply H1; reflexivity.
    + destruct b3; injection H as <-.
      * apply MV_line; try assumption. apply H3; reflexivity.
      * apply MV_code; assumption.
Qed.

Lemma step_sound (s s' : scan) :
  step buf lang s = Done s' -> step_view buf lang s s'.
Proof.
  unfold step. intros H.
  destruct (read buf (p s)) as [c| |] eqn:Hc; cbn [bind] in H;
    try discriminate.
  apply read_Done in Hc.
  destruct (Byte.eqb c nl || (p s =? List.length buf - 1)) eqn:He.
  { injection H as <-. apply orb_true_iff in He.
    rewrite byte_eqb_eq, Nat.eqb_eq in He. eapply TV_eol; eauto. }
  apply orb_false_iff in He. rewrite byte_eqb_neq, Nat.eqb_neq in He.
  destruct He as [Hnl Hlast].
  destruct (isspace c) eqn:Hsp.
  { injection H as <-. eapply TV_space; eauto. }
  destruct (handle_string buf c s) as [s1| |] eqn:Hs; cbn [bind] in H;
    try discriminate.
  apply handle_string_sound in Hs.
  destruct (in_string s1) eqn:Hin.
  - injection H as <-. eapply TV_string; eauto.
  - apply handle_markers_sound in H. eapply TV_marker; eauto.
Qed.

End ScannerRules.

(** ** Invariants of the loop *)

Section ScannerInvariants.

Variable buf : list byte.
Variable lang : lang_syntax.

Lemma scan_init_inv (st : file_stats) : scan_inv buf (scan_init buf st).
Proof.
  constructor; cbn; try discriminate; try lia.
Qed.

Lemma step_view_in_range (s s' : scan) :
  step_view buf lang s s' -> p s < List.length buf.
Proof.
  intros H.
  assert (exists c, nth_error buf (p s) = Some c) as [c Hc]
    by (inversion H; eauto).
  apply nth_error_Some. congruence.
Qed.

Lemma string_view_p (c : byte) (s s1 : scan) :
  string_view buf c s s1 -> p s1 = p s.
Proof. intros H. inversion H; reflexivity. Qed.

Lemma marker_view_bound (s s' : scan) :
  p s < List.length buf -> marker_view buf lang s s' ->
  p s <= p s' <= List.length buf.
Proof.
  intros Hp H. inversion H; subst; cbn;
    try match goal with Hs : stands_at _ _ _ |- _ => destruct Hs end; lia.
Qed.

(** The cursor never moves back and never leaves the buffer. *)
Lemma step_view_bound (s s' : scan) :
  step_view buf lang s s' -> p s <= p s' <= List.length buf.
Proof.
  intros H. pose proof (step_view_in_range _ _ H) as Hp.
  inversion H; subst; cbn; try lia.
  - match goal with Hs : string_view _ _ _ _ |- _ =>
      rewrite (string_view_p _ _ _ Hs) end. lia.
  - match goal with Hs : string_view _ _ _ _, Hm : marker_view _ _ _ _ |- _ =>
      pose proof (string_view_p _ _ _ Hs) as E;
      apply marker_view_bound in Hm; [lia | rewrite E; exact Hp] end.
Qed.

Lemma marker_view_advances (s s' : scan) :
  markers_nonempty lang -> marker_view buf lang s s' -> p s < p s'.
Proof.
  intros (Hl & Hs & He) H.
  inversion H; subst; cbn; lia.
Qed.

(** With non-empty markers every iteration moves the cursor forward. *)
Lemma step_view_advances (s s' : scan) :
  markers_nonempty lang -> step_view buf lang s s' -> p s < p s'.
Proof.
  intros Hne H. inversion H; subst; cbn; try lia.
  - match goal with Hs : string_view _ _ _ _ |- _ =>
      rewrite (string_view_p _ _ _ Hs) end. lia.
  - match goal with Hs : string_view _ _ _ _, Hm : marker_view _ _ _ _ |- _ =>
      pose proof (string_view_p _ _ _ Hs) as E;
      apply (marker_view_advances _ _ Hne) in Hm; lia end.
Qed.

Lemma string_view_inv (c : byte) (s s1 : scan) :
  nth_error buf (p s) = Some c -> scan_inv buf s -> string_view buf c s s1 ->
  p s1 = p s /\
  in_block_comment s1 = in_block_comment s /\
  in_line_comment s1 = in_line_comment s /\
  (has_code s1 = true -> has_code s = true \/ in_string s1 = true) /\
  (in_string s1 = true ->
   (exists q, q <= p s /\ nth_error buf q = Some (string_char s1) /\
              is_quote (string_char s1)) /\
   in_line_comment s = false /\ in_block_comment s = false).
Proof.
  intros Hc [Hb Hs Hco [Hx1 Hx2]] H. inversion H; subst; cbn.
  - split; [reflexivity|]. split; [reflexivity|]. split; [reflexivity|].
    split; [auto|]. intros _. split; [|split; assumption].
    exists (p s). split; [lia|]. split; assumption.
  - split; [reflexivity|]. split; [reflexivity|]. split; [reflexivity|].
    split; [auto|]. discriminate.
  - split; [reflexivity|]. split; [reflexivity|]. split; [reflexivity|].
    split; [auto|]. intros Hin. split; [|apply Hx1; assumption].
    destruct (Hs Hin) as (q & Hq & Hn & Hquote).
    exists q. split; [lia|]. split; assumption.
Qed.

Lemma step_view_inv (s s' : scan) :
  scan_inv buf s -> step_view buf lang s s' -> scan_inv buf s'.
Proof.
  intros Hinv H.
  pose proof (step_view_bound _ _ H) as Hbound.
  pose proof (step_view_in_range _ _ H) as Hp.
  pose proof Hinv as [Hb Hs Hco [Hx1 Hx2]].
  inversion H; subst.
  - (* end of line *)
    constructor; cbn in *; try lia; try discriminate.
    + intros Hin. destruct (Hs Hin) as (q & Hq & Hn & Hquote).
      exists q. repeat split; auto. lia.
    + split; [|discriminate]. intros Hin. split; [reflexivity|].
      apply Hx1; assumption.
  - (* white space *)
    constructor; cbn in *; try lia.
    + intros Hin. destruct (Hs Hin) as (q & Hq & Hn & Hquote).
      exists q. repeat split; auto. lia.
    + split; assumption.
  - (* inside a string *)
    match goal with
    | Hn : nth_error _ _ = Some _, Hv : string_view _ _ _ _ |- _ =>
        destruct (string_view_inv _ _ _ Hn Hinv Hv) as (E & Eb & El & Hc1 & Hs1)
    end.
    constructor; cbn in *; try lia.
    + intros Hin. destruct (Hs1 Hin) as ((q & Hq & Hn & Hquote) & _).
      exists q. repeat split; auto. lia.
    + split.
      * intros Hin. destruct (Hs1 Hin) as (_ & Hl & Hbl).
        rewrite El, Eb. split; assumption.
      * rewrite El, Eb. assumption.
  - (* comment rules and code *)
    match goal with
    | Hn : nth_error _ _ = Some _, Hv : string_view _ _ _ _ |- _ =>
        destruct (string_view_inv _ _ _ Hn Hinv Hv) as (E & Eb & El & Hc1 & Hs1)
    end.
    match goal with Hm : marker_view _ _ _ _ |- _ =>
      inversion Hm; subst; constructor; cbn in *;
        try lia; try congruence;
        try (split; intros; try split; congruence);
        try (intros Hh; destruct (Hc1 Hh) as [Hh'|Hh'];
             [apply Hco in Hh'; lia | congruence]);
        try (split; [intros; congruence | rewrite El, Eb; assumption])
    end.
Qed.

(** An iteration entered under the invariant reads only inside the
    buffer, so it runs to completion. *)
Lemma handle_markers_total (s : scan) :
  exists s', handle_markers buf lang s = Done s'.
Proof.
  unfold handle_markers, and_then.
  destruct (marker_at_spec buf (block_start lang) (p s)) as [b1 [E1 _]].
  destruct (marker_at_spec buf (block_end lang) (p s)) as [b2 [E2 _]].
  destruct (marker_at_spec buf (line_comment lang) (p s)) as [b3 [E3 _]].
  rewrite E1, E2, E3.
  destruct (in_block_comment s), (in_line_comment s), b1, b2, b3;
    cbn [negb andb bind]; eauto.
Qed.

Lemma handle_string_total (c : byte) (s : scan) :
  p s <= List.length buf -> (in_string s = true -> 1 <= p s) ->
  exists s1, handle_string buf c s = Done s1.
Proof.
  intros Hb Hs. unfold handle_string, and_then.
  destruct (negb (in_line_comment s) && negb (in_block_comment s)); eauto.
  destruct (negb (in_string s) && (Byte.eqb c dquote || Byte.eqb c squote));
    eauto.
  destruct (in_string s) eqn:Hin; cbn [andb bind]; eauto.
  destruct (Byte.eqb c (string_char s)); cbn [bind]; eauto.
  destruct (read_prev_in_range buf (p s)) as [prev Hprev].
  { split; [apply Hs; reflexivity | exact Hb]. }
  rewrite Hprev. cbn [bind]. eauto.
Qed.

Lemma step_total (s : scan) :
  scan_inv buf s -> p s < List.length buf -> exists s', step buf lang s = Done s'.
Proof.
  intros Hinv Hp. unfold step.
  destruct (read_in_range buf (p s) Hp) as [c Hc]. rewrite Hc. cbn [bind].
  destruct (Byte.eqb c nl || (p s =? List.length buf - 1)); eauto.
  destruct (isspace c); eauto.
  destruct (handle_string_total c s) as [s1 Hs1].
  { apply Hinv. }
  { intros Hin. destruct (inv_string _ _ Hinv Hin) as (q & Hq & _). lia. }
  rewrite Hs1. cbn [bind].
  destruct (in_string s1); eauto.
  apply handle_markers_total.
Qed.

(** Induction over the iterations of [scan_loop] and of [iterate]. *)
Lemma scan_loop_invariant (P : scan -> Prop) :
  (forall s s', P s -> p s < List.length buf ->
                step buf lang s = Done s' -> P s') ->
  forall fuel s s', P s -> scan_loop buf lang fuel s = Done s' ->
                    P s' /\ List.length buf <= p s'.
Proof.
  intros Hstep. induction fuel as [|fuel IH]; intros s s' HP H;
    cbn [scan_loop] in H; destruct (p s <? List.length buf) eqn:E; try discriminate.
  - apply Nat.ltb_ge in E. injection H as <-. auto.
  - apply Nat.ltb_lt in E.
    destruct (step buf lang s) as [s1| |] eqn:Hs; cbn [bind] in H;
      try discriminate.
    apply (IH s1 s'); [|exact H]. eapply Hstep; eauto.
  - apply Nat.ltb_ge in E. injection H as <-. auto.
Qed.

Lemma iterate_invariant (P : scan -> Prop) :
  (forall s s', P s -> p s < List.length buf ->
                step buf lang s = Done s' -> P s') ->
  forall n s s', P s -> iterate buf lang n s = Done s' -> P s'.
Proof.
  intros Hstep. induction n as [|n IH]; intros s s' HP H;
    cbn [iterate] in H.
  - injection H as <-. exact HP.
  - destruct (p s <? List.length buf) eqn:E.
    + apply Nat.ltb_lt in E.
      destruct (step buf lang s) as [s1| |] eqn:Hs; cbn [bind] in H;
        try discriminate.
      apply (IH s1 s'); [|exact H]. eapply Hstep; eauto.
    + injection H as <-. exact HP.
Qed.

Lemma step_inv (s s' : scan) :
  scan_inv buf s -> p s < List.length buf -> step buf lang s = Done s' ->
  scan_inv buf s'.
Proof.
  intros Hinv _ H. apply step_sound in H. eapply step_view_inv; eauto.
Qed.

(** When no marker is empty, [scan_loop] ends within [end - p]
    iterations, with the cursor at [end]. *)
Lemma scan_loop_total :
  markers_nonempty lang ->
  forall fuel s, scan_inv buf s -> List.length buf - p s <= fuel ->
    exists s', scan_loop buf lang fuel s = Done s' /\ scan_inv buf s' /\
               p s' = List.length buf.
Proof.
  intros Hne. induction fuel as [|fuel IH]; intros s Hinv Hfuel;
    cbn [scan_loop]; destruct (p s <? List.length buf) eqn:E.
  - apply Nat.ltb_lt in E. lia.
  - apply Nat.ltb_ge in E. exists s. pose proof (inv_bound _ _ Hinv).
    split; [reflexivity|]. split; [assumption | lia].
  - apply Nat.ltb_lt in E.
    destruct (step_total _ Hinv E) as [s1 Hs1]. rewrite Hs1. cbn [bind].
    pose proof (step_sound _ _ _ _ Hs1) as Hv.
    apply IH; [eapply step_view_inv; eauto|].
    pose proof (step_view_advances _ _ Hne Hv). lia.
  - apply Nat.ltb_ge in E. exists s. pose proof (inv_bound _ _ Hinv).
    split; [reflexivity|]. split; [assumption | lia].
Qed.

End ScannerInvariants.

(** ** Counting lines *)

Lemma incr32_le (x : N) : (incr32 x <= x + 1)%N.
Proof. unfold incr32. apply N.Div0.mod_le. Qed.

Lemma incr32_small (x : N) : (x + 1 < 2 ^ 32)%N -> incr32 x = (x + 1)%N.
Proof. intros H. unfold incr32. apply N.mod_small. exact H. Qed.

Lemma total_classify_line_le (s : scan) :
  (total (classify_line s) <= total (stats s) + 1)%N.
Proof.
  unfold classify_line, total.
  destruct (in_line_comment s), (in_block_comment s), (has_code s); cbn;
    match goal with |- context [incr32 ?x] => pose proof (incr32_le x) end;
    lia.
Qed.

Lemma newlines_app (a b : list byte) :
  newlines (a ++ b) = (newlines a + newlines b)%N.
Proof. unfold newlines. rewrite filter_app, length_app. lia. Qed.

Lemma firstn_succ_nth (buf : list byte) (i : nat) (c : byte) :
  nth_error buf i = Some c -> firstn (S i) buf = firstn i buf ++ [c].
Proof.
  revert i. induction buf as [|b buf IH]; intros [|i] H; cbn in *;
    try discriminate.
  - congruence.
  - f_equal. apply IH. exact H.
Qed.

Lemma newlines_firstn_succ (buf : list byte) (i : nat) (c : byte) :
  nth_error buf i = Some c ->
  newlines (firstn (S i) buf) =
  (newlines (firstn i buf) + (if Byte.eqb c nl then 1 else 0))%N.
Proof.
  intros H. rewrite (firstn_succ_nth buf i c H), newlines_app. f_equal.
  unfold newlines. cbn [filter].
  destruct (Byte.eqb c nl) eqn:E.
  - apply byte_eqb_eq in E. subst c. reflexivity.
  - apply byte_eqb_neq in E.
    destruct (Byte.eqb nl c) eqn:E'; [|reflexivity].
    apply byte_eqb_eq in E'. congruence.
Qed.

Lemma newlines_firstn_mono (buf : list byte) (i j : nat) :
  i <= j -> (newlines (firstn i buf) <= newlines (firstn j buf))%N.
Proof.
  intros Hij.
  rewrite <- (firstn_skipn i (firstn j buf)), firstn_firstn, newlines_app.
  replace (Nat.min i j) with i by lia. lia.
Qed.

Lemma last_byte_split (buf : list byte) (c : byte) :
  read_prev buf (List.length buf) = Done c ->
  buf = firstn (List.length buf - 1) buf ++ [c].
Proof.
  intros H. destruct (List.length buf) as [|n] eqn:En; [discriminate|].
  cbn [read_prev] in H. apply read_Done in H.
  replace (S n - 1) with n by lia.
  rewrite <- (firstn_succ_nth buf n c H), <- En. symmetry. apply firstn_all.
Qed.

Lemma partial_line_last (buf : list byte) (c : byte) :
  read_prev buf (List.length buf) = Done c ->
  partial_line buf = (if Byte.eqb c nl then 0 else 1)%N.
Proof.
  intros H. unfold partial_line.
  rewrite (last_byte_split buf c H), rev_app_distr. reflexivity.
Qed.

Section Counting.

Variable buf : list byte.
Variable lang : lang_syntax.

Lemma string_view_stats (c : byte) (s s1 : scan) :
  string_view buf c s s1 -> stats s1 = stats s.
Proof. intros H. inversion H; reflexivity. Qed.

Lemma marker_view_stats (s s' : scan) :
  marker_view buf lang s s' -> stats s' = stats s.
Proof. intros H. inversion H; reflexivity. Qed.

(** Only the end-of-line branch touches the counters. *)
Lemma step_view_stats (s s' : scan) :
  step_view buf lang s s' ->
  stats s' = stats s \/
  (s' = end_of_line s /\
   exists c, nth_error buf (p s) = Some c /\
             (c = nl \/ p s = List.length buf - 1)).
Proof.
  intros H. inversion H; subst.
  - right. eauto.
  - left. reflexivity.
  - left. cbn. eapply string_view_stats; eauto.
  - left.
    match goal with Hs : string_view _ _ _ _, Hm : marker_view _ _ _ _ |- _ =>
      rewrite (marker_view_stats _ _ Hm); exact (string_view_stats _ _ _ Hs) end.
Qed.

Lemma count_inv_init (st : file_stats) :
  count_inv buf (total st) (scan_init buf st).
Proof. unfold count_inv, total. cbn. lia. Qed.

Lemma count_inv_step (base : N) (s s' : scan) :
  count_inv buf base s -> step_view buf lang s s' -> count_inv buf base s'.
Proof.
  unfold count_inv. intros Hc H.
  pose proof (step_view_in_range _ _ _ _ H) as Hp.
  pose proof (step_view_bound _ _ _ _ H) as Hb.
  assert ((List.length buf <=? p s) = false) as E by (apply Nat.leb_gt; lia).
  rewrite E in Hc. cbn [andb] in Hc.
  destruct (step_view_stats _ _ H) as [Hs | [-> (c & Hn & Heol)]].
  - rewrite Hs.
    pose proof (newlines_firstn_mono buf (p s) (p s')).
    destruct ((List.length buf <=? p s') && negb (has_code s')); lia.
  - cbn [stats end_of_line p has_code negb].
    pose proof (total_classify_line_le s) as Hcl.
    replace (p s + 1) with (S (p s)) by lia.
    rewrite (newlines_firstn_succ buf (p s) c Hn).
    destruct (Byte.eqb c nl) eqn:Ec.
    + destruct ((List.length buf <=? S (p s)) && true); lia.
    + apply byte_eqb_neq in Ec. destruct Heol as [Heol|Heol]; [contradiction|].
      assert ((List.length buf <=? S (p s)) = true) as E'
        by (apply Nat.leb_le; lia).
      rewrite E'. cbn [andb].
      assert (read_prev buf (List.length buf) = Done c) as Hlast.
      { replace (List.length buf) with (S (p s)) by lia.
        cbn [read_prev]. apply read_Done. exact Hn. }
      rewrite (partial_line_last buf c Hlast).
      apply byte_eqb_neq in Ec. rewrite Ec. lia.
Qed.

(** The post-pass adds a code line only for a partial last line that
    the loop has not classified. *)
Lemma last_line_bound (base : N) (s : scan) (r : file_stats) :
  count_inv buf base s -> List.length buf <= p s ->
  last_line buf s = Done r ->
  (total r <= base + line_count buf)%N.
Proof.
  unfold count_inv, last_line, and_then, line_count. intros Hc Hp H.
  assert ((List.length buf <=? p s) = true) as E by (apply Nat.leb_le; lia).
  rewrite E in Hc. cbn [andb] in Hc.
  pose proof (newlines_firstn_mono buf (p s) (p s) (Nat.le_refl _)).
  assert (newlines (firstn (p s) buf) = newlines buf) as En.
  { rewrite firstn_all2 by lia. reflexivity. }
  rewrite En in Hc.
  destruct (has_code s); cbn [negb] in Hc.
  - destruct (read_prev buf (List.length buf)) as [c| |] eqn:Hl;
      cbn [bind] in H; try discriminate.
    rewrite (partial_line_last buf c Hl).
    destruct (Byte.eqb c nl); cbn [negb] in H; injection H as <-.
    + lia.
    + unfold total in *. cbn. pose proof (incr32_le (lines_code (stats s))).
      lia.
  - cbn [bind] in H. injection H as <-. lia.
Qed.

(** Whatever the number of iterations allowed, a run of [count_lines]
    that ends has counted at most [line_count buf] lines. *)
Lemma count_lines_fuel_bound (fuel : nat) (st r : file_stats) :
  count_lines_fuel buf lang fuel st = Done r ->
  (total r <= total st + line_count buf)%N.
Proof.
  unfold count_lines_fuel. intros H.
  destruct (scan_loop buf lang fuel (scan_init buf st)) as [s| |] eqn:Hl;
    cbn [bind] in H; try discriminate.
  destruct (scan_loop_invariant buf lang (count_inv buf (total st))) with
    (fuel := fuel) (s := scan_init buf st) (s' := s) as [Hc Hp].
  - intros s1 s2 H1 _ H2. eapply count_inv_step; eauto.
    apply step_sound. exact H2.
  - apply count_inv_init.
  - exact Hl.
  - eapply last_line_bound; eauto.
Qed.

End Counting.

(** [iterate] follows the iterations of [scan_loop]. *)
Lemma scan_loop_iterate (buf : list byte) (lang : lang_syntax) (n m : nat)
    (s : scan) :
  scan_loop buf lang (n + m) s =
  (s' <- iterate buf lang n s ;; scan_loop buf lang m s').
Proof.
  revert s. induction n as [|n IH]; intros s.
  - reflexivity.
  - cbn [Nat.add scan_loop iterate].
    destruct (p s <? List.length buf) eqn:E.
    + destruct (step buf lang s) as [s1| |]; cbn [bind]; auto.
    + cbn [bind]. destruct m; cbn [scan_loop]; rewrite E; reflexivity.
Qed.

(** A run that ends does not depend on the iterations it was allowed. *)
Lemma scan_loop_more_fuel (buf : list byte) (lang : lang_syntax)
    (fuel fuel' : nat) (s s' : scan) :
  fuel <= fuel' -> scan_loop buf lang fuel s = Done s' ->
  scan_loop buf lang fuel' s = Done s'.
Proof.
  revert fuel' s. induction fuel as [|fuel IH]; intros fuel' s Hle H;
    cbn [scan_loop] in H.
  - destruct (p s <? List.length buf) eqn:E; [discriminate|].
    destruct fuel'; cbn [scan_loop]; rewrite E; exact H.
  - destruct fuel' as [|fuel']; [lia|]. cbn [scan_loop].
    destruct (p s <? List.length buf); [|exact H].
    destruct (step buf lang s) as [s1| |]; cbn [bind] in *; try discriminate.
    apply IH; [lia | exact H].
Qed.

Lemma count_lines_fuel_more (buf : list byte) (lang : lang_syntax)
    (fuel fuel' : nat) (st r : file_stats) :
  fuel <= fuel' -> count_lines_fuel buf lang fuel st = Done r ->
  count_lines_fuel buf lang fuel' st = Done r.
Proof.
  unfold count_lines_fuel. intros Hle H.
  destruct (scan_loop buf lang fuel (scan_init buf st)) as [s| |] eqn:Hl;
    cbn [bind] in H; try discriminate.
  rewrite (scan_loop_more_fuel buf lang fuel fuel' _ s Hle Hl). exact H.
Qed.

(** ** The run of [count_lines] *)

Lemma last_line_total (buf : list byte) (s : scan) :
  scan_inv buf s -> p s = List.length buf ->
  exists r, last_line buf s = Done r.
Proof.
  intros Hinv Hp. unfold last_line, and_then.
  destruct (has_code s) eqn:Hc; cbn [bind]; eauto.
  destruct (read_prev_in_range buf (List.length buf)) as [c Hr].
  { pose proof (inv_code _ _ Hinv Hc). lia. }
  rewrite Hr. cbn [bind]. eauto.
Qed.

(** With non-empty markers [count_lines] runs to completion: the loop
    ends with the cursor at [end], and the post-pass reads inside the
    buffer. *)
Lemma count_lines_runs (buf : list byte) (lang : lang_syntax) (st : file_stats) :
  markers_nonempty lang ->
  exists s r,
    scan_loop buf lang (List.length buf) (scan_init buf st) = Done s /\
    scan_inv buf s /\ p s = List.length buf /\
    last_line buf s = Done r /\
    count_lines buf lang st = Done r.
Proof.
  intros Hne.
  destruct (scan_loop_total buf lang Hne (List.length buf) (scan_init buf st))
    as (s & Hs & Hinv & Hp).
  { apply scan_init_inv. }
  { cbn. lia. }
  destruct (last_line_total buf s Hinv Hp) as [r Hr].
  exists s, r.
  split; [exact Hs|]. split; [exact Hinv|]. split; [exact Hp|].
  split; [exact Hr|].
  unfold count_lines, count_lines_fuel. rewrite Hs. exact Hr.
Qed.

Lemma languages_nonempty (lang : lang_syntax) :
  In lang languages -> markers_nonempty lang.
Proof.
  unfold languages. cbn [In].
  intros [<-|[<-|[<-|[<-|[<-|[<-|[<-|[]]]]]]]]; unfold markers_nonempty; cbn; lia.
Qed.

(** The cursor is at the last byte: the end-of-line branch runs. *)
Lemma step_at_last_byte (buf : list byte) (lang : lang_syntax) (s : scan) :
  p s + 1 = List.length buf -> step buf lang s = Done (end_of_line s).
Proof.
  intros Hp. unfold step.
  destruct (read_in_range buf (p s)) as [c Hc]; [lia|].
  rewrite Hc. cbn [bind].
  replace (p s =? List.length buf - 1) with true
    by (symmetry; apply Nat.eqb_eq; lia).
  rewrite orb_true_r. reflexivity.
Qed.

(** * Properties of the scanner *)

(** C2.  With the C descriptor, the 25 bytes of a block comment that
    starts on line 1 and ends on line 3 before the call [x();] give two
    comment lines, one code line and no blank line: lines 1 and 2 are
    counted as comment while the block is open; on line 3 the end marker
    closes the block, the bytes after it set [has_code], and the newline
    counts the line as code. *)
Theorem block_comment_sample_counts :
  List.length sample_block_comment = 25 /\
  count_lines sample_block_comment lang_C init_file_stats =
    Done {| path := ""; size := 25; lines_code := 1; lines_comment := 2;
            lines_blank := 0; language := 0; error := 0 |} /\
  snapshot sample_block_comment lang_C 8 =
    Some (9, (true, false, false, false), (0, 1, 0)%N) /\
  snapshot sample_block_comment lang_C 12 =
    Some (13, (true, false, false, false), (0, 2, 0)%N) /\
  snapshot sample_block_comment lang_C 17 =
    Some (19, (false, false, false, false), (0, 2, 0)%N) /\
  snapshot sample_block_comment lang_C 22 =
    Some (24, (false, false, true, false), (0, 2, 0)%N) /\
  snapshot sample_block_comment lang_C 23 =
    Some (25, (false, false, false, false), (1, 2, 0)%N).
Proof. repeat split; vm_compute; reflexivity. Qed.

Lemma marker_view_in_string (buf : list byte) (lang : lang_syntax) (s s' : scan) :
  marker_view buf lang s s' -> in_string s' = in_string s.
Proof. intros H. inversion H; reflexivity. Qed.

Lemma string_view_flags (buf : list byte) (c : byte) (s s1 : scan) :
  string_view buf c s s1 ->
  in_block_comment s1 = in_block_comment s /\
  in_line_comment s1 = in_line_comment s.
Proof. intros H. inversion H; split; reflexivity. Qed.

(** A step that leaves the string state has met the remembered quote
    with something else than a backslash before it. *)
Lemma string_closed_by (buf : list byte) (lang : lang_syntax) (s s' : scan) :
  in_string s = true -> step_view buf lang s s' -> in_string s' = false ->
  nth_error buf (p s) = Some (string_char s) /\
  exists prev, read_prev buf (p s) = Done prev /\ prev <> backslash.
Proof.
  intros Hin H Hout. inversion H; subst; cbn in Hout; try congruence.
  match goal with Hm : marker_view _ _ _ _ |- _ =>
    apply marker_view_in_string in Hm end.
  match goal with Hv : string_view _ _ _ _ |- _ => inversion Hv; subst end;
    cbn in *; try congruence.
  split; [assumption | eauto].
Qed.

(** C4.  In the string state the string ends only at a byte equal to the
    remembered quote whose one preceding byte is no backslash, and it does
    end there when that byte is neither the last byte of the buffer nor in
    a comment state; a quote after a backslash never ends the string,
    whatever comes before the backslash.  In the first sample the escaped
    quote (offset 3) leaves the string open and the quote at offset 5
    closes it; in the second the quote at offset 4 follows a backslash
    that is itself escaped, and the string stays open to the end. *)
Theorem string_end_checks_one_byte_back :
  (forall buf lang s s',
     in_string s = true -> step buf lang s = Done s' -> in_string s' = false ->
     nth_error buf (p s) = Some (string_char s) /\
     exists prev, read_prev buf (p s) = Done prev /\ prev <> backslash) /\
  (forall buf lang s s',
     in_string s = true -> step buf lang s = Done s' ->
     read_prev buf (p s) = Done backslash -> in_string s' = true) /\
  (forall buf lang s prev,
     in_string s = true ->
     in_line_comment s = false -> in_block_comment s = false ->
     nth_error buf (p s) = Some (string_char s) -> is_quote (string_char s) ->
     p s + 1 < List.length buf ->
     read_prev buf (p s) = Done prev -> prev <> backslash ->
     exists s', step buf lang s = Done s' /\ in_string s' = false) /\
  snapshot sample_escaped_quote lang_C 3 =
    Some (3, (false, false, true, true), (0, 0, 0)%N) /\
  snapshot sample_escaped_quote lang_C 4 =
    Some (4, (false, false, true, true), (0, 0, 0)%N) /\
  snapshot sample_escaped_quote lang_C 6 =
    Some (6, (false, false, true, false), (0, 0, 0)%N) /\
  snapshot sample_escaped_backslash lang_C 4 =
    Some (4, (false, false, true, true), (0, 0, 0)%N) /\
  snapshot sample_escaped_backslash lang_C 5 =
    Some (5, (false, false, true, true), (0, 0, 0)%N) /\
  snapshot sample_escaped_backslash lang_C 8 =
    Some (8, (false, false, false, true), (1, 0, 0)%N).
Proof.
  split; [|split; [|split]].
  - intros buf lang s s' Hin H Hout.
    apply step_sound in H. eapply string_closed_by; eauto.
  - intros buf lang s s' Hin H Hprev.
    destruct (in_string s') eqn:Hout; [reflexivity|].
    apply step_sound in H.
    destruct (string_closed_by buf lang s s' Hin H Hout)
      as (_ & prev & Hp & Hne).
    congruence.
  - intros buf lang s prev Hin Hl Hb Hc [Hq|Hq] Hp Hprev Hne.
    all: unfold step; apply read_Done in Hc; rewrite Hc; cbn [bind].
    all: replace (p s =? List.length buf - 1) with false
           by (symmetry; apply Nat.eqb_neq; lia).
    all: assert (Byte.eqb (string_char s) nl = false) as Enl
           by (rewrite Hq; reflexivity).
    all: assert (isspace (string_char s) = false) as Esp
           by (rewrite Hq; reflexivity).
    all: rewrite Enl, Esp; cbn [orb].
    all: unfold handle_string, and_then.
    all: rewrite Hin, Hl, Hb; cbn [negb andb].
    all: replace (Byte.eqb (string_char s) (string_char s)) with true
           by (symmetry; apply byte_eqb_eq; reflexivity).
    all: rewrite Hprev; cbn [bind].
    all: apply byte_eqb_neq in Hne; rewrite Hne; cbn [negb bind in_string close_string].
    all: destruct (handle_markers_total buf lang (close_string s)) as [s' Hs'].
    all: exists s'; split; [exact Hs'|].
    all: apply handle_markers_sound in Hs'.
    all: apply marker_view_in_string in Hs'; exact Hs'.
  - repeat split; vm_compute; reflexivity.
Qed.

(** The clauses of C4 at the closing quote of the first sample. *)
Lemma string_end_checks_one_byte_back_witness :
  let s := {| p := 5; in_block_comment := false; in_line_comment := false;
              has_code := true; in_string := true; string_char := dquote;
              stats := init_file_stats |} in
  in_string s = true /\
  read_prev sample_escaped_quote (p s) = Done x62 /\
  exists s', step sample_escaped_quote lang_C s = Done s' /\ in_string s' = false.
Proof.
  intros s. split; [reflexivity|]. split; [reflexivity|].
  destruct string_end_checks_one_byte_back as (_ & _ & H & _).
  apply (H sample_escaped_quote lang_C s x62).
  - reflexivity.
  - reflexivity.
  - reflexivity.
  - reflexivity.
  - left. reflexivity.
  - vm_compute. lia.
  - reflexivity.
  - discriminate.
Defined.

(** C5.  With the C descriptor the line made of the string literal whose
    text is the line-comment marker followed by [ not a comment] is one
    code line and no comment line: after the marker text the scanner is
    still in the string and in no comment state.  In general an iteration
    that starts and ends in the string state moves the cursor by one byte
    and enters no comment state. *)
Theorem marker_inside_string_is_code :
  count_lines sample_string_marker lang_C init_file_stats =
    Done {| path := ""; size := 19; lines_code := 1; lines_comment := 0;
            lines_blank := 0; language := 0; error := 0 |} /\
  snapshot sample_string_marker lang_C 1 =
    Some (1, (false, false, true, true), (0, 0, 0)%N) /\
  snapshot sample_string_marker lang_C 3 =
    Some (3, (false, false, true, true), (0, 0, 0)%N) /\
  snapshot sample_string_marker lang_C 18 =
    Some (18, (false, false, true, false), (0, 0, 0)%N) /\
  (forall buf lang s s',
     step buf lang s = Done s' -> in_string s = true -> in_string s' = true ->
     p s' = p s + 1 /\
     in_block_comment s' = in_block_comment s /\
     (in_line_comment s' = true -> in_line_comment s = true)).
Proof.
  split; [vm_compute; reflexivity|].
  split; [vm_compute; reflexivity|].
  split; [vm_compute; reflexivity|].
  split; [vm_compute; reflexivity|].
  intros buf lang s s' H Hin Hin'. apply step_sound in H.
  inversion H; subst; cbn in *.
  - repeat split; auto. discriminate.
  - repeat split; auto.
  - match goal with Hv : string_view _ _ _ _ |- _ =>
      pose proof (string_view_p _ _ _ _ Hv) as Ep;
      destruct (string_view_flags _ _ _ _ Hv) as [Eb El] end.
    rewrite Ep, Eb, El. repeat split; auto.
  - match goal with Hm : marker_view _ _ _ _ |- _ =>
      apply marker_view_in_string in Hm end.
    congruence.
Qed.

(** C5 at the opening quote's successor in the sample. *)
Lemma marker_inside_string_is_code_witness :
  let s := {| p := 1; in_block_comment := false; in_line_comment := false;
              has_code := true; in_string := true; string_char := dquote;
              stats := init_file_stats |} in
  step sample_string_marker lang_C s = Done (advance 1 s) /\
  p (advance 1 s) = p s + 1 /\
  in_block_comment (advance 1 s) = in_block_comment s /\
  (in_line_comment (advance 1 s) = true -> in_line_comment s = true).
Proof.
  intros s. split; [reflexivity|].
  destruct marker_inside_string_is_code as (_ & _ & _ & _ & H).
  apply (H sample_string_marker lang_C s (advance 1 s)); reflexivity.
Defined.

(** C9.  At the last byte of the buffer the end-of-line branch runs and
    nothing else: the line is classified with the flags gathered before
    that byte and [has_code] is reset, so an iteration that leaves
    [has_code] set was not at the last byte.  A buffer of one byte,
    whatever the byte and the descriptor, is one blank line. *)
Theorem last_byte_is_not_content :
  (forall buf lang s,
     p s + 1 = List.length buf ->
     step buf lang s = Done (end_of_line s) /\
     has_code (end_of_line s) = false /\
     stats (end_of_line s) = classify_line s) /\
  (forall buf lang s s',
     p s < List.length buf -> step buf lang s = Done s' ->
     has_code s' = true -> p s + 1 < List.length buf) /\
  (forall c lang,
     count_lines [c] lang init_file_stats =
       Done {| path := ""; size := 1; lines_code := 0; lines_comment := 0;
               lines_blank := 1; language := 0; error := 0 |}).
Proof.
  split; [|split].
  - intros buf lang s Hp. split; [|split; reflexivity].
    apply step_at_last_byte. exact Hp.
  - intros buf lang s s' Hp H Hc.
    destruct (Nat.eq_dec (p s + 1) (List.length buf)) as [E|E]; [|lia].
    rewrite (step_at_last_byte buf lang s E) in H.
    injection H as <-. discriminate.
  - intros c lang. unfold count_lines, count_lines_fuel.
    cbn [List.length scan_loop scan_init p Nat.ltb Nat.leb].
    rewrite (step_at_last_byte [c] lang); [|reflexivity].
    cbn [bind scan_loop end_of_line p Nat.add Nat.ltb Nat.leb].
    reflexivity.
Qed.

(** C9 on the buffer that holds the one byte x. *)
Lemma last_byte_is_not_content_witness :
  let s := scan_init (bytes "x") init_file_stats in
  p s + 1 = List.length (bytes "x") /\
  step (bytes "x") lang_C s = Done (end_of_line s) /\
  has_code (end_of_line s) = false /\
  counts (stats (end_of_line s)) = (0, 0, 1)%N.
Proof.
  intros s. split; [reflexivity|].
  destruct last_byte_is_not_content as (H & _ & _).
  destruct (H (bytes "x") lang_C s) as (H1 & H2 & H3); [reflexivity|].
  split; [exact H1|]. split; [exact H2|]. rewrite H3. reflexivity.
Defined.

(** C1 (the code departs from it).  A buffer whose last line ends with a
    comment marker and no newline: the marker match moves the cursor past
    the last byte, the end-of-line branch never sees that line, and with
    [has_code] unset the post-pass adds nothing.  The two bytes of the
    line comment marker of C are one line and give three zero counters. *)
Theorem marker_at_end_line_is_dropped :
  line_count sample_marker_at_end = 1%N /\
  count_lines sample_marker_at_end lang_C init_file_stats =
    Done {| path := ""; size := 2; lines_code := 0; lines_comment := 0;
            lines_blank := 0; language := 0; error := 0 |} /\
  snapshot sample_marker_at_end lang_C 1 =
    Some (2, (false, true, false, false), (0, 0, 0)%N).
Proof. repeat split; vm_compute; reflexivity. Qed.

Lemma same_file_classify (s : scan) (st : file_stats) :
  same_file (stats s) st -> same_file (classify_line s) st.
Proof.
  unfold classify_line.
  destruct (in_line_comment s), (in_block_comment s), (has_code s); auto.
Qed.

Lemma size_classify (s : scan) : size (classify_line s) = size (stats s).
Proof.
  unfold classify_line.
  destruct (in_line_comment s), (in_block_comment s), (has_code s); reflexivity.
Qed.

(** C7.  A marker is taken to stand at the cursor only when all of it
    lies inside the buffer: the comparison is guarded by
    [p + strlen(marker) <= end], under the guard it reads only bytes of
    the buffer (it never faults), and past the guard the answer is no.
    So an iteration that enters or leaves a comment state found the whole
    marker between the cursor and the end of the buffer. *)
Theorem marker_match_stays_in_buffer :
  (forall buf i m,
     exists b, marker_at buf i m = Done b /\ (b = true <-> stands_at buf i m)) /\
  (forall buf i m,
     List.length buf < i + List.length m -> marker_at buf i m = Done false) /\
  (forall buf i m,
     i + List.length m <= List.length buf ->
     exists b, memcmp_eq buf i m = Done b) /\
  (forall buf lang s s',
     step buf lang s = Done s' ->
     (in_block_comment s = false -> in_block_comment s' = true ->
      stands_at buf (p s) (block_start lang) /\
      p s' = p s + List.length (block_start lang)) /\
     (in_block_comment s = true -> in_block_comment s' = false ->
      stands_at buf (p s) (block_end lang) /\
      p s' = p s + List.length (block_end lang)) /\
     (in_line_comment s = false -> in_line_comment s' = true ->
      stands_at buf (p s) (line_comment lang) /\
      p s' = p s + List.length (line_comment lang))).
Proof.
  split; [|split; [|split]].
  - intros buf i m. apply marker_at_spec.
  - intros buf i m H. unfold marker_at, and_then.
    replace (i + List.length m <=? List.length buf) with false
      by (symmetry; apply Nat.leb_gt; exact H).
    reflexivity.
  - intros buf i m H.
    destruct (memcmp_eq_in_range buf m i H) as [b [Hb _]]. eauto.
  - intros buf lang s s' H. apply step_sound in H.
    inversion H; subst; cbn.
    + repeat split; intros; congruence.
    + repeat split; intros; congruence.
    + match goal with Hv : string_view _ _ _ _ |- _ =>
        destruct (string_view_flags _ _ _ _ Hv) as [Eb El] end.
      rewrite Eb, El. repeat split; intros; congruence.
    + match goal with Hv : string_view _ _ _ _ |- _ =>
        pose proof (string_view_p _ _ _ _ Hv) as Ep;
        destruct (string_view_flags _ _ _ _ Hv) as [Eb El] end.
      rewrite <- Ep, <- Eb, <- El.
      match goal with Hm : marker_view _ _ _ _ |- _ => inversion Hm; subst end;
        cbn; repeat split; intros; try congruence; try assumption;
        match goal with Hs : stands_at _ _ _ |- _ => apply Hs end.
Qed.

(** C7 on the sample whose two bytes are the line comment marker, and on
    its last byte, where the marker no longer fits. *)
Lemma marker_match_stays_in_buffer_witness :
  marker_at sample_marker_at_end 0 (line_comment lang_C) = Done true /\
  List.length sample_marker_at_end < 1 + List.length (line_comment lang_C) /\
  marker_at sample_marker_at_end 1 (line_comment lang_C) = Done false.
Proof.
  split; [reflexivity|]. split; [cbn; lia|].
  destruct marker_match_stays_in_buffer as (_ & H & _).
  apply (H sample_marker_at_end 1 (line_comment lang_C)). cbn. lia.
Defined.

(** C10.  In every state the loop of [count_lines] reaches with the
    string flag set, the cursor is at least one byte past the start of
    the buffer and a quote byte equal to the remembered one lies before
    it; so the byte read by the string-end rule at [p - 1] is a byte of
    the buffer, and "Handle strings" never faults. *)
Theorem string_lookback_in_buffer (buf : list byte) (lang : lang_syntax)
    (st : file_stats) (n : nat) (s : scan) :
  iterate buf lang n (scan_init buf st) = Done s ->
  in_string s = true ->
  1 <= p s <= List.length buf /\
  (exists q, q < p s /\ nth_error buf q = Some (string_char s) /\
             is_quote (string_char s)) /\
  (exists prev, read_prev buf (p s) = Done prev /\
                nth_error buf (p s - 1) = Some prev) /\
  (forall c, exists s1, handle_string buf c s = Done s1).
Proof.
  intros Hit Hin.
  assert (scan_inv buf s) as Hinv.
  { apply (iterate_invariant buf lang (scan_inv buf) (step_inv buf lang)
             n (scan_init buf st) s); [apply scan_init_inv | exact Hit]. }
  destruct (inv_string _ _ Hinv Hin) as (q & Hq & Hn & Hquote).
  pose proof (inv_bound _ _ Hinv) as Hb.
  split; [lia|]. split; [eauto|]. split.
  - destruct (read_prev_in_range buf (p s)) as [prev Hprev]; [lia|].
    exists prev. split; [exact Hprev|].
    destruct (p s) as [|j]; [lia|]. cbn [read_prev] in Hprev.
    apply read_Done in Hprev. replace (S j - 1) with j by lia. exact Hprev.
  - intros c. apply handle_string_total; [exact Hb | intros _; lia].
Qed.

(** C10 on the sample with the escaped quote, after that quote. *)
Lemma string_lookback_in_buffer_witness :
  exists s,
    iterate sample_escaped_quote lang_C 4
      (scan_init sample_escaped_quote init_file_stats) = Done s /\
    in_string s = true /\
    1 <= p s <= List.length sample_escaped_quote /\
    exists prev, read_prev sample_escaped_quote (p s) = Done prev.
Proof.
  eexists. split; [reflexivity|]. split; [reflexivity|].
  destruct (string_lookback_in_buffer sample_escaped_quote lang_C
              init_file_stats 4 _ eq_refl eq_refl)
    as (Hb & _ & (prev & Hp & _) & _).
  split; [exact Hb | exists prev; exact Hp].
Defined.

(** [count_lines] writes [size] and the counters, and nothing else. *)
Lemma count_lines_fuel_fields (buf : list byte) (lang : lang_syntax)
    (fuel : nat) (st r : file_stats) :
  count_lines_fuel buf lang fuel st = Done r ->
  size r = Z.of_nat (List.length buf) /\ same_file r st.
Proof.
  unfold count_lines_fuel. intros H.
  destruct (scan_loop buf lang fuel (scan_init buf st)) as [s| |] eqn:Hl;
    cbn [bind] in H; try discriminate.
  destruct (scan_loop_invariant buf lang
              (fun s => size (stats s) = Z.of_nat (List.length buf) /\
                        same_file (stats s) st))
    with (fuel := fuel) (s := scan_init buf st) (s' := s) as [[Hs Hf] _].
  - intros s1 s2 [H1 H2] _ Hstep. apply step_sound in Hstep.
    destruct (step_view_stats _ _ _ _ Hstep) as [E | [-> _]].
    + rewrite E. split; assumption.
    + cbn [stats end_of_line]. rewrite size_classify.
      split; [assumption | apply same_file_classify; assumption].
  - cbn. repeat split; reflexivity.
  - exact Hl.
  - unfold last_line in H.
    destruct (and_then (has_code s)
                (last <- read_prev buf (List.length buf) ;;
                 Done (negb (Byte.eqb last nl)))) as [extra| |];
      cbn [bind] in H; try discriminate.
    injection H as <-. destruct extra; auto.
Qed.

(** C8.  Starting from zeroed counters the three counters never add up to
    more than the number of lines of the buffer: this holds of every run
    that ends, and with non-empty markers the run does end.  The post-pass
    changes the counters only when [has_code] is still set after the loop,
    and it is not set when the end-of-line branch has classified the last
    byte, so that no line is counted twice. *)
Theorem count_lines_never_overcounts (buf : list byte) (lang : lang_syntax)
    (st : file_stats) :
  total st = 0%N ->
  (forall fuel r,
     count_lines_fuel buf lang fuel st = Done r ->
     (total r <= line_count buf)%N) /\
  (markers_nonempty lang ->
   exists r, count_lines buf lang st = Done r /\
             (total r <= line_count buf)%N) /\
  (forall s r,
     last_line buf s = Done r -> r <> stats s ->
     has_code s = true /\ r = incr_code (stats s)) /\
  (forall s,
     p s + 1 = List.length buf ->
     step buf lang s = Done (end_of_line s) /\
     last_line buf (end_of_line s) = Done (stats (end_of_line s))).
Proof.
  intros Hz.
  assert (forall fuel r,
            count_lines_fuel buf lang fuel st = Done r ->
            (total r <= line_count buf)%N) as Hbound.
  { intros fuel r H. apply count_lines_fuel_bound in H. lia. }
  split; [exact Hbound|]. split; [|split].
  - intros Hne.
    destruct (count_lines_runs buf lang st Hne) as (s & r & _ & _ & _ & _ & Hr).
    exists r. split; [exact Hr|]. apply (Hbound _ _ Hr).
  - intros s r H Hne. unfold last_line, and_then in H.
    destruct (has_code s); cbn [bind] in H.
    + destruct (read_prev buf (List.length buf)) as [c| |]; cbn [bind] in H;
        try discriminate.
      destruct (negb (Byte.eqb c nl)); injection H as <-;
        [split; reflexivity | contradiction].
    + injection H as <-. contradiction.
  - intros s Hp. split; [apply step_at_last_byte; exact Hp | reflexivity].
Qed.

(** C8 on the sample of C2. *)
Lemma count_lines_never_overcounts_witness :
  total init_file_stats = 0%N /\
  line_count sample_block_comment = 3%N /\
  exists r, count_lines sample_block_comment lang_C init_file_stats = Done r /\
            (total r <= line_count sample_block_comment)%N.
Proof.
  split; [reflexivity|]. split; [reflexivity|].
  destruct (count_lines_never_overcounts sample_block_comment lang_C
              init_file_stats eq_refl) as (_ & H & _).
  apply H. unfold markers_nonempty. cbn. lia.
Defined.

(** ** The directory walk *)

Section WalkFacts.

Variable G : Type.
Variable callback : option (file_stats -> G -> Z * G).
Variable walk : string -> node -> G -> outcome (Z * G).
Variable path : string.

(** A regular file whose [process_file] fails is passed over: the loop
    goes on with the next entry, with [result] and the state as they were. *)
Lemma readdir_loop_failed_file (d_name : string) (f : file)
    (rest : list (string * option node)) (g : G) (code : Z) (st : file_stats) :
  process_file (full_path path d_name) f = Done (code, st) ->
  code <> CLOC_SUCCESS ->
  readdir_loop callback walk path ((d_name, Some (Regular f)) :: rest) g =
  readdir_loop callback walk path rest g.
Proof.
  intros H Hne. cbn [readdir_loop].
  destruct (hidden d_name); [reflexivity|].
  destruct (too_long path d_name); [reflexivity|].
  rewrite H. cbn [bind fst].
  destruct (code =? CLOC_SUCCESS)%Z eqn:E; [|reflexivity].
  apply Z.eqb_eq in E. contradiction.
Qed.

Lemma readdir_loop_failed_lstat (d_name : string)
    (rest : list (string * option node)) (g : G) :
  readdir_loop callback walk path ((d_name, None) :: rest) g =
  readdir_loop callback walk path rest g.
Proof.
  cbn [readdir_loop].
  destruct (hidden d_name); [reflexivity|].
  destruct (too_long path d_name); reflexivity.
Qed.

(** Entries read earlier do not change how the loop takes later ones. *)
Lemma readdir_loop_app (pre l1 l2 : list (string * option node)) :
  (forall g, readdir_loop callback walk path l1 g =
             readdir_loop callback walk path l2 g) ->
  forall g, readdir_loop callback walk path (pre ++ l1) g =
            readdir_loop callback walk path (pre ++ l2) g.
Proof.
  intros H. induction pre as [|[d_name st] pre IH]; intros g; [apply H|].
  cbn [app readdir_loop].
  destruct (hidden d_name); [apply IH|].
  destruct (too_long path d_name); [apply IH|].
  destruct st as [[f | opens sub | f]|]; try apply IH.
  - destruct (process_file (full_path path d_name) f) as [r| |];
      cbn [bind]; try reflexivity.
    destruct (fst r =? CLOC_SUCCESS)%Z; [|apply IH].
    destruct callback as [cb|]; [|apply IH].
    destruct (cb (snd r) g) as [code g'].
    destruct (code =? 0)%Z; [apply IH | reflexivity].
  - destruct (walk (full_path path d_name) (Directory opens sub) g) as [r| |];
      cbn [bind]; try reflexivity.
    destruct (fst r =? CLOC_SUCCESS)%Z; [apply IH | reflexivity].
Qed.

End WalkFacts.

Lemma main_loop_app (before after : list (string * option node))
    (x y : string * option node) :
  (forall acc, main_arg x acc = main_arg y acc) ->
  forall acc, main_loop (before ++ x :: after) acc =
              main_loop (before ++ y :: after) acc.
Proof.
  intros H. induction before as [|a before IH]; intros acc; cbn [app main_loop].
  - rewrite H. reflexivity.
  - destruct (main_arg a acc) as [acc'| |]; cbn [bind]; auto.
Qed.

(** [exit_code] is only ever set to 1. *)
Lemma main_arg_exit (arg : string * option node) (e e' : Z)
    (g g' : list lang_stats.t) :
  main_arg arg (e, g) = Done (e', g') -> e' = e \/ e' = 1%Z.
Proof.
  unfold main_arg. destruct (snd arg) as [[f | opens sub | f]|].
  - destruct (process_file (fst arg) f) as [r| |]; cbn [bind]; try discriminate.
    destruct (fst r =? CLOC_SUCCESS)%Z; intros H; injection H as <- _; auto.
  - destruct (process_directory (Some update_stats_callback) (fst arg)
                (Directory opens sub) g) as [r| |]; cbn [bind]; try discriminate.
    destruct (fst r =? CLOC_SUCCESS)%Z; intros H; injection H as <- _; auto.
  - destruct (process_file (fst arg) f) as [r| |]; cbn [bind]; try discriminate.
    destruct (fst r =? CLOC_SUCCESS)%Z; intros H; injection H as <- _; auto.
  - intros H; injection H as <- _; auto.
Qed.

Lemma main_loop_sticky (args : list (string * option node)) (e : Z)
    (g g' : list lang_stats.t) :
  main_loop args (1%Z, g) = Done (e, g') -> e = 1%Z.
Proof.
  revert g. induction args as [|a args IH]; intros g; cbn [main_loop].
  - intros H. injection H as <- _. reflexivity.
  - destruct (main_arg a (1%Z, g)) as [[e1 g1]| |] eqn:Ha; cbn [bind];
      try discriminate.
    apply main_arg_exit in Ha. assert (e1 = 1%Z) as -> by tauto.
    apply IH.
Qed.

(** The three failures of an argument that [main] reports itself. *)
Lemma main_arg_failure (arg : string * option node) (e e' : Z)
    (g g' : list lang_stats.t) :
  arg_fails arg ->
  main_arg arg (e, g) = Done (e', g') -> e' = 1%Z.
Proof.
  unfold main_arg.
  intros [Hn | [(f & code & st & Hk & Hp & Hne) | (opens & sub & Hk & Hd)]].
  - rewrite Hn. intros H. injection H as <- _. reflexivity.
  - assert ((code =? CLOC_SUCCESS)%Z = false) as E by (apply Z.eqb_neq; exact Hne).
    destruct Hk as [-> | ->]; rewrite Hp; cbn [bind fst]; rewrite E;
      intros H; injection H as <- _; reflexivity.
  - rewrite Hk. destruct (Hd g) as (code & g1 & Hp & Hne).
    assert ((code =? CLOC_SUCCESS)%Z = false) as E by (apply Z.eqb_neq; exact Hne).
    rewrite Hp. cbn [bind fst]. rewrite E.
    intros H; injection H as <- _; reflexivity.
Qed.

Lemma main_loop_failure (args : list (string * option node))
    (arg : string * option node) (e e' : Z) (g g' : list lang_stats.t) :
  In arg args ->
  arg_fails arg ->
  main_loop args (e, g) = Done (e', g') -> e' = 1%Z.
Proof.
  intros Hin Hfail. revert e g.
  induction args as [|a args IH]; intros e g; [destruct Hin|].
  cbn [main_loop].
  destruct (main_arg a (e, g)) as [[e1 g1]| |] eqn:Ha; cbn [bind];
    try discriminate.
  destruct Hin as [-> | Hin].
  - apply (main_arg_failure _ _ _ _ _ Hfail) in Ha. subst e1.
    apply main_loop_sticky.
  - apply (IH Hin).
Qed.

Lemma detect_language_in_table (path : string) (f : file) (lang : lang_syntax) :
  detect_language path f = Some lang -> In lang languages.
Proof.
  unfold detect_language.
  destruct (strrchr path "."%char) as [ext|]; [|discriminate].
  destruct (find (fun lang => existsb (String.eqb ext) (extensions lang))
              languages) as [l|] eqn:Hf; [|discriminate].
  apply find_some in Hf. destruct Hf as [Hin _].
  destruct (String.eqb ext ".h").
  - destruct (negb (f_fopen f)).
    + intros H. injection H as <-. cbn. auto.
    + destruct (is_cpp_file (f_malloc f) (firstn MAX_EXAMINE_SIZE (f_data f)));
        intros H; injection H as <-; cbn; auto.
  - intros H. injection H as <-. exact Hin.
Qed.

(** [process_file] returns on every file: the descriptors of the table
    have no empty marker. *)
Lemma process_file_returns (path : string) (f : file) :
  exists code st, process_file path f = Done (code, st).
Proof.
  unfold process_file.
  destruct (detect_language path f) as [lang|] eqn:Hl; [|eauto].
  destruct (negb (f_open f)); [eauto|].
  destruct (negb (f_fstat f)); [eauto|].
  destruct (List.length (f_data f) =? 0); [eauto|].
  destruct (negb (f_mmap f)); [eauto|].
  apply detect_language_in_table, languages_nonempty in Hl.
  destruct (count_lines_runs (f_data f) lang
              (set_language (id lang)
                 (set_path (substring 0 (CLOC_MAX_PATH - 1) path) init_file_stats))
              Hl) as (s & r & _ & _ & _ & _ & Hr).
  rewrite Hr. cbn [bind]. eauto.
Qed.

(** The ways [process_file] fails on a file. *)
Lemma process_file_failures (path : string) (f : file) :
  detect_language path f = None \/ f_open f = false \/ f_fstat f = false \/
  (f_mmap f = false /\ f_data f <> []) ->
  exists code st, process_file path f = Done (code, st) /\ code <> CLOC_SUCCESS.
Proof.
  unfold process_file. intros H.
  destruct (detect_language path f) as [lang|].
  2:{ eexists _, _. split; [reflexivity | discriminate]. }
  destruct (f_open f); cbn [negb].
  2:{ eexists _, _. split; [reflexivity | discriminate]. }
  destruct (f_fstat f); cbn [negb].
  2:{ eexists _, _. split; [reflexivity | discriminate]. }
  destruct H as [H | [H | [H | [Hm Hd]]]]; try discriminate.
  destruct (f_data f) as [|c data]; [contradiction|].
  cbn [List.length Nat.eqb]. rewrite Hm. cbn [negb].
  eexists _, _. split; [reflexivity | discriminate].
Qed.

(** A subdirectory whose walk is the same gives the same loop. *)
Lemma readdir_loop_same_child (G : Type)
    (callback : option (file_stats -> G -> Z * G))
    (walk : string -> node -> G -> outcome (Z * G)) (path d_name : string)
    (opens opens' : bool) (sub sub' rest : list (string * option node)) (g : G) :
  (forall g, walk (full_path path d_name) (Directory opens sub) g =
             walk (full_path path d_name) (Directory opens' sub') g) ->
  readdir_loop callback walk path
    ((d_name, Some (Directory opens sub)) :: rest) g =
  readdir_loop callback walk path
    ((d_name, Some (Directory opens' sub')) :: rest) g.
Proof.
  intros H. cbn [readdir_loop].
  destruct (hidden d_name); [reflexivity|].
  destruct (too_long path d_name); [reflexivity|].
  rewrite H. reflexivity.
Qed.

Lemma without_failed_dirs (path : string) (n n' : node) :
  without_failed path n n' ->
  exists opens sub opens' sub',
    n = Directory opens sub /\ n' = Directory opens' sub'.
Proof. intros H. destruct H; eauto 8. Qed.

(** The walk of a tree does not see the entries that fail, at any
    depth. *)
Lemma process_directory_without_failed (path : string) (n n' : node) :
  without_failed path n n' ->
  forall (G : Type) (callback : option (file_stats -> G -> Z * G)) (g : G),
    process_directory callback path n g = process_directory callback path n' g.
Proof.
  intros H.
  induction H as [path d_name f opens pre post code st Hpf Hne
                 | path d_name opens pre post
                 | path d_name opens pre post child child' Hsub IH];
    intros G callback g; destruct opens; try reflexivity;
    cbn [process_directory]; apply readdir_loop_app; intros g'.
  - apply (readdir_loop_failed_file G callback _ path d_name f post g' code st
             Hpf Hne).
  - apply readdir_loop_failed_lstat.
  - destruct (without_failed_dirs _ _ _ Hsub) as (o & e & o' & e' & -> & ->).
    apply readdir_loop_same_child. intros g''. apply IH.
Qed.

Lemma main_without_failed (path : string) (n n' : node) (calloc_ok : bool)
    (before after : list (string * option node)) :
  without_failed path n n' ->
  main calloc_ok (before ++ (path, Some n) :: after) =
  main calloc_ok (before ++ (path, Some n') :: after).
Proof.
  intros H.
  assert (forall acc, main_arg (path, Some n) acc = main_arg (path, Some n') acc)
    as Harg.
  { intros [e g].
    destruct (without_failed_dirs _ _ _ H) as (o & s & o' & s' & -> & ->).
    unfold main_arg. cbn [snd fst].
    rewrite (process_directory_without_failed _ _ _ H). reflexivity. }
  unfold main.
  destruct before as [|b before]; cbn [app];
    (destruct calloc_ok; [|reflexivity]).
  - apply (main_loop_app [] after). exact Harg.
  - apply (main_loop_app (b :: before) after). exact Harg.
Qed.

(** C3, as amended.  [process_file] returns on every file.  A file of a
    scanned directory on which it fails (no language for its name, [open],
    [fstat] or [mmap] failing), and an entry on which [lstat] fails, are
    passed over:
    [process_directory] reads the remaining entries and returns exactly
    what it returns on the directory without that entry, state of the
    callback included, so that the exit status of [main] is the one of
    the scan without it.  This holds at any depth: the walk of a tree,
    and [main] on it, return what they return on the tree without the
    failing entry, wherever below the scanned directory it lies, so that
    no directory above it is left early.  The exit status is 1 for the
    failures met on
    the arguments themselves: [stat] failing, [process_file] failing on
    an argument that is no directory, or [process_directory] returning
    an error for an argument that is one. *)
Theorem failed_file_in_directory_is_skipped :
  (forall path f, exists code st, process_file path f = Done (code, st)) /\
  (forall path f,
     detect_language path f = None \/ f_open f = false \/ f_fstat f = false \/
     (f_mmap f = false /\ f_data f <> []) ->
     exists code st,
       process_file path f = Done (code, st) /\ code <> CLOC_SUCCESS) /\
  (forall (G : Type) (callback : option (file_stats -> G -> Z * G))
          path d_name f pre post code st,
     process_file (full_path path d_name) f = Done (code, st) ->
     code <> CLOC_SUCCESS ->
     (forall walk g,
        readdir_loop callback walk path
          (pre ++ (d_name, Some (Regular f)) :: post) g =
        readdir_loop callback walk path (pre ++ post) g) /\
     (forall g,
        process_directory callback path
          (Directory true (pre ++ (d_name, Some (Regular f)) :: post)) g =
        process_directory callback path (Directory true (pre ++ post)) g)) /\
  (forall (G : Type) (callback : option (file_stats -> G -> Z * G))
          path d_name pre post g,
     process_directory callback path
       (Directory true (pre ++ (d_name, None) :: post)) g =
     process_directory callback path (Directory true (pre ++ post)) g) /\
  (forall path d_name f pre post code st calloc_ok before after,
     process_file (full_path path d_name) f = Done (code, st) ->
     code <> CLOC_SUCCESS ->
     main calloc_ok
       (before ++
        (path, Some (Directory true (pre ++ (d_name, Some (Regular f)) :: post)))
        :: after) =
     main calloc_ok
       (before ++ (path, Some (Directory true (pre ++ post))) :: after)) /\
  (forall (G : Type) (callback : option (file_stats -> G -> Z * G))
          path n n' g,
     without_failed path n n' ->
     process_directory callback path n g =
     process_directory callback path n' g) /\
  (forall path n n' calloc_ok before after,
     without_failed path n n' ->
     main calloc_ok (before ++ (path, Some n) :: after) =
     main calloc_ok (before ++ (path, Some n') :: after)) /\
  (forall args arg exit_code g,
     In arg args -> arg_fails arg ->
     main true args = Done (exit_code, g) -> exit_code = 1%Z).
Proof.
  assert (forall (G : Type) (callback : option (file_stats -> G -> Z * G))
            path d_name f pre post code st,
            process_file (full_path path d_name) f = Done (code, st) ->
            code <> CLOC_SUCCESS ->
            forall walk g,
              readdir_loop callback walk path
                (pre ++ (d_name, Some (Regular f)) :: post) g =
              readdir_loop callback walk path (pre ++ post) g) as Hskip.
  { intros G callback path d_name f pre post code st H Hne walk.
    apply readdir_loop_app. intros g.
    apply (readdir_loop_failed_file G callback walk path d_name f post g code st
             H Hne). }
  split; [exact process_file_returns|].
  split; [exact process_file_failures|].
  split; [|split; [|split; [|split; [|split]]]].
  - intros G callback path d_name f pre post code st H Hne. split.
    + apply (Hskip G callback path d_name f pre post code st H Hne).
    + intros g. cbn [process_directory].
      apply (Hskip G callback path d_name f pre post code st H Hne).
  - intros G callback path d_name pre post g. cbn [process_directory].
    apply readdir_loop_app. intros g'. apply readdir_loop_failed_lstat.
  - intros path d_name f pre post code st calloc_ok before after H Hne.
    unfold main.
    destruct before as [|b before]; cbn [app];
      (destruct calloc_ok; [|reflexivity]).
    + apply (main_loop_app [] after). intros [e g]. unfold main_arg.
      cbn [snd fst process_directory].
      rewrite (Hskip _ _ path d_name f pre post code st H Hne). reflexivity.
    + apply (main_loop_app (b :: before) after). intros [e g]. unfold main_arg.
      cbn [snd fst process_directory].
      rewrite (Hskip _ _ path d_name f pre post code st H Hne). reflexivity.
  - intros G callback path n n' g H.
    apply (process_directory_without_failed path n n' H).
  - intros path n n' calloc_ok before after H.
    apply main_without_failed. exact H.
  - intros args arg exit_code g Hin Hfail. unfold main.
    destruct args as [|a args]; [destruct Hin|].
    apply (main_loop_failure (a :: args) arg 0%Z exit_code [] g Hin Hfail).
Qed.

(** The amended C3 on the sample directory: without the two files that
    fail, the scan gives the same exit status and the same totals; and on
    a tree whose failing file lies in a subdirectory: the file after it
    is counted and the exit status is 0. *)
Lemma failed_file_in_directory_is_skipped_witness :
  main true [("proj"%string, Some sample_dir)] =
  main true
    [("proj"%string,
      Some (Directory true
              [("main.c"%string, Some (Regular (readable sample_source)))]))] /\
  main true [("proj"%string, Some sample_nested)] =
  main true
    [("proj"%string,
      Some (Directory true
              [("src"%string,
                Some (Directory true
                        [("main.c"%string,
                          Some (Regular (readable sample_source)))]))]))] /\
  main true [("proj"%string, Some sample_nested)] =
    Done (0%Z,
          [{| lang_stats.name := Some "C++"%string; lang_stats.files := 1;
              lang_stats.lines_code := 1; lang_stats.lines_comment := 0;
              lang_stats.lines_blank := 0; lang_stats.bytes := 7 |}]).
Proof.
  destruct failed_file_in_directory_is_skipped
    as (_ & _ & _ & _ & H & _ & Hdeep & _).
  assert (CLOC_ERROR_ARG <> CLOC_SUCCESS) as Harg by discriminate.
  assert (CLOC_ERROR_IO <> CLOC_SUCCESS) as Hio by discriminate.
  split; [|split].
  - pose proof (H "proj"%string "notes.txt"%string
                  (readable (bytes "hello" ++ [nl])) []
                  [("locked.c"%string, Some (Regular (unreadable sample_source)));
                   ("main.c"%string, Some (Regular (readable sample_source)))]
                  CLOC_ERROR_ARG _ true [] [] eq_refl Harg) as E1.
    pose proof (H "proj"%string "locked.c"%string (unreadable sample_source) []
                  [("main.c"%string, Some (Regular (readable sample_source)))]
                  CLOC_ERROR_IO _ true [] [] eq_refl Hio) as E2.
    cbn [app] in E1, E2. unfold sample_dir. rewrite E1. exact E2.
  - apply (Hdeep "proj"%string sample_nested _ true [] []).
    apply (WF_deeper "proj" "src" true [] []).
    apply (WF_file (full_path "proj" "src") "locked.c"
             (unreadable sample_source) true []
             [("main.c"%string, Some (Regular (readable sample_source)))]
             CLOC_ERROR_IO _ eq_refl Hio).
  - vm_compute. reflexivity.
Defined.

(** C3 as stated fails on the sample directory: [process_file] fails on
    two of its files, one for its language and one on [open], the third
    file is counted, and [main] exits with status 0. *)
Lemma failed_files_in_directory_exit_zero :
  (exists st, process_file "proj/notes.txt" (readable (bytes "hello" ++ [nl])) =
              Done (CLOC_ERROR_ARG, st)) /\
  (exists st, process_file "proj/locked.c" (unreadable sample_source) =
              Done (CLOC_ERROR_IO, st)) /\
  main true [("proj"%string, Some sample_dir)] =
    Done (0%Z,
          [{| lang_stats.name := Some "C++"%string; lang_stats.files := 1;
              lang_stats.lines_code := 1; lang_stats.lines_comment := 0;
              lang_stats.lines_blank := 0; lang_stats.bytes := 7 |}]).
Proof.
  split; [eexists; vm_compute; reflexivity|].
  split; [eexists; vm_compute; reflexivity|].
  vm_compute. reflexivity.
Qed.

(** ** Buffers that end with a newline are counted exactly *)

Lemma firstn_add_skipn (l : list byte) (i n : nat) :
  firstn (i + n) l = firstn i l ++ firstn n (skipn i l).
Proof.
  rewrite <- (firstn_skipn i (firstn (i + n) l)) at 1.
  rewrite firstn_firstn, firstn_skipn_comm.
  replace (Nat.min i (i + n)) with i by lia. reflexivity.
Qed.

Lemma newlines_none (m : list byte) : ~ In nl m -> newlines m = 0%N.
Proof.
  unfold newlines. induction m as [|c m IH]; intros H; [reflexivity|].
  cbn [filter]. destruct (Byte.eqb nl c) eqn:E.
  - apply byte_eqb_eq in E. subst c. exfalso. apply H. left. reflexivity.
  - apply IH. intros Hin. apply H. right. exact Hin.
Qed.

Lemma newlines_firstn_marker (buf m : list byte) (i : nat) :
  stands_at buf i m -> ~ In nl m ->
  newlines (firstn (i + List.length m) buf) = newlines (firstn i buf).
Proof.
  intros [_ Hm] Hnl.
  rewrite firstn_add_skipn, Hm, newlines_app, (newlines_none m Hnl). lia.
Qed.

Lemma newlines_firstn_other (buf : list byte) (i : nat) (c : byte) :
  nth_error buf i = Some c -> c <> nl ->
  newlines (firstn (i + 1) buf) = newlines (firstn i buf).
Proof.
  intros Hn Hc. replace (i + 1) with (S i) by lia.
  rewrite (newlines_firstn_succ buf i c Hn).
  apply byte_eqb_neq in Hc. rewrite Hc. lia.
Qed.

Lemma total_classify_line_exact (s : scan) :
  (total (stats s) + 1 < 2 ^ 32)%N ->
  total (classify_line s) = (total (stats s) + 1)%N.
Proof.
  unfold classify_line, total. intros H.
  destruct (in_line_comment s), (in_block_comment s), (has_code s); cbn;
    rewrite incr32_small; lia.
Qed.

Section ExactCount.

Variable buf : list byte.
Variable lang : lang_syntax.
Hypothesis one_line : markers_one_line lang.
Hypothesis whole_lines : partial_line buf = 0%N.
Hypothesis small : (newlines buf < 2 ^ 32)%N.

Lemma newlines_firstn_le_all (i : nat) :
  (newlines (firstn i buf) <= newlines buf)%N.
Proof.
  rewrite <- (firstn_skipn i buf) at 2. rewrite newlines_app. lia.
Qed.

(** Every byte the cursor passes without counting a line is no newline,
    and every newline is counted once. *)
Lemma exact_step (base : N) (s s' : scan) :
  base = 0%N ->
  total (stats s) = (base + newlines (firstn (p s) buf))%N ->
  step_view buf lang s s' ->
  total (stats s') = (base + newlines (firstn (p s') buf))%N.
Proof.
  intros -> Hc H. destruct one_line as (Hl & Hs & He).
  inversion H; subst; cbn [stats p end_of_line advance].
  - (* end of line *)
    assert (c = nl) as ->.
    { match goal with Hor : _ \/ _ |- _ => destruct Hor as [E|E] end;
        [exact E|].
      destruct (Byte.byte_eq_dec c nl) as [Ec|Ec]; [exact Ec|].
      assert (read_prev buf (List.length buf) = Done c) as Hlast.
      { pose proof (step_view_in_range _ _ _ _ H).
        replace (List.length buf) with (S (p s)) by lia.
        cbn [read_prev]. apply read_Done. assumption. }
      apply partial_line_last in Hlast. apply byte_eqb_neq in Ec.
      rewrite Ec, whole_lines in Hlast. discriminate. }
    replace (p s + 1) with (S (p s)) by lia.
    match goal with Hn : nth_error _ _ = Some nl |- _ =>
      pose proof (newlines_firstn_succ buf (p s) nl Hn) as E end.
    replace (Byte.eqb nl nl) with true in E by reflexivity.
    pose proof (newlines_firstn_le_all (S (p s))).
    rewrite total_classify_line_exact; lia.
  - (* white space *)
    rewrite (newlines_firstn_other buf (p s) c); assumption.
  - (* inside a string *)
    match goal with Hv : string_view _ _ _ _ |- _ =>
      rewrite (string_view_stats _ _ _ _ Hv), (string_view_p _ _ _ _ Hv) end.
    rewrite (newlines_firstn_other buf (p s) c); assumption.
  - (* comment rules and code *)
    match goal with Hv : string_view _ _ _ _, Hm : marker_view _ _ _ _ |- _ =>
      pose proof (string_view_stats _ _ _ _ Hv) as Est;
      pose proof (string_view_p _ _ _ _ Hv) as Ep;
      inversion Hm; subst; cbn [stats p advance set_block set_line set_code];
        rewrite Est, Ep
    end.
    + rewrite newlines_firstn_marker; [assumption | congruence | assumption].
    + rewrite newlines_firstn_marker; [assumption | congruence | assumption].
    + rewrite newlines_firstn_marker; [assumption | congruence | assumption].
    + rewrite (newlines_firstn_other buf (p s) c); assumption.
    + rewrite (newlines_firstn_other buf (p s) c); assumption.
Qed.

Lemma count_lines_fuel_exact (fuel : nat) (st r : file_stats) :
  total st = 0%N ->
  count_lines_fuel buf lang fuel st = Done r ->
  total r = line_count buf.
Proof.
  unfold count_lines_fuel. intros Hz H.
  destruct (scan_loop buf lang fuel (scan_init buf st)) as [s| |] eqn:Hl;
    cbn [bind] in H; try discriminate.
  destruct (scan_loop_invariant buf lang
              (fun s => p s <= List.length buf /\
                        total (stats s) = (0 + newlines (firstn (p s) buf))%N))
    with (fuel := fuel) (s := scan_init buf st) (s' := s) as [[Hb Hc] Hp].
  - intros s1 s2 [H1 H2] _ Hstep. apply step_sound in Hstep. split.
    + apply (step_view_bound _ _ _ _ Hstep).
    + apply (exact_step 0 s1 s2 eq_refl H2 Hstep).
  - cbn. split; [lia|]. unfold total in *. cbn. exact Hz.
  - exact Hl.
  - rewrite firstn_all2 in Hc by lia.
    unfold line_count. rewrite whole_lines.
    unfold last_line, and_then in H.
    destruct (has_code s); cbn [bind] in H.
    + destruct (read_prev buf (List.length buf)) as [c| |] eqn:Hlast;
        cbn [bind] in H; try discriminate.
      apply partial_line_last in Hlast. rewrite whole_lines in Hlast.
      destruct (Byte.eqb c nl); [|discriminate].
      cbn [negb] in H. injection H as <-. lia.
    + injection H as <-. lia.
Qed.

End ExactCount.

(** X1.  Whole lines are counted exactly once.  For a descriptor whose
    markers are non-empty and hold no newline, on a buffer that is empty
    or ends with a newline and has fewer than 2^32 lines, [count_lines]
    from zeroed counters returns counters that add up to the number of
    lines. *)
Theorem whole_lines_are_counted_once (buf : list byte) (lang : lang_syntax)
    (st : file_stats) :
  markers_nonempty lang -> markers_one_line lang ->
  partial_line buf = 0%N -> (newlines buf < 2 ^ 32)%N -> total st = 0%N ->
  exists r, count_lines buf lang st = Done r /\ total r = line_count buf.
Proof.
  intros Hne Hone Hwhole Hsmall Hz.
  destruct (count_lines_runs buf lang st Hne) as (s & r & _ & _ & _ & _ & Hr).
  exists r. split; [exact Hr|].
  apply (count_lines_fuel_exact buf lang Hone Hwhole Hsmall
           (List.length buf) st r Hz Hr).
Qed.

Lemma whole_lines_are_counted_once_witness :
  line_count sample_block_comment = 3%N /\
  exists r, count_lines sample_block_comment lang_C init_file_stats = Done r /\
            total r = line_count sample_block_comment.
Proof.
  split; [reflexivity|].
  apply whole_lines_are_counted_once.
  - unfold markers_nonempty. cbn. lia.
  - unfold markers_one_line. cbn.
    repeat split; intros [H|[H|[]]]; discriminate.
  - reflexivity.
  - vm_compute. reflexivity.
  - reflexivity.
Defined.

(** The scenario of the specification: a code line, an empty line and a
    line comment; the empty buffer; a line of white space only. *)
Theorem scenario_counts :
  count_lines (bytes "int x = 1;" ++ [nl; nl] ++ bytes "// comment" ++ [nl])
    lang_C init_file_stats =
    Done {| path := ""; size := 23; lines_code := 1; lines_comment := 1;
            lines_blank := 1; language := 0; error := 0 |} /\
  (forall lang, count_lines [] lang init_file_stats = Done init_file_stats) /\
  count_lines [x20; x09; x20; nl] lang_C init_file_stats =
    Done {| path := ""; size := 4; lines_code := 0; lines_comment := 0;
            lines_blank := 1; language := 0; error := 0 |}.
Proof.
  split; [vm_compute; reflexivity|].
  split; [intros lang; reflexivity|].
  vm_compute. reflexivity.
Qed.

(** X4.  The states the loop reaches are those of a four-way machine: the
    string state, the line comment state and the block comment state
    exclude one another. *)
Theorem scan_states_exclusive (buf : list byte) (lang : lang_syntax)
    (st : file_stats) (n : nat) (s : scan) :
  iterate buf lang n (scan_init buf st) = Done s ->
  (in_string s = true ->
   in_line_comment s = false /\ in_block_comment s = false) /\
  (in_line_comment s = true -> in_block_comment s = false).
Proof.
  intros Hit.
  assert (scan_inv buf s) as Hinv.
  { apply (iterate_invariant buf lang (scan_inv buf) (step_inv buf lang)
             n (scan_init buf st) s); [apply scan_init_inv | exact Hit]. }
  apply Hinv.
Qed.

Lemma scan_states_exclusive_witness :
  exists s,
    iterate sample_block_comment lang_C 3
      (scan_init sample_block_comment init_file_stats) = Done s /\
    in_block_comment s = true /\
    (in_string s = true ->
     in_line_comment s = false /\ in_block_comment s = false) /\
    (in_line_comment s = true -> in_block_comment s = false).
Proof.
  eexists. split; [reflexivity|]. split; [reflexivity|].
  apply (scan_states_exclusive sample_block_comment lang_C init_file_stats 3).
  reflexivity.
Defined.

(** X20.  The row of a file in the totals is looked up at [languages[id]],
    where the identifiers count from 1 and the rows from 0: a file of C
    is added to the row named after the next language, and a file of the
    last language to a row with the NULL name of the sentinel. *)
Theorem totals_row_is_one_off :
  language_name CLOC_LANG_C = Some "C++"%string /\
  language_name CLOC_LANG_JS = None /\
  (forall lang, In lang languages ->
     language_name (id lang) <> name lang) /\
  option_map snd (result (main true
     [("main.c"%string, Some (Regular (readable sample_source)))])) =
    Some [{| lang_stats.name := Some "C++"%string; lang_stats.files := 1;
             lang_stats.lines_code := 1; lang_stats.lines_comment := 0;
             lang_stats.lines_blank := 0; lang_stats.bytes := 7 |}].
Proof.
  split; [reflexivity|]. split; [reflexivity|]. split; [|vm_compute; reflexivity].
  unfold languages. cbn [In].
  intros lang [<-|[<-|[<-|[<-|[<-|[<-|[<-|[]]]]]]]]; vm_compute; discriminate.
Qed.

(** ** Every newline is counted *)

Section LineBounds.

Variable buf : list byte.
Variable lang : lang_syntax.
Hypothesis one_line : markers_one_line lang.

(** An iteration either runs the end-of-line branch or passes bytes
    that are no newline and leaves the counters alone. *)
Lemma step_view_passes (s s' : scan) :
  step_view buf lang s s' ->
  (s' = end_of_line s /\
   exists c, nth_error buf (p s) = Some c /\
             (c = nl \/ p s = List.length buf - 1)) \/
  (stats s' = stats s /\
   newlines (firstn (p s') buf) = newlines (firstn (p s) buf)).
Proof.
  intros H. destruct one_line as (Hl & Hs & He).
  inversion H; subst.
  - left. eauto.
  - right. split; [reflexivity|]. cbn [p advance].
    apply (newlines_firstn_other buf (p s) c); assumption.
  - right.
    match goal with Hv : string_view _ _ _ _ |- _ =>
      pose proof (string_view_stats _ _ _ _ Hv) as Est;
      pose proof (string_view_p _ _ _ _ Hv) as Ep end.
    cbn [p stats advance]. rewrite Est, Ep. split; [reflexivity|].
    apply (newlines_firstn_other buf (p s) c); assumption.
  - right.
    match goal with Hv : string_view _ _ _ _, Hm : marker_view _ _ _ _ |- _ =>
      pose proof (string_view_stats _ _ _ _ Hv) as Est;
      pose proof (string_view_p _ _ _ _ Hv) as Ep;
      inversion Hm; subst; cbn [stats p advance set_block set_line set_code];
        rewrite Est, Ep; (split; [reflexivity|])
    end.
    + apply newlines_firstn_marker; [congruence | assumption].
    + apply newlines_firstn_marker; [congruence | assumption].
    + apply newlines_firstn_marker; [congruence | assumption].
    + apply (newlines_firstn_other buf (p s) c); assumption.
    + apply (newlines_firstn_other buf (p s) c); assumption.
Qed.

Hypothesis small : (line_count buf < 2 ^ 32)%N.

Lemma newlines_firstn_le_buf (i : nat) :
  (newlines (firstn i buf) <= newlines buf)%N.
Proof.
  rewrite <- (firstn_skipn i buf) at 2. rewrite newlines_app. lia.
Qed.

(** The counters, started at zero, lie between the newlines behind the
    cursor and the bound of [count_inv]. *)
Lemma bounds_step (s s' : scan) :
  (newlines (firstn (p s) buf) <= total (stats s))%N /\ count_inv buf 0 s ->
  step_view buf lang s s' ->
  (newlines (firstn (p s') buf) <= total (stats s'))%N /\ count_inv buf 0 s'.
Proof.
  intros [Hlow Hup] H. split; [|eapply count_inv_step; eauto].
  pose proof (step_view_in_range _ _ _ _ H) as Hp.
  unfold count_inv in Hup.
  assert ((List.length buf <=? p s) = false) as E by (apply Nat.leb_gt; lia).
  rewrite E in Hup. cbn [andb] in Hup.
  destruct (step_view_passes s s' H) as [[-> (c & Hn & Heol)] | [Hst Hnl]].
  - cbn [p stats end_of_line].
    replace (p s + 1) with (S (p s)) by lia.
    pose proof (newlines_firstn_succ buf (p s) c Hn) as Hsucc.
    pose proof (newlines_firstn_le_buf (S (p s))) as Hle.
    unfold line_count in small.
    assert (total (stats s) + 1 < 2 ^ 32)%N as Hsmall.
    { destruct (Byte.eqb c nl) eqn:Ec; [lia|].
      apply byte_eqb_neq in Ec. destruct Heol as [Heol|Heol]; [contradiction|].
      assert (read_prev buf (List.length buf) = Done c) as Hlast.
      { replace (List.length buf) with (S (p s)) by lia.
        cbn [read_prev]. apply read_Done. exact Hn. }
      apply partial_line_last in Hlast. apply byte_eqb_neq in Ec.
      rewrite Ec in Hlast. lia. }
    rewrite (total_classify_line_exact s Hsmall).
    destruct (Byte.eqb c nl); lia.
  - rewrite Hst, Hnl. exact Hlow.
Qed.

Lemma count_lines_fuel_bounds (fuel : nat) (st r : file_stats) :
  total st = 0%N ->
  count_lines_fuel buf lang fuel st = Done r ->
  (newlines buf <= total r <= line_count buf)%N.
Proof.
  intros Hz H.
  split; [|apply count_lines_fuel_bound in H; lia].
  unfold count_lines_fuel in H.
  destruct (scan_loop buf lang fuel (scan_init buf st)) as [s| |] eqn:Hl;
    cbn [bind] in H; try discriminate.
  destruct (scan_loop_invariant buf lang
              (fun s => p s <= List.length buf /\
                        (newlines (firstn (p s) buf) <= total (stats s))%N /\
                        count_inv buf 0 s))
    with (fuel := fuel) (s := scan_init buf st) (s' := s)
    as [(Hb & Hlow & Hup) Hp].
  - intros s1 s2 (H1 & H2) _ Hstep. apply step_sound in Hstep. split.
    + apply (step_view_bound _ _ _ _ Hstep).
    + apply (bounds_step s1 s2 H2 Hstep).
  - split; [cbn; lia|]. split.
    + cbn. lia.
    + rewrite <- Hz. apply count_inv_init.
  - exact Hl.
  - rewrite firstn_all2 in Hlow by lia.
    unfold last_line, and_then in H.
    destruct (has_code s) eqn:Hc; cbn [bind] in H.
    + destruct (read_prev buf (List.length buf)) as [c| |] eqn:Hlast;
        cbn [bind] in H; try discriminate.
      destruct (Byte.eqb c nl) eqn:Ec; cbn [negb] in H; injection H as <-;
        [exact Hlow|].
      unfold count_inv in Hup. rewrite Hc in Hup.
      rewrite andb_false_r in Hup.
      apply partial_line_last in Hlast. rewrite Ec in Hlast.
      pose proof (newlines_firstn_le_buf (p s)).
      unfold line_count in small.
      unfold total in *. cbn [lines_code lines_comment lines_blank incr_code].
      rewrite incr32_small; lia.
    + injection H as <-. exact Hlow.
Qed.

End LineBounds.

(** C6.  For a descriptor without an empty marker [count_lines] returns
    on every buffer, whatever its bytes: there is a result (no fault, no
    endless loop).  Its [size] is the length of the buffer and the fields
    other than [size] and the counters are as before.  The result is the
    one of the run of iterations: within [length buf] iterations the
    cursor is at the end, and the result is what the post-pass makes of
    the counters there.  The counters have grown by at most the number of
    lines; for markers that hold no newline, started from zero on a
    buffer of fewer than 2^32 lines, they add up to at least the number
    of newlines: to the number of lines, or to one less when the last
    line has no newline.  And every iteration the loop makes moves the
    cursor forward, inside the buffer. *)
Theorem count_lines_always_returns (buf : list byte) (lang : lang_syntax)
    (st : file_stats) :
  markers_nonempty lang ->
  (exists r, count_lines buf lang st = Done r /\
             size r = Z.of_nat (List.length buf) /\ same_file r st /\
             (exists s,
                iterate buf lang (List.length buf) (scan_init buf st) = Done s /\
                p s = List.length buf /\ last_line buf s = Done r) /\
             (total r <= total st + line_count buf)%N /\
             (markers_one_line lang -> (line_count buf < 2 ^ 32)%N ->
              total st = 0%N ->
              (newlines buf <= total r)%N /\
              (total r = line_count buf \/
               (partial_line buf = 1%N /\
                (total r + 1)%N = line_count buf)))) /\
  (forall n s,
     iterate buf lang n (scan_init buf st) = Done s ->
     p s < List.length buf ->
     exists s', step buf lang s = Done s' /\ p s < p s' <= List.length buf).
Proof.
  intros Hne. split.
  - destruct (count_lines_runs buf lang st Hne)
      as (s & r & Hrun & _ & Hp & Hlast & Hr).
    exists r. split; [exact Hr|].
    destruct (count_lines_fuel_fields _ _ _ _ _ Hr) as [Hsize Hsame].
    split; [exact Hsize|]. split; [exact Hsame|]. split.
    { exists s. split; [|split; assumption].
      pose proof (scan_loop_iterate buf lang (List.length buf) 0
                    (scan_init buf st)) as E.
      rewrite Nat.add_0_r, Hrun in E.
      destruct (iterate buf lang (List.length buf) (scan_init buf st))
        as [s1| |]; cbn [bind scan_loop] in E; try discriminate.
      destruct (p s1 <? List.length buf); congruence. }
    split; [apply (count_lines_fuel_bound _ _ _ _ _ Hr)|].
    intros Hone Hsmall Hz.
    pose proof (count_lines_fuel_bounds buf lang Hone Hsmall
                  (List.length buf) st r Hz Hr) as Hb.
    split; [apply Hb|].
    unfold line_count in *.
    assert (partial_line buf = 0 \/ partial_line buf = 1)%N as [E|E].
    { unfold partial_line. destruct (rev buf) as [|c l]; [auto|].
      destruct (Byte.eqb c nl); auto. }
    + left. lia.
    + destruct (N.eq_dec (total r) (newlines buf + partial_line buf)) as [Et|Et];
        [left; exact Et | right; split; [exact E | lia]].
  - intros n s Hit Hp.
    assert (scan_inv buf s) as Hinv.
    { apply (iterate_invariant buf lang (scan_inv buf) (step_inv buf lang)
               n (scan_init buf st) s); [apply scan_init_inv | exact Hit]. }
    destruct (step_total buf lang s Hinv Hp) as [s' Hs'].
    exists s'. split; [exact Hs'|].
    apply step_sound in Hs'.
    pose proof (step_view_advances buf lang s s' Hne Hs').
    pose proof (step_view_bound buf lang s s' Hs'). lia.
Qed.

(** C6 on a buffer with a NUL, a byte above 127 and two newlines, for C:
    the two lines are counted. *)
Lemma count_lines_always_returns_witness :
  markers_nonempty lang_C /\
  exists r, count_lines [x00; nl; xff; x2f; nl] lang_C init_file_stats = Done r /\
            size r = 5%Z /\ total r = 2%N.
Proof.
  assert (markers_nonempty lang_C) as Hne
    by (unfold markers_nonempty; cbn; lia).
  split; [exact Hne|].
  destruct (count_lines_always_returns [x00; nl; xff; x2f; nl] lang_C
              init_file_stats Hne)
    as [(r & Hr & Hs & _ & _ & Hup & Hlow) _].
  exists r. split; [exact Hr|]. split; [exact Hs|].
  destruct Hlow as [Hlow _].
  - unfold markers_one_line. cbn.
    repeat split; intros [H|[H|[]]]; discriminate.
  - vm_compute. reflexivity.
  - reflexivity.
  - change (newlines [x00; nl; xff; x2f; nl]) with 2%N in Hlow.
    change (total init_file_stats + line_count [x00; nl; xff; x2f; nl])%N
      with 2%N in Hup.
    lia.
Defined.

(** X2.  Every newline is counted, and at most the partial last line is
    missed.  For a descriptor whose markers are non-empty and hold no
    newline, on a buffer of fewer than 2^32 lines, [count_lines] from
    zeroed counters returns counters whose sum is at least the number of
    newline bytes and at most the number of lines: the sum is the number
    of lines, or one less when the buffer does not end with a newline. *)
Theorem lines_counted_within_one (buf : list byte) (lang : lang_syntax)
    (st : file_stats) :
  markers_nonempty lang -> markers_one_line lang ->
  (line_count buf < 2 ^ 32)%N -> total st = 0%N ->
  exists r, count_lines buf lang st = Done r /\
            (newlines buf <= total r <= line_count buf)%N /\
            (total r = line_count buf \/
             (partial_line buf = 1%N /\ total r + 1 = line_count buf)%N).
Proof.
  intros Hne Hone Hsmall Hz.
  destruct (count_lines_runs buf lang st Hne) as (s & r & _ & _ & _ & _ & Hr).
  exists r. split; [exact Hr|].
  pose proof (count_lines_fuel_bounds buf lang Hone Hsmall
                (List.length buf) st r Hz Hr) as Hb.
  split; [exact Hb|].
  unfold line_count in *.
  assert (partial_line buf = 0 \/ partial_line buf = 1)%N as [E|E].
  { unfold partial_line. destruct (rev buf) as [|c l]; [auto|].
    destruct (Byte.eqb c nl); auto. }
  - left. lia.
  - destruct (N.eq_dec (total r) (newlines buf + partial_line buf)) as [Et|Et];
      [left; exact Et | right; split; [exact E | lia]].
Qed.

Lemma lines_counted_within_one_witness :
  line_count sample_marker_at_end = 1%N /\
  exists r, count_lines sample_marker_at_end lang_C init_file_stats = Done r /\
            (newlines sample_marker_at_end <= total r
             <= line_count sample_marker_at_end)%N.
Proof.
  split; [reflexivity|].
  destruct (lines_counted_within_one sample_marker_at_end lang_C init_file_stats)
    as (r & Hr & Hb & _).
  - unfold markers_nonempty. cbn. lia.
  - unfold markers_one_line. cbn.
    repeat split; intros [H|[H|[]]]; discriminate.
  - vm_compute. reflexivity.
  - reflexivity.
  - exists r. split; [exact Hr | exact Hb].
Defined.

(** ** Running to the end of a line *)

Lemma advance_advance (n m : nat) (s : scan) :
  advance m (advance n s) = advance (n + m) s.
Proof. unfold advance. cbn. f_equal. lia. Qed.

Lemma advance_0 (s : scan) : advance 0 s = s.
Proof. destruct s. unfold advance. cbn. f_equal. lia. Qed.

Lemma iterate_add (buf : list byte) (lang : lang_syntax) (n m : nat) (s : scan) :
  iterate buf lang (n + m) s =
  (s' <- iterate buf lang n s ;; iterate buf lang m s').
Proof.
  revert s. induction n as [|n IH]; intros s; [reflexivity|].
  cbn [Nat.add iterate].
  destruct (p s <? List.length buf) eqn:E.
  - destruct (step buf lang s) as [s1| |]; cbn [bind]; auto.
  - cbn [bind]. destruct m; cbn [iterate]; [reflexivity|].
    rewrite E. reflexivity.
Qed.

Section Lines.

Variable buf : list byte.
Variable lang : lang_syntax.

(** [n] iterations that each move the cursor by one byte and change
    nothing else. *)
Lemma iterate_plain (keeps : scan -> Prop) (n : nat) :
  (forall s, keeps s -> keeps (advance 1 s)) ->
  forall s,
    keeps s ->
    (forall k, k < n ->
       p s + k < List.length buf /\
       forall s1, keeps s1 -> p s1 = p s + k ->
                  step buf lang s1 = Done (advance 1 s1)) ->
    iterate buf lang n s = Done (advance n s).
Proof.
  intros Hkeep. induction n as [|n IH]; intros s Hs Hsteps.
  - cbn [iterate]. rewrite advance_0. reflexivity.
  - cbn [iterate]. destruct (Hsteps 0) as [Hp H0]; [lia|].
    replace (p s <? List.length buf) with true
      by (symmetry; apply Nat.ltb_lt; lia).
    rewrite (H0 s Hs) by lia. cbn [bind].
    rewrite (IH (advance 1 s)).
    + rewrite advance_advance. reflexivity.
    + apply Hkeep. exact Hs.
    + intros k Hk. destruct (Hsteps (S k)) as [Hp' Hk']; [lia|].
      cbn [p advance]. split; [lia|].
      intros s1 Hs1 E. apply Hk'; [exact Hs1 | lia].
Qed.

(** At a newline the end-of-line branch runs. *)
Lemma step_at_newline (s : scan) :
  nth_error buf (p s) = Some nl -> step buf lang s = Done (end_of_line s).
Proof.
  intros H. unfold step. apply read_Done in H. rewrite H. reflexivity.
Qed.

(** White space before the last byte is passed over in every state. *)
Lemma step_at_space (s : scan) (c : byte) :
  nth_error buf (p s) = Some c -> c <> nl -> isspace c = true ->
  p s + 1 < List.length buf ->
  step buf lang s = Done (advance 1 s).
Proof.
  intros Hc Hnl Hsp Hp. unfold step. apply read_Done in Hc. rewrite Hc.
  cbn [bind]. apply byte_eqb_neq in Hnl. rewrite Hnl.
  replace (p s =? List.length buf - 1) with false
    by (symmetry; apply Nat.eqb_neq; lia).
  cbn [orb]. rewrite Hsp. reflexivity.
Qed.

(** In a line comment every byte before the newline is passed over. *)
Lemma step_in_line_comment (s : scan) (c : byte) :
  in_line_comment s = true -> in_block_comment s = false ->
  in_string s = false ->
  nth_error buf (p s) = Some c -> c <> nl -> p s + 1 < List.length buf ->
  step buf lang s = Done (advance 1 s).
Proof.
  intros Hl Hb Hs Hc Hnl Hp.
  destruct (isspace c) eqn:Hsp; [apply (step_at_space s c); assumption|].
  unfold step. apply read_Done in Hc. rewrite Hc. cbn [bind].
  apply byte_eqb_neq in Hnl. rewrite Hnl.
  replace (p s =? List.length buf - 1) with false
    by (symmetry; apply Nat.eqb_neq; lia).
  cbn [orb]. rewrite Hsp.
  unfold handle_string. rewrite Hl. cbn [negb andb bind]. rewrite Hs.
  unfold handle_markers, and_then. rewrite Hl, Hb. cbn [negb andb bind].
  reflexivity.
Qed.

(** In a block comment a byte at which the end marker does not stand is
    passed over. *)
Lemma step_in_block_comment (s : scan) (c : byte) :
  in_block_comment s = true -> in_line_comment s = false ->
  in_string s = false ->
  nth_error buf (p s) = Some c -> c <> nl -> p s + 1 < List.length buf ->
  ~ stands_at buf (p s) (block_end lang) ->
  step buf lang s = Done (advance 1 s).
Proof.
  intros Hb Hl Hs Hc Hnl Hp Hend.
  destruct (isspace c) eqn:Hsp; [apply (step_at_space s c); assumption|].
  unfold step. apply read_Done in Hc. rewrite Hc. cbn [bind].
  apply byte_eqb_neq in Hnl. rewrite Hnl.
  replace (p s =? List.length buf - 1) with false
    by (symmetry; apply Nat.eqb_neq; lia).
  cbn [orb]. rewrite Hsp.
  unfold handle_string. rewrite Hb, Hl. cbn [negb andb bind]. rewrite Hs.
  unfold handle_markers, and_then. rewrite Hl, Hb. cbn [negb andb bind].
  destruct (marker_at_spec buf (block_end lang) (p s)) as [b [E Hiff]].
  rewrite E. cbn [bind]. destruct b; [|reflexivity].
  exfalso. apply Hend. apply Hiff. reflexivity.
Qed.

Lemma line_ahead_in_range (i n k : nat) :
  line_ahead buf i n -> k < n -> i + k + 1 < List.length buf.
Proof.
  intros [_ Hnl] Hk.
  assert (i + n < List.length buf) by (apply nth_error_Some; congruence).
  lia.
Qed.

(** Run over the rest of a line and its newline. *)
Lemma iterate_to_newline (keeps : scan -> Prop) (n : nat) (s : scan) :
  (forall s, keeps s -> keeps (advance 1 s)) ->
  keeps s ->
  (forall k s1, k < n -> keeps s1 -> p s1 = p s + k ->
                step buf lang s1 = Done (advance 1 s1)) ->
  line_ahead buf (p s) n ->
  iterate buf lang (n + 1) s = Done (end_of_line (advance n s)).
Proof.
  intros Hkeep Hs Hsteps Hline.
  rewrite iterate_add, (iterate_plain keeps n Hkeep s Hs).
  - cbn [bind iterate].
    destruct Hline as [_ Hnl].
    assert (p s + n < List.length buf) by (apply nth_error_Some; congruence).
    cbn [p advance].
    replace (p s + n <? List.length buf) with true
      by (symmetry; apply Nat.ltb_lt; lia).
    rewrite step_at_newline by exact Hnl. reflexivity.
  - intros k Hk. split.
    + pose proof (line_ahead_in_range (p s) n k Hline Hk). lia.
    + intros s1 Hs1 E. apply (Hsteps k); assumption.
Qed.

End Lines.

Section LineKinds.

Variable buf : list byte.
Variable lang : lang_syntax.

Lemma line_ahead_shift (i n m : nat) :
  line_ahead buf i n -> m <= n -> line_ahead buf (i + m) (n - m).
Proof.
  intros [Hk Hnl] Hm. split.
  - intros k Hlt. replace (i + m + k) with (i + (m + k)) by lia.
    apply Hk. lia.
  - replace (i + m + (n - m)) with (i + n) by lia. exact Hnl.
Qed.

(** From inside a line comment to the start of the next line. *)
Lemma line_comment_run (s : scan) (n : nat) :
  in_line_comment s = true -> in_block_comment s = false ->
  in_string s = false ->
  line_ahead buf (p s) n ->
  iterate buf lang (n + 1) s = Done (end_of_line (advance n s)).
Proof.
  intros Hl Hb Hs Hline.
  apply (iterate_to_newline buf lang
           (fun s1 => in_line_comment s1 = true /\
                      in_block_comment s1 = false /\ in_string s1 = false)).
  - intros s1 H. exact H.
  - auto.
  - intros k s1 Hk (H1 & H2 & H3) E.
    pose proof (line_ahead_in_range buf (p s) n k Hline Hk) as Hr.
    destruct Hline as [Hbytes _]. destruct (Hbytes k Hk) as (c & Hc & Hnl).
    apply (step_in_line_comment buf lang s1 c); try assumption;
      rewrite E; [exact Hc | lia].
  - exact Hline.
Qed.

(** From inside a block comment, over a line on which the end marker
    does not stand, to the start of the next line. *)
Lemma block_comment_run (s : scan) (n : nat) :
  in_block_comment s = true -> in_line_comment s = false ->
  in_string s = false ->
  line_ahead buf (p s) n ->
  (forall k, k < n -> ~ stands_at buf (p s + k) (block_end lang)) ->
  iterate buf lang (n + 1) s = Done (end_of_line (advance n s)).
Proof.
  intros Hb Hl Hs Hline Hend.
  apply (iterate_to_newline buf lang
           (fun s1 => in_block_comment s1 = true /\
                      in_line_comment s1 = false /\ in_string s1 = false)).
  - intros s1 H. exact H.
  - auto.
  - intros k s1 Hk (H1 & H2 & H3) E.
    pose proof (line_ahead_in_range buf (p s) n k Hline Hk) as Hr.
    destruct Hline as [Hbytes _]. destruct (Hbytes k Hk) as (c & Hc & Hnl).
    apply (step_in_block_comment buf lang s1 c); try assumption;
      rewrite E; [exact Hc | lia | apply Hend; exact Hk].
  - exact Hline.
Qed.

(** Over white space to the start of the next line, in any state. *)
Lemma blank_run (s : scan) (n : nat) :
  blank_ahead buf (p s) n ->
  iterate buf lang (n + 1) s = Done (end_of_line (advance n s)).
Proof.
  intros [Hbytes Hnl].
  assert (line_ahead buf (p s) n) as Hline.
  { split; [|exact Hnl]. intros k Hk.
    destruct (Hbytes k Hk) as (c & Hc & Hne & _). eauto. }
  apply (iterate_to_newline buf lang (fun _ => True)); auto.
  intros k s1 Hk _ E.
  pose proof (line_ahead_in_range buf (p s) n k Hline Hk) as Hr.
  destruct (Hbytes k Hk) as (c & Hc & Hne & Hsp).
  apply (step_at_space buf lang s1 c); try assumption;
    rewrite E; [exact Hc | lia].
Qed.

(** The line comment marker under the cursor opens a line comment. *)
Lemma step_line_marker (s : scan) (c : byte) :
  in_line_comment s = false -> in_block_comment s = false ->
  in_string s = false ->
  nth_error buf (p s) = Some c -> c <> nl -> p s + 1 < List.length buf ->
  isspace c = false -> c <> dquote -> c <> squote ->
  ~ stands_at buf (p s) (block_start lang) ->
  stands_at buf (p s) (line_comment lang) ->
  step buf lang s =
  Done (advance (List.length (line_comment lang)) (set_line true s)).
Proof.
  intros Hl Hb Hs Hc Hnl Hp Hsp Hd Hq Hstart Hline.
  unfold step. apply read_Done in Hc. rewrite Hc. cbn [bind].
  apply byte_eqb_neq in Hnl. rewrite Hnl.
  replace (p s =? List.length buf - 1) with false
    by (symmetry; apply Nat.eqb_neq; lia).
  cbn [orb]. rewrite Hsp.
  unfold handle_string, and_then. rewrite Hl, Hb, Hs. cbn [negb andb bind].
  apply byte_eqb_neq in Hd, Hq. rewrite Hd, Hq. cbn [orb bind]. rewrite Hs.
  unfold handle_markers, and_then. rewrite Hl, Hb. cbn [negb andb bind].
  destruct (marker_at_spec buf (block_start lang) (p s)) as [b1 [E1 H1]].
  destruct (marker_at_spec buf (line_comment lang) (p s)) as [b3 [E3 H3]].
  rewrite E1. cbn [bind].
  destruct b1; [exfalso; apply Hstart; apply H1; reflexivity|].
  rewrite E3. cbn [bind].
  destruct b3; [reflexivity|].
  apply H3 in Hline. discriminate.
Qed.

End LineKinds.

Section StringLines.

Variable buf : list byte.
Variable lang : lang_syntax.

(** In the string state a byte other than the remembered quote is
    passed over. *)
Lemma step_in_string (s : scan) (c : byte) :
  in_string s = true -> in_line_comment s = false ->
  in_block_comment s = false ->
  nth_error buf (p s) = Some c -> c <> nl -> p s + 1 < List.length buf ->
  c <> string_char s ->
  step buf lang s = Done (advance 1 s).
Proof.
  intros Hs Hl Hb Hc Hnl Hp Hq.
  destruct (isspace c) eqn:Hsp; [apply (step_at_space buf lang s c); assumption|].
  unfold step. apply read_Done in Hc. rewrite Hc. cbn [bind].
  apply byte_eqb_neq in Hnl. rewrite Hnl.
  replace (p s =? List.length buf - 1) with false
    by (symmetry; apply Nat.eqb_neq; lia).
  cbn [orb]. rewrite Hsp.
  unfold handle_string, and_then. rewrite Hl, Hb, Hs. cbn [negb andb bind].
  apply byte_eqb_neq in Hq. rewrite Hq. cbn [bind]. rewrite Hs. reflexivity.
Qed.

Lemma string_run (s : scan) (n : nat) :
  in_string s = true -> in_line_comment s = false ->
  in_block_comment s = false ->
  line_ahead buf (p s) n ->
  (forall k, k < n -> nth_error buf (p s + k) <> Some (string_char s)) ->
  iterate buf lang (n + 1) s = Done (end_of_line (advance n s)).
Proof.
  intros Hs Hl Hb Hline Hq.
  apply (iterate_to_newline buf lang
           (fun s1 => in_string s1 = true /\ in_line_comment s1 = false /\
                      in_block_comment s1 = false /\
                      string_char s1 = string_char s)).
  - intros s1 H. exact H.
  - auto.
  - intros k s1 Hk (H1 & H2 & H3 & H4) E.
    pose proof (line_ahead_in_range buf (p s) n k Hline Hk) as Hr.
    destruct Hline as [Hbytes _]. destruct (Hbytes k Hk) as (c & Hc & Hnl).
    apply (step_in_string s1 c); try assumption.
    + rewrite E. exact Hc.
    + rewrite E. lia.
    + rewrite H4. intros ->. apply (Hq k Hk). exact Hc.
  - exact Hline.
Qed.

End StringLines.

(** X5.  A line comment takes the rest of its line.  From a state inside a
    line comment, or from a state outside comments and strings with the
    line comment marker (and not the block start marker) under the
    cursor, the scanner reaches the start of the next line having counted
    one comment line and nothing else, whatever the bytes before the
    newline (quotes, block markers) and whether or not code came before
    the marker on that line; the comment ends with the line. *)
Theorem line_comment_takes_the_line (buf : list byte) (lang : lang_syntax) :
  (forall s n,
     in_line_comment s = true -> in_block_comment s = false ->
     in_string s = false -> line_ahead buf (p s) n ->
     exists s',
       iterate buf lang (n + 1) s = Done s' /\
       p s' = p s + n + 1 /\ stats s' = incr_comment (stats s) /\
       in_line_comment s' = false /\ in_block_comment s' = false /\
       in_string s' = false /\ has_code s' = false) /\
  (forall s c n,
     in_line_comment s = false -> in_block_comment s = false ->
     in_string s = false ->
     nth_error buf (p s) = Some c ->
     isspace c = false -> c <> dquote -> c <> squote ->
     ~ stands_at buf (p s) (block_start lang) ->
     stands_at buf (p s) (line_comment lang) ->
     0 < List.length (line_comment lang) <= n ->
     line_ahead buf (p s) n ->
     exists s',
       iterate buf lang (1 + (n - List.length (line_comment lang) + 1)) s =
         Done s' /\
       p s' = p s + n + 1 /\ stats s' = incr_comment (stats s) /\
       in_line_comment s' = false /\ in_block_comment s' = false /\
       in_string s' = false /\ has_code s' = false).
Proof.
  split.
  - intros s n Hl Hb Hs Hline.
    exists (end_of_line (advance n s)).
    split; [apply line_comment_run; assumption|].
    cbn. unfold classify_line. cbn. rewrite Hl.
    repeat split; auto; lia.
  - intros s c n Hl Hb Hs Hc Hsp Hd Hq Hstart Hmark [Hlen Hn] Hline.
    set (m := List.length (line_comment lang)) in *.
    set (s1 := advance m (set_line true s)).
    assert (c <> nl) as Hnl.
    { destruct Hline as [Hbytes _]. destruct (Hbytes 0) as (c' & Hc' & Hne);
        [lia|]. rewrite Nat.add_0_r in Hc'. congruence. }
    pose proof (line_ahead_in_range buf (p s) n 0 Hline ltac:(lia)) as Hr.
    exists (end_of_line (advance (n - m) s1)).
    split.
    + cbn [Nat.add iterate].
      replace (p s <? List.length buf) with true
        by (symmetry; apply Nat.ltb_lt; lia).
      rewrite (step_line_marker buf lang s c) by (try assumption; lia).
      cbn [bind]. fold m. fold s1.
      apply line_comment_run; try reflexivity; try assumption.
      unfold s1. cbn [p advance set_line].
      apply line_ahead_shift; assumption.
    + unfold s1. cbn. unfold classify_line. cbn.
      repeat split; auto; lia.
Qed.

(** On a line with code before the comment. *)
Lemma line_comment_takes_the_line_witness :
  let buf := bytes "x; // y" ++ [nl] in
  let s := {| p := 3; in_block_comment := false; in_line_comment := false;
              has_code := true; in_string := false; string_char := x00;
              stats := set_size 8 init_file_stats |} in
  iterate buf lang_C 3 (scan_init buf init_file_stats) = Done s /\
  exists s', iterate buf lang_C (1 + (4 - 2 + 1)) s = Done s' /\
             p s' = 8 /\ counts (stats s') = (0, 1, 0)%N.
Proof.
  intros buf s. split; [reflexivity|].
  destruct (line_comment_takes_the_line buf lang_C) as [_ H].
  destruct (H s x2f 4) as (s' & Hs' & Hp & Hst & _); try reflexivity;
    try discriminate.
  - intros [_ Hm]. discriminate.
  - split; [cbn; lia | reflexivity].
  - cbn. lia.
  - split; [|reflexivity].
    intros [|[|[|[|k]]]] Hk; try lia; eexists; (split; [reflexivity|discriminate]).
  - exists s'. split; [exact Hs'|]. split; [exact Hp|]. rewrite Hst. reflexivity.
Defined.

(** X6.  Inside a block comment, a line on which the end marker does not
    stand is one comment line, whatever else it holds (quotes, line
    comment markers, further start markers), and the block stays open
    into the next line. *)
Theorem block_comment_line_is_comment (buf : list byte) (lang : lang_syntax)
    (s : scan) (n : nat) :
  in_block_comment s = true -> in_line_comment s = false ->
  in_string s = false ->
  line_ahead buf (p s) n ->
  (forall k, k < n -> ~ stands_at buf (p s + k) (block_end lang)) ->
  exists s',
    iterate buf lang (n + 1) s = Done s' /\
    p s' = p s + n + 1 /\ stats s' = incr_comment (stats s) /\
    in_block_comment s' = true /\ in_line_comment s' = false /\
    in_string s' = false /\ has_code s' = false.
Proof.
  intros Hb Hl Hs Hline Hend.
  exists (end_of_line (advance n s)).
  split; [apply block_comment_run; assumption|].
  cbn. unfold classify_line. cbn. rewrite Hl, Hb.
  repeat split; auto; lia.
Qed.

(** On the second line of the sample of C2. *)
Lemma block_comment_line_is_comment_witness :
  let s := {| p := 9; in_block_comment := true; in_line_comment := false;
              has_code := false; in_string := false; string_char := x00;
              stats := incr_comment (set_size 25 init_file_stats) |} in
  iterate sample_block_comment lang_C 8
    (scan_init sample_block_comment init_file_stats) = Done s /\
  exists s', iterate sample_block_comment lang_C (3 + 1) s = Done s' /\
             p s' = 13 /\ counts (stats s') = (0, 2, 0)%N /\
             in_block_comment s' = true.
Proof.
  intros s. split; [reflexivity|].
  destruct (block_comment_line_is_comment sample_block_comment lang_C s 3)
    as (s' & Hs' & Hp & Hst & Hb & _); try reflexivity.
  - split; [|reflexivity].
    intros [|[|[|k]]] Hk; try lia; eexists; (split; [reflexivity|discriminate]).
  - intros [|[|[|k]]] Hk [_ Hm]; try lia; discriminate.
  - exists s'. split; [exact Hs'|]. split; [exact Hp|].
    rewrite Hst. split; [reflexivity | exact Hb].
Defined.

(** X7.  White space up to a newline is passed over in every state, and the
    line is classified by the flags as they were: outside comments and
    with no code before it on the line, it is one blank line. *)
Theorem blank_line_is_blank (buf : list byte) (lang : lang_syntax)
    (s : scan) (n : nat) :
  blank_ahead buf (p s) n ->
  exists s',
    iterate buf lang (n + 1) s = Done s' /\
    p s' = p s + n + 1 /\ stats s' = classify_line s /\
    in_block_comment s' = in_block_comment s /\
    in_string s' = in_string s /\
    (in_line_comment s = false -> in_block_comment s = false ->
     has_code s = false -> stats s' = incr_blank (stats s)).
Proof.
  intros Hblank. exists (end_of_line (advance n s)).
  split; [apply blank_run; assumption|].
  cbn. unfold classify_line. cbn.
  repeat split; auto; try lia.
  intros -> -> ->. reflexivity.
Qed.

(** On the line of spaces and a tab of the scenario. *)
Lemma blank_line_is_blank_witness :
  let buf := [x20; x09; x20; nl] in
  exists s', iterate buf lang_C (3 + 1) (scan_init buf init_file_stats) = Done s' /\
             p s' = 4 /\ counts (stats s') = (0, 0, 1)%N.
Proof.
  intros buf.
  destruct (blank_line_is_blank buf lang_C (scan_init buf init_file_stats) 3)
    as (s' & Hs' & Hp & _ & _ & _ & Hst).
  - split; [|reflexivity].
    intros [|[|[|k]]] Hk; try lia; eexists;
      (split; [reflexivity | split; [discriminate | reflexivity]]).
  - exists s'. split; [exact Hs'|]. split; [exact Hp|].
    rewrite Hst; reflexivity.
Defined.

(** X8.  A string that is open at the start of a line on which its quote
    does not occur stays open over the newline, and the bytes of the line
    do not set [has_code]: the line is a blank line, unless code was seen
    on it before (the line on which the string opened). *)
Theorem open_string_line_is_blank (buf : list byte) (lang : lang_syntax)
    (s : scan) (n : nat) :
  in_string s = true -> in_line_comment s = false ->
  in_block_comment s = false ->
  line_ahead buf (p s) n ->
  (forall k, k < n -> nth_error buf (p s + k) <> Some (string_char s)) ->
  exists s',
    iterate buf lang (n + 1) s = Done s' /\
    p s' = p s + n + 1 /\ in_string s' = true /\
    string_char s' = string_char s /\
    stats s' = (if has_code s then incr_code (stats s)
                else incr_blank (stats s)).
Proof.
  intros Hs Hl Hb Hline Hq.
  exists (end_of_line (advance n s)).
  split; [apply string_run; assumption|].
  cbn. unfold classify_line. cbn. rewrite Hl, Hb.
  repeat split; auto; lia.
Qed.

(** A string opened on the first line and never closed: the second line,
    a line of code in C, is counted blank. *)
Lemma open_string_line_is_blank_witness :
  let buf := [dquote; x61; nl] ++ bytes "int x;" ++ [nl] in
  let s := {| p := 3; in_block_comment := false; in_line_comment := false;
              has_code := false; in_string := true; string_char := dquote;
              stats := incr_code (set_size 10 init_file_stats) |} in
  iterate buf lang_C 3 (scan_init buf init_file_stats) = Done s /\
  exists s', iterate buf lang_C (6 + 1) s = Done s' /\
             counts (stats s') = (1, 0, 1)%N /\ in_string s' = true.
Proof.
  intros buf s. split; [reflexivity|].
  destruct (open_string_line_is_blank buf lang_C s 6)
    as (s' & Hs' & _ & Hin & _ & Hst); try reflexivity.
  - split; [|reflexivity].
    intros [|[|[|[|[|[|k]]]]]] Hk; try lia; eexists;
      (split; [reflexivity|discriminate]).
  - intros [|[|[|[|[|[|k]]]]]] Hk; try lia; discriminate.
  - exists s'. split; [exact Hs'|]. rewrite Hst. split; [reflexivity | exact Hin].
Defined.

(** ** What language detection goes by *)

Lemma strrchr_app (stem r : string) (c : ascii) :
  strrchr r c = Some r -> strrchr (stem ++ r) c = Some r.
Proof.
  intros H. induction stem as [|a stem IH]; [exact H|].
  cbn [String.append strrchr]. rewrite IH. reflexivity.
Qed.

Lemma strrchr_suffix (s r : string) (c : ascii) :
  strrchr s c = Some r -> exists stem, s = (stem ++ r)%string.
Proof.
  revert r. induction s as [|a s IH]; intros r H; [discriminate|].
  cbn [strrchr] in H. destruct (strrchr s c) as [r'|] eqn:E.
  - injection H as <-. destruct (IH r' eq_refl) as [stem ->].
    exists (String a stem). reflexivity.
  - destruct (Ascii.eqb a c); [|discriminate]. injection H as <-.
    exists EmptyString. reflexivity.
Qed.

(** [strstr] finds exactly the occurrences of the needle. *)
Lemma is_prefix_spec (needle hay : list byte) :
  is_prefix needle hay = true <-> exists post, hay = needle ++ post.
Proof.
  revert hay. induction needle as [|a needle IH]; intros hay.
  - split; [intros _; exists hay; reflexivity | reflexivity].
  - destruct hay as [|b hay]; cbn [is_prefix].
    + split; [discriminate | intros [post H]; discriminate].
    + rewrite andb_true_iff, byte_eqb_eq, IH. split.
      * intros [-> [post ->]]. exists post. reflexivity.
      * intros [post H]. injection H as -> ->. eauto.
Qed.

Lemma strstr_spec (hay needle : list byte) :
  strstr hay needle = true <-> exists pre post, hay = pre ++ needle ++ post.
Proof.
  induction hay as [|b hay IH].
  - cbn [strstr]. rewrite orb_false_r, is_prefix_spec. split.
    + intros [post H]. exists [], post. exact H.
    + intros (pre & post & H). destruct pre as [|x pre]; [|discriminate].
      exists post. exact H.
  - cbn [strstr]. rewrite orb_true_iff, is_prefix_spec, IH. split.
    + intros [[post H] | (pre & post & H)].
      * exists [], post. exact H.
      * exists (b :: pre), post. rewrite H. reflexivity.
    + intros (pre & post & H). destruct pre as [|x pre].
      * left. exists post. exact H.
      * right. injection H as -> H. exists pre, post. exact H.
Qed.

Lemma c_string_no_nul (a : list byte) : ~ In x00 a -> c_string a = a.
Proof.
  induction a as [|c a IH]; intros H; [reflexivity|].
  cbn [c_string]. destruct (Byte.eqb c x00) eqn:E.
  - apply byte_eqb_eq in E. subst c. exfalso. apply H. left. reflexivity.
  - f_equal. apply IH. intros Hin. apply H. right. exact Hin.
Qed.

Lemma c_string_at_nul (a b : list byte) :
  ~ In x00 a -> c_string (a ++ x00 :: b) = a.
Proof.
  induction a as [|c a IH]; intros H; [reflexivity|].
  cbn [app c_string]. destruct (Byte.eqb c x00) eqn:E.
  - apply byte_eqb_eq in E. subst c. exfalso. apply H. left. reflexivity.
  - f_equal. apply IH. intros Hin. apply H. right. exact Hin.
Qed.

Lemma is_cpp_file_spec (malloc_ok : bool) (content : list byte) :
  is_cpp_file malloc_ok content = true <->
  malloc_ok = true /\
  exists keyword pre post,
    In keyword cpp_keywords /\
    c_string content = pre ++ bytes keyword ++ post.
Proof.
  unfold is_cpp_file. destruct malloc_ok; cbn [negb].
  2:{ split; [discriminate | intros [H _]; discriminate]. }
  rewrite existsb_exists. split.
  - intros (kw & Hin & H). apply strstr_spec in H.
    destruct H as (pre & post & H). split; [reflexivity|]. eauto 6.
  - intros (_ & kw & pre & post & Hin & H). exists kw. split; [exact Hin|].
    apply strstr_spec. eauto.
Qed.

(** The extension of a path that ends with an extension of the table. *)
Lemma table_extension_found (stem ext : string) (lang : lang_syntax) :
  In lang languages -> In ext (extensions lang) ->
  strrchr (stem ++ ext) "."%char = Some ext /\
  find (fun l => existsb (String.eqb ext) (extensions l)) languages =
    Some (if String.eqb ext ".h" then lang_C else lang).
Proof.
  unfold languages. cbn [In].
  intros [<-|[<-|[<-|[<-|[<-|[<-|[<-|[]]]]]]]]; cbn [extensions mk_lang lang_C
    lang_CPP lang_Python lang_Java lang_Go lang_Rust lang_JS In];
    intros H; repeat (destruct H as [<-|H]); try destruct H;
    (split; [apply strrchr_app; reflexivity | reflexivity]).
Qed.

(** X12.  Detection goes by the suffix of the path from its last dot on.  A
    path that ends with an extension of the table is given the language
    of that row, whatever comes before the extension and whatever the
    file holds; a header is C++ when it can be opened, the copy of its
    first bytes can be allocated, and one of the keywords occurs, as a
    run of bytes, among the first 4096 bytes before the first NUL, and C
    otherwise: also when [fopen] or [malloc] fails; and no other path is
    given a language. *)
Theorem detect_language_by_extension :
  (forall stem lang ext f,
     In lang languages -> In ext (extensions lang) -> ext <> ".h"%string ->
     detect_language (stem ++ ext) f = Some lang) /\
  (forall stem f,
     detect_language (stem ++ ".h") f =
       Some (if f_fopen f &&
                is_cpp_file (f_malloc f) (firstn MAX_EXAMINE_SIZE (f_data f))
             then lang_CPP else lang_C)) /\
  (forall malloc_ok content,
     is_cpp_file malloc_ok content = true <->
     malloc_ok = true /\
     exists keyword pre post,
       In keyword cpp_keywords /\
       c_string content = pre ++ bytes keyword ++ post) /\
  (forall stem f,
     f_fopen f = false \/ f_malloc f = false ->
     detect_language (stem ++ ".h") f = Some lang_C) /\
  (forall path f lang,
     detect_language path f = Some lang ->
     In lang languages /\
     exists stem l ext,
       In l languages /\ In ext (extensions l) /\ path = (stem ++ ext)%string).
Proof.
  assert (forall stem f,
            detect_language (stem ++ ".h") f =
              Some (if f_fopen f &&
                       is_cpp_file (f_malloc f)
                         (firstn MAX_EXAMINE_SIZE (f_data f))
                    then lang_CPP else lang_C)) as Hheader.
  { intros stem f.
    destruct (table_extension_found stem ".h" lang_C) as [Hs Hf];
      [left; reflexivity | right; left; reflexivity |].
    unfold detect_language. rewrite Hs, Hf. cbn [String.eqb Ascii.eqb Bool.eqb].
    destruct (f_fopen f); cbn [negb andb]; [|reflexivity].
    destruct (is_cpp_file (f_malloc f) (firstn MAX_EXAMINE_SIZE (f_data f)));
      reflexivity. }
  split; [|split; [|split; [|split]]].
  - intros stem lang ext f Hl He Hh.
    destruct (table_extension_found stem ext lang Hl He) as [Hs Hf].
    unfold detect_language. rewrite Hs, Hf.
    apply String.eqb_neq in Hh. rewrite Hh. reflexivity.
  - exact Hheader.
  - exact is_cpp_file_spec.
  - intros stem f [H | H]; rewrite Hheader, H; [reflexivity|].
    unfold is_cpp_file. cbn [negb]. rewrite andb_false_r. reflexivity.
  - intros path f lang H. split; [eapply detect_language_in_table; eauto|].
    unfold detect_language in H.
    destruct (strrchr path "."%char) as [ext|] eqn:Hs; [|discriminate].
    destruct (find (fun l => existsb (String.eqb ext) (extensions l)) languages)
      as [l|] eqn:Hf; [|discriminate].
    apply find_some in Hf. destruct Hf as [Hin Hex].
    apply existsb_exists in Hex. destruct Hex as (e & He & Heq).
    apply String.eqb_eq in Heq. subst e.
    apply strrchr_suffix in Hs. destruct Hs as [stem ->].
    exists stem, l, ext. auto.
Qed.

(** On a header of C whose only keyword is part of an identifier; when
    the copy of its bytes cannot be allocated the same header is C. *)
Lemma detect_language_by_extension_witness :
  detect_language "src/lexer.h" (readable (bytes "int classify(int c);")) =
    Some lang_CPP /\
  detect_language "src/lib.v2/main.rs" (readable []) = Some lang_Rust /\
  detect_language "src/lexer.h"
    {| f_fopen := true; f_malloc := false; f_open := true; f_fstat := true;
       f_mmap := true; f_data := bytes "int classify(int c);" |} =
    Some lang_C.
Proof.
  destruct detect_language_by_extension as (H1 & H2 & _ & H4 & _).
  split; [|split].
  - rewrite (H2 "src/lexer"%string). reflexivity.
  - apply (H1 "src/lib.v2/main"%string lang_Rust ".rs"%string).
    + cbn. tauto.
    + left. reflexivity.
    + discriminate.
  - apply (H4 "src/lexer"%string). right. reflexivity.
Defined.

(** ** What [process_file] returns *)

Lemma languages_id (lang : lang_syntax) :
  In lang languages -> 1 <= id lang <= 7.
Proof.
  unfold languages. cbn [In].
  intros [<-|[<-|[<-|[<-|[<-|[<-|[<-|[]]]]]]]]; cbv; lia.
Qed.

Ltac pf_finish :=
  first
    [ reflexivity | discriminate | assumption | tauto
    | left; reflexivity | right; left; reflexivity | right; right; reflexivity
    | cbn in *; lia
    | intuition (discriminate || congruence) ].

(** The cases of [process_file]. *)
Lemma process_file_spec (file_path : string) (f : file) :
  exists code st,
    process_file file_path f = Done (code, st) /\
    (code = CLOC_SUCCESS <->
     detect_language file_path f <> None /\ f_open f = true /\ f_fstat f = true /\
     (f_data f = [] \/ f_mmap f = true)) /\
    (code = CLOC_ERROR_ARG <-> detect_language file_path f = None) /\
    (code = CLOC_SUCCESS \/ code = CLOC_ERROR_ARG \/ code = CLOC_ERROR_IO) /\
    path st = substring 0 4095 file_path /\
    language st =
      match detect_language file_path f with Some lang => id lang | None => 0 end /\
    error st =
      (if match detect_language file_path f with Some _ => negb (f_open f)
          | None => false end
       then CLOC_ERROR_IO else 0%Z) /\
    (code = CLOC_SUCCESS ->
     size st = Z.of_nat (List.length (f_data f)) /\
     (total st <= line_count (f_data f))%N /\
     1 <= language st <= 7) /\
    (code <> CLOC_SUCCESS -> size st = 0%Z /\ total st = 0%N).
Proof.
  unfold process_file.
  destruct (detect_language file_path f) as [lang|] eqn:Hl.
  2:{ eexists _, _. split; [reflexivity|]. repeat split; pf_finish. }
  pose proof (detect_language_in_table file_path f lang Hl) as Hin.
  pose proof (languages_id lang Hin) as Hid.
  destruct (f_open f) eqn:Ho; cbn [negb].
  2:{ eexists _, _. split; [reflexivity|]. repeat split; pf_finish. }
  destruct (f_fstat f) eqn:Hf; cbn [negb].
  2:{ eexists _, _. split; [reflexivity|]. repeat split; pf_finish. }
  destruct (f_data f) as [|c data] eqn:Hd; cbn [List.length Nat.eqb].
  { eexists _, _. split; [reflexivity|]. repeat split; pf_finish. }
  destruct (f_mmap f) eqn:Hm; cbn [negb].
  2:{ eexists _, _. split; [reflexivity|]. repeat split; pf_finish. }
  apply languages_nonempty in Hin.
  set (st0 := set_language (id lang)
                (set_path (substring 0 (CLOC_MAX_PATH - 1) file_path)
                   init_file_stats)).
  destruct (count_lines_runs (c :: data) lang st0 Hin)
    as (s & r & _ & _ & _ & _ & Hr).
  rewrite Hr. cbn [bind].
  destruct (count_lines_fuel_fields _ _ _ _ _ Hr) as (Hsize & Hp & Hlang & Herr).
  pose proof (count_lines_fuel_bound _ _ _ _ _ Hr) as Hb.
  cbn in Hb.
  exists CLOC_SUCCESS, r. split; [reflexivity|].
  rewrite Hlang, Hp, Herr. repeat split; pf_finish.
Qed.

(** X13.  [process_file] always returns, and what it returns is decided by the
    language detection and the three system calls.  The code is
    [CLOC_SUCCESS] exactly when a language is found, [open] and [fstat]
    succeed, and the file is empty or [mmap] succeeds; it is
    [CLOC_ERROR_ARG] exactly when no language is found, and
    [CLOC_ERROR_IO] otherwise.  [path] is the first 4095 characters of
    the argument and [language] the identifier found (0 without one);
    [error] is set only when [open] fails, not when [fstat] or [mmap]
    do.  On success [size] is the length of the file and the counters
    add up to at most its number of lines; on failure [size] and the
    counters are zero. *)
Theorem process_file_result (file_path : string) (f : file) :
  exists code st,
    process_file file_path f = Done (code, st) /\
    (code = CLOC_SUCCESS <->
     detect_language file_path f <> None /\ f_open f = true /\ f_fstat f = true /\
     (f_data f = [] \/ f_mmap f = true)) /\
    (code = CLOC_ERROR_ARG <-> detect_language file_path f = None) /\
    (code = CLOC_SUCCESS \/ code = CLOC_ERROR_ARG \/ code = CLOC_ERROR_IO) /\
    path st = substring 0 4095 file_path /\
    language st =
      match detect_language file_path f with Some lang => id lang | None => 0 end /\
    error st =
      (if match detect_language file_path f with Some _ => negb (f_open f)
          | None => false end
       then CLOC_ERROR_IO else 0%Z) /\
    (code = CLOC_SUCCESS ->
     size st = Z.of_nat (List.length (f_data f)) /\
     (total st <= line_count (f_data f))%N /\
     1 <= language st <= 7) /\
    (code <> CLOC_SUCCESS -> size st = 0%Z /\ total st = 0%N).
Proof. exact (process_file_spec file_path f). Qed.

(** ** The walk and its callback *)

(** Induction over a tree of directories. *)
Lemma node_tree_ind (P : node -> Prop) :
  (forall f, P (Regular f)) ->
  (forall f, P (Special f)) ->
  (forall opens entries,
     (forall d_name child, In (d_name, Some child) entries -> P child) ->
     P (Directory opens entries)) ->
  forall n, P n.
Proof.
  intros HR HS HD. fix IH 1. intros [f | opens entries | f].
  - apply HR.
  - apply HD. induction entries as [|[d st] rest IHrest]; intros d_name child Hin.
    + destruct Hin.
    + destruct Hin as [E | Hin].
      * destruct st as [c|]; [|discriminate].
        injection E as _ <-. apply IH.
      * apply (IHrest d_name child Hin).
  - apply HS.
Qed.

Lemma replay_app {G : Type} (cb : file_stats -> G -> Z * G)
    (a b : list file_stats) (g : G) :
  replay cb (a ++ b) g = replay cb b (replay cb a g).
Proof. unfold replay. apply fold_left_app. Qed.

Lemma callback_ok_replay {G : Type} (cb : file_stats -> G -> Z * G)
    (I : G -> Prop) (files : list file_stats) (g : G) :
  callback_ok cb I -> Forall accepted files -> I g -> I (replay cb files g).
Proof.
  intros Hcb Hall. revert g. induction Hall as [|fs files Hfs _ IH]; intros g Hg.
  - exact Hg.
  - cbn. apply IH. apply (Hcb fs g Hfs Hg).
Qed.

Lemma below_trans (root dir file_path : string) :
  below root dir -> below dir file_path -> below root file_path.
Proof.
  intros Hd H. induction H as [d | sub d _ IH].
  - apply below_deeper. exact Hd.
  - apply below_deeper. exact IH.
Qed.

Lemma substring_whole (s : string) (n : nat) :
  String.length s <= n -> substring 0 n s = s.
Proof.
  revert n. induction s as [|c s IH]; intros [|n] H; cbn in *;
    try reflexivity; try lia.
  f_equal. apply IH. lia.
Qed.

Lemma length_append (a b : string) :
  String.length (a ++ b) = String.length a + String.length b.
Proof. induction a as [|c a IH]; cbn; [reflexivity | rewrite IH; reflexivity]. Qed.

(** The buffer [full_path] takes the path of every entry the loop does
    not pass over, and so does [stats->path]. *)
Lemma full_path_fits (dir d_name : string) :
  too_long dir d_name = false ->
  String.length (full_path dir d_name) < CLOC_MAX_PATH - 1 + 1 /\
  substring 0 (CLOC_MAX_PATH - 1) (full_path dir d_name) = full_path dir d_name.
Proof.
  unfold too_long, full_path. intros H. apply Nat.ltb_ge in H.
  assert (String.length (dir ++ "/" ++ d_name) =
          String.length dir + 1 + String.length d_name) as E.
  { rewrite !length_append. cbn. lia. }
  split; [lia|]. apply substring_whole. lia.
Qed.

Lemma reported_accepted (root : string) (fs : file_stats) :
  reported root fs -> accepted fs.
Proof. intros (q & f & _ & H & _). exists q, f. exact H. Qed.

Lemma reported_deeper (root d_name : string) (fs : file_stats) :
  reported (full_path root d_name) fs -> reported root fs.
Proof.
  intros (q & f & Hb & H & Hp). exists q, f. split; [|split; assumption].
  apply (below_trans root (full_path root d_name) q); [constructor | exact Hb].
Qed.

Lemma feed_app {G : Type} (cb : file_stats -> G -> Z * G)
    (a b : list file_stats) (g : G) :
  feed cb (a ++ b) g =
  if fst (feed cb a g) then feed cb b (snd (feed cb a g)) else feed cb a g.
Proof.
  revert g. induction a as [|fs a IH]; intros g; cbn [app feed].
  - reflexivity.
  - destruct (cb fs g) as [c g']. destruct (c =? 0)%Z; [apply IH | reflexivity].
Qed.

Lemma feed_log (files seen : list file_stats) :
  feed log_callback files seen = (true, seen ++ files).
Proof.
  revert seen. induction files as [|fs files IH]; intros seen; cbn [feed].
  - rewrite app_nil_r. reflexivity.
  - unfold log_callback at 1. cbn [Z.eqb]. rewrite IH, <- app_assoc. reflexivity.
Qed.

Lemma feed_ok {G : Type} (cb : file_stats -> G -> Z * G) (I : G -> Prop)
    (files : list file_stats) (g : G) :
  callback_ok cb I -> Forall accepted files -> I g ->
  feed cb files g = (true, replay cb files g).
Proof.
  intros Hcb Hall. revert g. induction Hall as [|fs files Hfs _ IH]; intros g Hg.
  - reflexivity.
  - cbn [feed replay fold_left]. destruct (Hcb fs g Hfs Hg) as [H0 HI].
    destruct (cb fs g) as [c g']. cbn [fst snd] in *. subst c. cbn [Z.eqb].
    apply IH. exact HI.
Qed.

(** The entries of one directory, given the property for the
    directories below. *)
Lemma readdir_loop_walk (path : string)
    (entries : list (string * option node)) :
  (forall d_name child, In (d_name, Some child) entries ->
     forall path', exists code files,
       (code = CLOC_SUCCESS \/ code = CLOC_ERROR_IO) /\
       Forall (reported path') files /\
       (forall (G : Type) (g : G),
          process_directory None path' child g = Done (code, g)) /\
       (forall (G : Type) (cb : file_stats -> G -> Z * G) (g : G),
          process_directory (Some cb) path' child g =
            Done (if fst (feed cb files g) then code else CLOC_ERROR_ARG,
                  snd (feed cb files g)))) ->
  exists code files,
    (code = CLOC_SUCCESS \/ code = CLOC_ERROR_IO) /\
    Forall (reported path) files /\
    (forall (G : Type) (g : G),
       readdir_loop None (process_directory None) path entries g =
         Done (code, g)) /\
    (forall (G : Type) (cb : file_stats -> G -> Z * G) (g : G),
       readdir_loop (Some cb) (process_directory (Some cb)) path entries g =
         Done (if fst (feed cb files g) then code else CLOC_ERROR_ARG,
               snd (feed cb files g))).
Proof.
  induction entries as [|[d_name st] rest IH]; intros Hsub.
  - exists CLOC_SUCCESS, []. split; [left; reflexivity|].
    split; [constructor|]. split; reflexivity.
  - destruct IH as (code & files & Hcode & Hrep & Hnull & Hcbs).
    { intros d child Hin. apply (Hsub d child). right. exact Hin. }
    cbn [readdir_loop].
    destruct (hidden d_name); [exists code, files; auto|].
    destruct (too_long path d_name) eqn:Hlong; [exists code, files; auto|].
    destruct st as [[f | opens sub | f]|]; try (exists code, files; auto; fail).
    + (* a regular file *)
      destruct (process_file_spec (full_path path d_name) f)
        as (c & fs & Hpf & _ & _ & _ & Hpath & _).
      rewrite Hpf. cbn [bind fst snd].
      destruct (c =? CLOC_SUCCESS)%Z eqn:Ec; [|exists code, files; auto].
      apply Z.eqb_eq in Ec. subst c.
      assert (reported path fs) as Hfs.
      { exists (full_path path d_name), f. split; [constructor|].
        split; [exact Hpf|]. rewrite Hpath.
        apply (full_path_fits path d_name Hlong). }
      exists code, (fs :: files). split; [exact Hcode|].
      split; [constructor; assumption|]. split; [exact Hnull|].
      intros G cb g. cbn [feed].
      destruct (cb fs g) as [c0 g']. destruct (c0 =? 0)%Z; [apply Hcbs|].
      reflexivity.
    + (* a directory *)
      destruct (Hsub d_name (Directory opens sub) (or_introl eq_refl)
                  (full_path path d_name))
        as (c1 & files1 & Hcode1 & Hrep1 & Hnull1 & Hcb1).
      assert (Forall (reported path) files1) as Hrep1'.
      { revert Hrep1. apply Forall_impl. intros fs. apply reported_deeper. }
      destruct Hcode1 as [-> | ->].
      * exists code, (files1 ++ files). split; [exact Hcode|].
        split; [apply Forall_app; split; assumption|]. split.
        -- intros G g. rewrite Hnull1. cbn [bind fst snd Z.eqb]. apply Hnull.
        -- intros G cb g. rewrite Hcb1, feed_app. cbn [bind fst snd].
           destruct (feed cb files1 g) as [[|] g1]; cbn [fst snd].
           ++ cbn [Z.eqb]. apply Hcbs.
           ++ reflexivity.
      * exists CLOC_ERROR_IO, files1. split; [right; reflexivity|].
        split; [assumption|]. split.
        -- intros G g. rewrite Hnull1. reflexivity.
        -- intros G cb g. rewrite Hcb1. cbn [bind fst snd].
           destruct (feed cb files1 g) as [[|] g1]; reflexivity.
Qed.

(** The walk hands its callback the files it accepts, one by one and in
    the order of [readdir], each with its whole path, until the callback
    refuses one; the code it returns otherwise does not depend on the
    callback. *)
Lemma process_directory_walk (n : node) :
  forall path, exists code files,
    (code = CLOC_SUCCESS \/ code = CLOC_ERROR_IO) /\
    Forall (reported path) files /\
    (forall (G : Type) (g : G),
       process_directory None path n g = Done (code, g)) /\
    (forall (G : Type) (cb : file_stats -> G -> Z * G) (g : G),
       process_directory (Some cb) path n g =
         Done (if fst (feed cb files g) then code else CLOC_ERROR_ARG,
               snd (feed cb files g))).
Proof.
  induction n as [f | f | opens entries IH] using node_tree_ind; intros path.
  - exists CLOC_ERROR_IO, []. split; [right; reflexivity|].
    split; [constructor|]. split; reflexivity.
  - exists CLOC_ERROR_IO, []. split; [right; reflexivity|].
    split; [constructor|]. split; reflexivity.
  - destruct opens.
    + cbn [process_directory]. apply readdir_loop_walk. exact IH.
    + exists CLOC_ERROR_IO, []. split; [right; reflexivity|].
      split; [constructor|]. split; reflexivity.
Qed.

Lemma process_directory_replay (n : node) :
  forall path, exists code files,
    Forall accepted files /\
    (forall seen,
       process_directory (Some log_callback) path n seen =
         Done (code, seen ++ files)) /\
    (forall (G : Type) (cb : file_stats -> G -> Z * G) (I : G -> Prop),
       callback_ok cb I -> forall g, I g ->
       process_directory (Some cb) path n g = Done (code, replay cb files g)).
Proof.
  intros path.
  destruct (process_directory_walk n path) as (code & files & _ & Hrep & _ & H).
  assert (Forall accepted files) as Hacc.
  { revert Hrep. apply Forall_impl. intros fs. apply reported_accepted. }
  exists code, files. split; [exact Hacc|]. split.
  - intros seen. rewrite H, feed_log. reflexivity.
  - intros G cb I Hcb g Hg. rewrite H, (feed_ok cb I files g Hcb Hacc Hg).
    reflexivity.
Qed.


(** ** The table of totals *)

Lemma same_name_eq (a b : option string) : same_name a b = true <-> a = b.
Proof.
  destruct a as [x|], b as [y|]; cbn; split; intros H;
    try discriminate; try reflexivity.
  - apply String.eqb_eq in H. congruence.
  - injection H as ->. apply String.eqb_refl.
Qed.

Lemma same_name_neq (a b : option string) : same_name a b = false <-> a <> b.
Proof.
  split.
  - intros H E. apply same_name_eq in E. congruence.
  - intros H. destruct (same_name a b) eqn:E; [|reflexivity].
    apply same_name_eq in E. contradiction.
Qed.

Lemma add_file_name (fs : file_stats) (row : lang_stats.t) :
  lang_stats.name (add_file fs row) = lang_stats.name row.
Proof. reflexivity. Qed.

(** [update_row] changes the first row of the name and no other. *)
Lemma update_row_some (n : option string) (fs : file_stats)
    (rows rows' : list lang_stats.t) :
  update_row n fs rows = Some rows' ->
  exists pre row post,
    rows = pre ++ row :: post /\ rows' = pre ++ add_file fs row :: post /\
    lang_stats.name row = n /\
    ~ In n (map lang_stats.name pre).
Proof.
  revert rows'. induction rows as [|r rows IH]; intros rows' H; [discriminate|].
  cbn [update_row] in H.
  destruct (same_name (lang_stats.name r) n) eqn:E.
  - injection H as <-. apply same_name_eq in E.
    exists [], r, rows. repeat split; auto.
  - destruct (update_row n fs rows) as [rows1|]; [|discriminate].
    injection H as <-.
    destruct (IH rows1 eq_refl) as (pre & row & post & -> & -> & Hn & Hpre).
    exists (r :: pre), row, post. repeat split; auto.
    cbn [map In]. intros [Hr | Hin]; [|contradiction].
    apply same_name_neq in E. contradiction.
Qed.

Lemma update_row_none (n : option string) (fs : file_stats)
    (rows : list lang_stats.t) :
  update_row n fs rows = None <-> ~ In n (map lang_stats.name rows).
Proof.
  induction rows as [|r rows IH]; cbn [update_row map In]; [tauto|].
  destruct (same_name (lang_stats.name r) n) eqn:E.
  - apply same_name_eq in E. split; [discriminate | intros H; tauto].
  - apply same_name_neq in E. split.
    + intros H. destruct (update_row n fs rows); [discriminate|].
      intros [Hr|Hin]; [contradiction|]. apply (proj1 IH eq_refl Hin).
    + intros H. rewrite (proj2 IH); [reflexivity|].
      intros Hin. apply H. right. exact Hin.
Qed.

Lemma find_row_none (n : option string) (rows : list lang_stats.t) :
  find_row n rows = None <-> ~ In n (map lang_stats.name rows).
Proof.
  unfold find_row. induction rows as [|r rows IH]; cbn [find map In]; [tauto|].
  destruct (same_name (lang_stats.name r) n) eqn:E.
  - apply same_name_eq in E. split; [discriminate | tauto].
  - apply same_name_neq in E. rewrite IH. tauto.
Qed.

Lemma find_row_update (n : option string) (fs : file_stats)
    (rows rows' : list lang_stats.t) :
  update_row n fs rows = Some rows' ->
  find_row n rows' = option_map (add_file fs) (find_row n rows) /\
  (forall m, m <> n -> find_row m rows' = find_row m rows) /\
  map lang_stats.name rows' = map lang_stats.name rows.
Proof.
  unfold find_row. revert rows'.
  induction rows as [|r rows IH]; intros rows' H; [discriminate|].
  cbn [update_row] in H.
  destruct (same_name (lang_stats.name r) n) eqn:E.
  - injection H as <-. cbn [find map]. rewrite add_file_name, E.
    split; [reflexivity|]. split; [|reflexivity].
    intros m Hm. apply same_name_eq in E.
    replace (same_name (lang_stats.name r) m) with false; [reflexivity|].
    symmetry. apply same_name_neq. congruence.
  - destruct (update_row n fs rows) as [rows1|]; [|discriminate].
    injection H as <-. destruct (IH rows1 eq_refl) as (H1 & H2 & H3).
    cbn [find map]. rewrite E. split; [exact H1|]. split.
    + intros m Hm. rewrite (H2 m Hm). reflexivity.
    + rewrite H3. reflexivity.
Qed.

Lemma find_row_app_new (n m : option string) (fs : file_stats)
    (rows : list lang_stats.t) :
  find_row m (rows ++ [add_file fs (new_row n)]) =
  match find_row m rows with
  | Some r => Some r
  | None => if same_name n m then Some (add_file fs (new_row n)) else None
  end.
Proof.
  unfold find_row. induction rows as [|r rows IH]; cbn [app find].
  - reflexivity.
  - destruct (same_name (lang_stats.name r) m); [reflexivity | exact IH].
Qed.

Lemma update_stats_callback_table (fs : file_stats)
    (rows : list lang_stats.t) :
  let n := language_name (language fs) in
  let code := fst (update_stats_callback fs rows) in
  let rows' := snd (update_stats_callback fs rows) in
  (code = CLOC_SUCCESS \/ code = CLOC_ERROR_LIMIT) /\
  (code = CLOC_ERROR_LIMIT <->
   find_row n rows = None /\ CLOC_MAX_LANGUAGES <= List.length rows) /\
  (code = CLOC_ERROR_LIMIT -> rows' = rows) /\
  (code = CLOC_SUCCESS ->
   find_row n rows' =
     Some (add_file fs (match find_row n rows with
                        | Some row => row
                        | None => new_row n
                        end)) /\
   (forall m, m <> n -> find_row m rows' = find_row m rows) /\
   List.length rows' =
     List.length rows +
     match find_row n rows with Some _ => 0 | None => 1 end) /\
  (List.length rows <= CLOC_MAX_LANGUAGES ->
   List.length rows' <= CLOC_MAX_LANGUAGES) /\
  (NoDup (map lang_stats.name rows) -> NoDup (map lang_stats.name rows')).
Proof.
  intros n code rows'. subst code rows'. unfold update_stats_callback.
  fold n.
  destruct (update_row n fs rows) as [rows1|] eqn:Hu.
  - destruct (find_row_update n fs rows rows1 Hu) as (H1 & H2 & H3).
    assert (exists row, find_row n rows = Some row) as [row Hrow].
    { destruct (find_row n rows) as [row|] eqn:E; [eauto|].
      apply find_row_none in E.
      rewrite (proj2 (update_row_none n fs rows) E) in Hu. discriminate. }
    cbn [fst snd]. rewrite Hrow in *.
    assert (List.length rows1 = List.length rows) as Hlen.
    { rewrite <- (length_map lang_stats.name rows1), H3, length_map.
      reflexivity. }
    split; [left; reflexivity|].
    split; [split; [discriminate | intros [H _]; discriminate]|].
    split; [discriminate|].
    split; [intros _; split; [exact H1 | split; [exact H2 | lia]]|].
    split; [lia|]. rewrite H3. auto.
  - assert (find_row n rows = None) as Hnone.
    { apply find_row_none. apply update_row_none in Hu. exact Hu. }
    rewrite Hnone.
    destruct (CLOC_MAX_LANGUAGES <=? List.length rows) eqn:Efull;
      cbn [fst snd].
    + apply Nat.leb_le in Efull.
      split; [right; reflexivity|].
      split; [split; [auto | reflexivity]|].
      split; [reflexivity|].
      split; [discriminate|].
      split; [auto|]. auto.
    + apply Nat.leb_gt in Efull.
      split; [left; reflexivity|].
      split; [split; [discriminate | intros [_ H]; lia]|].
      split; [discriminate|].
      split.
      * intros _. split; [|split].
        -- rewrite find_row_app_new, Hnone.
           replace (same_name n n) with true
             by (symmetry; apply same_name_eq; reflexivity).
           reflexivity.
        -- intros m Hm. rewrite find_row_app_new.
           destruct (find_row m rows); [reflexivity|].
           replace (same_name n m) with false; [reflexivity|].
           symmetry. apply same_name_neq. congruence.
        -- rewrite last_length. lia.
      * split; [rewrite last_length; lia|].
        intros Hnd. rewrite map_app. apply NoDup_app; [exact Hnd | |].
        -- cbn. constructor; [intros []|constructor].
        -- intros a Ha [E|[]]. cbn in E. subst a.
           apply update_row_none in Hu. contradiction.
Qed.

Lemma table_names_in (k : nat) : k <= 7 -> In (language_name k) table_names.
Proof.
  intros H. unfold table_names. apply in_map. apply in_seq. lia.
Qed.

(** X19.  The laws of the table, for a file whose language indexes
    [languages] (at most 7) and a table whose names are names of its
    rows, which are different from one another.  The name looked up is
    one of them and the table stays such a table.
    [update_stats_callback] returns [CLOC_SUCCESS] or [CLOC_ERROR_LIMIT],
    the latter exactly when no row has the name and the table holds
    [CLOC_MAX_LANGUAGES] rows or more, and then the table is unchanged.
    On success the row of the name is the former row, or a fresh row of
    zeros, with the file added; the row found under any other name of
    [languages] is as before; the table has grown by at most the fresh
    row; its names stay different from one another and it stays within
    [CLOC_MAX_LANGUAGES] rows. *)
Theorem update_stats_callback_laws (fs : file_stats)
    (rows : list lang_stats.t) :
  language fs <= 7 ->
  incl (map lang_stats.name rows) table_names ->
  let n := language_name (language fs) in
  let code := fst (update_stats_callback fs rows) in
  let rows' := snd (update_stats_callback fs rows) in
  NoDup table_names /\
  In n table_names /\
  incl (map lang_stats.name rows') table_names /\
  (code = CLOC_SUCCESS \/ code = CLOC_ERROR_LIMIT) /\
  (code = CLOC_ERROR_LIMIT <->
   find_row n rows = None /\ CLOC_MAX_LANGUAGES <= List.length rows) /\
  (code = CLOC_ERROR_LIMIT -> rows' = rows) /\
  (code = CLOC_SUCCESS ->
   find_row n rows' =
     Some (add_file fs (match find_row n rows with
                        | Some row => row
                        | None => new_row n
                        end)) /\
   (forall m, In m table_names -> m <> n ->
              find_row m rows' = find_row m rows) /\
   List.length rows' =
     List.length rows +
     match find_row n rows with Some _ => 0 | None => 1 end) /\
  (List.length rows <= CLOC_MAX_LANGUAGES ->
   List.length rows' <= CLOC_MAX_LANGUAGES) /\
  (NoDup (map lang_stats.name rows) -> NoDup (map lang_stats.name rows')).
Proof.
  intros Hlang Hnames n code rows'.
  destruct (update_stats_callback_table fs rows)
    as (H1 & H2 & H3 & H4 & H5 & H6).
  fold n code rows' in H1, H2, H3, H4, H5, H6.
  split.
  { unfold table_names. cbv. repeat constructor; cbn;
      intuition discriminate. }
  split; [apply table_names_in; exact Hlang|].
  split.
  { subst rows' n. unfold update_stats_callback.
    destruct (update_row (language_name (language fs)) fs rows) as [rows1|] eqn:Hu.
    - destruct (find_row_update _ _ _ _ Hu) as (_ & _ & E). cbn [snd].
      rewrite E. exact Hnames.
    - destruct (CLOC_MAX_LANGUAGES <=? List.length rows); cbn [snd];
        [exact Hnames|].
      rewrite map_app. apply incl_app; [exact Hnames|].
      intros a [<- | []]. cbn. apply table_names_in. exact Hlang. }
  split; [exact H1|]. split; [exact H2|]. split; [exact H3|].
  split.
  { intros Hs. destruct (H4 Hs) as (Ha & Hb & Hc).
    split; [exact Ha|]. split; [|exact Hc].
    intros m _ Hm. apply Hb. exact Hm. }
  split; [exact H5 | exact H6].
Qed.

(** A file of C and the empty table. *)
Lemma update_stats_callback_laws_witness :
  fst (update_stats_callback (set_language CLOC_LANG_C init_file_stats) []) =
    CLOC_SUCCESS /\
  List.length
    (snd (update_stats_callback (set_language CLOC_LANG_C init_file_stats) [])) =
    1.
Proof.
  destruct (update_stats_callback_laws
              (set_language CLOC_LANG_C init_file_stats) [])
    as (_ & _ & _ & Hcode & Hlimit & _ & Hok & _).
  - cbv. lia.
  - intros a [].
  - cbn zeta in Hcode, Hlimit, Hok.
    assert (fst (update_stats_callback
                   (set_language CLOC_LANG_C init_file_stats) []) =
            CLOC_SUCCESS) as E.
    { destruct Hcode as [E | E]; [exact E|].
      apply Hlimit in E. destruct E as [_ E]. cbv in E. lia. }
    split; [exact E|]. destruct (Hok E) as (_ & _ & Hlen). exact Hlen.
Defined.

Lemma accepted_language (fs : file_stats) :
  accepted fs -> 1 <= language fs <= 7.
Proof.
  intros (file_path & f & H).
  destruct (process_file_spec file_path f)
    as (code & st & Hpf & _ & _ & _ & _ & _ & _ & Hok & _).
  rewrite Hpf in H. injection H as -> ->. apply Hok. reflexivity.
Qed.

Lemma row_names_in (k : nat) : 1 <= k <= 7 -> In (language_name k) row_names.
Proof.
  intros H. unfold row_names. apply in_map. apply in_seq. lia.
Qed.

Lemma table_ok_length (rows : list lang_stats.t) :
  table_ok rows -> List.length rows <= 7.
Proof.
  intros [Hnd Hincl].
  pose proof (NoDup_incl_length Hnd Hincl) as H.
  rewrite length_map in H. exact H.
Qed.

(** In the table of the program [update_stats_callback] never meets the
    limit. *)
Lemma update_stats_callback_ok : callback_ok update_stats_callback table_ok.
Proof.
  intros fs rows Hacc Hok.
  pose proof (accepted_language fs Hacc) as Hlang.
  pose proof (row_names_in (language fs) Hlang) as Hin.
  pose proof (table_ok_length rows Hok) as Hlen.
  destruct Hok as [Hnd Hincl].
  unfold update_stats_callback.
  destruct (update_row (language_name (language fs)) fs rows) as [rows1|] eqn:Hu.
  - destruct (find_row_update _ _ _ _ Hu) as (_ & _ & Hnames).
    cbn [fst snd]. split; [reflexivity|].
    unfold table_ok. rewrite Hnames. split; assumption.
  - replace (CLOC_MAX_LANGUAGES <=? List.length rows) with false
      by (symmetry; apply Nat.leb_gt; unfold CLOC_MAX_LANGUAGES; lia).
    cbn [fst snd]. split; [reflexivity|].
    unfold table_ok. rewrite map_app. cbn [map add_file new_row lang_stats.name].
    split.
    + apply NoDup_app; [exact Hnd | constructor; [intros [] | constructor] |].
      intros a Ha [E|[]]. subst a. apply update_row_none in Hu. contradiction.
    + apply incl_app; [exact Hincl|]. intros a [<-|[]]. exact Hin.
Qed.

Lemma table_ok_nil : table_ok [].
Proof. split; [constructor | intros a []]. Qed.

(** ** [main]: exit status and totals *)

Lemma main_arg_replay (arg : string * option node) (e : Z)
    (rows : list lang_stats.t) :
  table_ok rows ->
  exists e',
    main_arg arg (e, rows) =
      Done (e', replay update_stats_callback (files_of_arg arg) rows) /\
    Forall accepted (files_of_arg arg) /\
    ((e' = e /\ arg_succeeds arg) \/ (e' = 1%Z /\ ~ arg_succeeds arg)).
Proof.
  intros Hok. unfold main_arg, files_of_arg, arg_succeeds.
  destruct arg as [file_path st]. cbn [fst snd].
  assert (forall f,
            exists e',
              (r <- process_file file_path f ;;
               if (fst r =? CLOC_SUCCESS)%Z
               then Done (e, snd (update_stats_callback (snd r) rows))
               else Done (1%Z, rows)) =
              Done (e', replay update_stats_callback
                          match process_file file_path f with
                          | Done r => if (fst r =? CLOC_SUCCESS)%Z
                                      then [snd r] else []
                          | _ => []
                          end rows) /\
              Forall accepted
                match process_file file_path f with
                | Done r => if (fst r =? CLOC_SUCCESS)%Z then [snd r] else []
                | _ => []
                end /\
              ((e' = e /\
                exists st0, process_file file_path f = Done (CLOC_SUCCESS, st0)) \/
               (e' = 1%Z /\
                ~ exists st0, process_file file_path f = Done (CLOC_SUCCESS, st0))))
    as Hfile.
  { intros f. destruct (process_file_returns file_path f) as (c & fs & Hpf).
    rewrite Hpf. cbn [bind fst snd].
    destruct (c =? CLOC_SUCCESS)%Z eqn:Ec.
    - apply Z.eqb_eq in Ec. subst c. exists e. split; [reflexivity|]. split.
      + constructor; [|constructor]. exists file_path, f. exact Hpf.
      + left. eauto.
    - apply Z.eqb_neq in Ec. exists 1%Z. split; [reflexivity|].
      split; [constructor|]. right. split; [reflexivity|].
      intros [st0 H]. congruence. }
  destruct st as [[f | opens sub | f]|].
  - apply Hfile.
  - destruct (process_directory_replay (Directory opens sub) file_path)
      as (code & files & Hacc & Hlog & Hrun).
    unfold walked. rewrite (Hlog []). cbn [app snd].
    rewrite (Hrun _ update_stats_callback table_ok update_stats_callback_ok
               rows Hok).
    cbn [bind fst snd].
    destruct (code =? CLOC_SUCCESS)%Z eqn:Ec.
    + apply Z.eqb_eq in Ec. subst code. exists e. split; [reflexivity|].
      split; [exact Hacc|]. left. eauto.
    + apply Z.eqb_neq in Ec. exists 1%Z. split; [reflexivity|].
      split; [exact Hacc|]. right. split; [reflexivity|].
      intros [files' H]. congruence.
  - apply Hfile.
  - exists 1%Z. split; [reflexivity|]. split; [constructor|]. right. tauto.
Qed.

Lemma main_loop_replay (args : list (string * option node)) :
  forall e rows,
    table_ok rows -> e = 0%Z \/ e = 1%Z ->
    exists e',
      main_loop args (e, rows) =
        Done (e', replay update_stats_callback (main_files args) rows) /\
      Forall accepted (main_files args) /\
      (e' = 0%Z \/ e' = 1%Z) /\
      (e' = 0%Z <-> e = 0%Z /\ Forall arg_succeeds args).
Proof.
  induction args as [|arg args IH]; intros e rows Hok He.
  - exists e. split; [reflexivity|]. split; [constructor|].
    split; [exact He|]. split; [auto | tauto].
  - cbn [main_loop main_files flat_map].
    destruct (main_arg_replay arg e rows Hok) as (e1 & Harg & Hacc1 & Hcase).
    rewrite Harg. cbn [bind].
    destruct (IH e1 (replay update_stats_callback (files_of_arg arg) rows))
      as (e' & Hloop & Hacc & He' & Hiff).
    { apply (callback_ok_replay _ _ _ _ update_stats_callback_ok Hacc1 Hok). }
    { destruct Hcase as [[-> _] | [-> _]]; auto. }
    exists e'. split; [rewrite Hloop, replay_app; reflexivity|].
    split; [apply Forall_app; split; assumption|].
    split; [exact He'|].
    rewrite Hiff, Forall_cons_iff.
    destruct Hcase as [[-> Hs] | [-> Hs]]; [tauto|].
    split; [intros [H _]; discriminate | tauto].
Qed.

(** X22.  The exit status of [main] tells whether every argument went through.
    Without arguments, or when the table cannot be allocated, [main]
    returns 1.  Otherwise it returns 0 or 1, and 0 exactly when for every
    argument [stat] succeeds and, for a directory, the walk returns
    [CLOC_SUCCESS] (a code that depends on the tree alone), for anything
    else [process_file] does; and the table it prints is the one that
    results from handing [update_stats_callback] the accepted files of
    the arguments, in order. *)
Theorem main_exit_status :
  (forall calloc_ok, main calloc_ok [] = Done (1%Z, [])) /\
  (forall args, main false args = Done (1%Z, [])) /\
  (forall args,
     args <> [] ->
     exists exit_code,
       main true args =
         Done (exit_code, replay update_stats_callback (main_files args) []) /\
       Forall accepted (main_files args) /\
       (exit_code = 0%Z \/ exit_code = 1%Z) /\
       (exit_code = 0%Z <-> Forall arg_succeeds args)).
Proof.
  split; [reflexivity|]. split; [intros [|a args]; reflexivity|].
  intros args Hne. unfold main.
  destruct args as [|a args]; [contradiction|].
  destruct (main_loop_replay (a :: args) 0%Z [] table_ok_nil (or_introl eq_refl))
    as (e' & Hloop & Hacc & He' & Hiff).
  exists e'. split; [exact Hloop|]. split; [exact Hacc|].
  split; [exact He'|]. rewrite Hiff. tauto.
Qed.

(** On the sample directory and a file that cannot be opened. *)
Lemma main_exit_status_witness :
  exists exit_code,
    main true [("proj"%string, Some sample_dir);
               ("x.c"%string, Some (Regular (unreadable sample_source)))] =
      Done (exit_code,
            replay update_stats_callback
              (main_files [("proj"%string, Some sample_dir);
                           ("x.c"%string,
                            Some (Regular (unreadable sample_source)))]) []) /\
    (exit_code = 0%Z \/ exit_code = 1%Z).
Proof.
  destruct main_exit_status as (_ & _ & H).
  destruct (H [("proj"%string, Some sample_dir);
               ("x.c"%string, Some (Regular (unreadable sample_source)))])
    as (e & H1 & _ & H2 & _); [discriminate|].
  exists e. split; [exact H1 | exact H2].
Defined.

Lemma column_app (f : lang_stats.t -> N) (a b : list lang_stats.t) :
  column f (a ++ b) = (column f a + column f b)%N.
Proof.
  unfold column. induction a as [|r a IH]; cbn [app fold_right]; [lia|].
  rewrite IH. lia.
Qed.

Lemma add64_mod (x y : N) : (add64 x y mod 2 ^ 64 = (x + y) mod 2 ^ 64)%N.
Proof. unfold add64. apply N.Div0.mod_mod. Qed.

(** The totals of [print_stats] are the sums of the columns, modulo
    2^64. *)
Lemma fold_totals (rows : list lang_stats.t) :
  forall tf tc tm tb,
    (tf < 2 ^ 64 -> tc < 2 ^ 64 -> tm < 2 ^ 64 -> tb < 2 ^ 64 ->
     fold_left add_totals rows (tf, tc, tm, tb) =
       ((tf + column lang_stats.files rows) mod 2 ^ 64,
        (tc + column lang_stats.lines_code rows) mod 2 ^ 64,
        (tm + column lang_stats.lines_comment rows) mod 2 ^ 64,
        (tb + column lang_stats.lines_blank rows) mod 2 ^ 64))%N.
Proof.
  induction rows as [|r rows IH]; intros tf tc tm tb Hf Hc Hm Hb.
  - cbn [fold_left column fold_right]. rewrite !N.add_0_r.
    rewrite !N.mod_small by assumption. reflexivity.
  - cbn [fold_left add_totals column fold_right].
    rewrite IH by (unfold add64; apply N.mod_lt; discriminate).
    unfold add64. rewrite !N.Div0.add_mod_idemp_l.
    rewrite !N.add_assoc. reflexivity.
Qed.

Lemma column_mid (f : lang_stats.t -> N) (pre post : list lang_stats.t)
    (row : lang_stats.t) :
  column f (pre ++ row :: post) = (f row + (column f pre + column f post))%N.
Proof.
  rewrite column_app. unfold column at 2. cbn [fold_right].
  fold (column f post). lia.
Qed.

(** One file more in the table: the line columns grow by its counters,
    modulo 2^64, and the file column by one as long as it stays below
    2^32. *)
Lemma column_add_file (fs : file_stats) (pre post : list lang_stats.t)
    (row : lang_stats.t) :
  (column lang_stats.lines_code (pre ++ add_file fs row :: post) mod 2 ^ 64 =
   (column lang_stats.lines_code (pre ++ row :: post) + lines_code fs) mod 2 ^ 64
   /\
   column lang_stats.lines_comment (pre ++ add_file fs row :: post) mod 2 ^ 64 =
   (column lang_stats.lines_comment (pre ++ row :: post) + lines_comment fs)
     mod 2 ^ 64 /\
   column lang_stats.lines_blank (pre ++ add_file fs row :: post) mod 2 ^ 64 =
   (column lang_stats.lines_blank (pre ++ row :: post) + lines_blank fs)
     mod 2 ^ 64 /\
   (column lang_stats.files (pre ++ row :: post) + 1 < 2 ^ 32 ->
    column lang_stats.files (pre ++ add_file fs row :: post) =
    column lang_stats.files (pre ++ row :: post) + 1))%N.
Proof.
  rewrite !column_mid.
  cbn [add_file lang_stats.lines_code lang_stats.lines_comment
       lang_stats.lines_blank lang_stats.files].
  unfold add64.
  repeat split.
  - rewrite N.Div0.add_mod_idemp_l. f_equal. lia.
  - rewrite N.Div0.add_mod_idemp_l. f_equal. lia.
  - rewrite N.Div0.add_mod_idemp_l. f_equal. lia.
  - intros H. rewrite incr32_small by lia. lia.
Qed.

Lemma update_columns (fs : file_stats) (rows : list lang_stats.t) :
  accepted fs -> table_ok rows ->
  let rows' := snd (update_stats_callback fs rows) in
  (column lang_stats.lines_code rows' mod 2 ^ 64 =
   (column lang_stats.lines_code rows + lines_code fs) mod 2 ^ 64 /\
   column lang_stats.lines_comment rows' mod 2 ^ 64 =
   (column lang_stats.lines_comment rows + lines_comment fs) mod 2 ^ 64 /\
   column lang_stats.lines_blank rows' mod 2 ^ 64 =
   (column lang_stats.lines_blank rows + lines_blank fs) mod 2 ^ 64 /\
   (column lang_stats.files rows + 1 < 2 ^ 32 ->
    column lang_stats.files rows' = column lang_stats.files rows + 1))%N.
Proof.
  intros Hacc Hok rows'. subst rows'.
  pose proof (table_ok_length rows Hok) as Hlen.
  unfold update_stats_callback.
  destruct (update_row (language_name (language fs)) fs rows) as [rows1|] eqn:Hu.
  - apply update_row_some in Hu.
    destruct Hu as (pre & row & post & -> & -> & _ & _).
    cbn [snd]. apply column_add_file.
  - replace (CLOC_MAX_LANGUAGES <=? List.length rows) with false
      by (symmetry; apply Nat.leb_gt; unfold CLOC_MAX_LANGUAGES; lia).
    cbn [snd].
    pose proof (column_add_file fs rows [] (new_row (language_name (language fs))))
      as H.
    rewrite !(column_mid _ rows [] (new_row _)) in H.
    cbn [new_row lang_stats.lines_code lang_stats.lines_comment
         lang_stats.lines_blank lang_stats.files column fold_right] in H.
    rewrite !N.add_0_l, !N.add_0_r in H. exact H.
Qed.

Lemma replay_columns (files : list file_stats) :
  Forall accepted files ->
  forall rows,
    table_ok rows ->
    let rows' := replay update_stats_callback files rows in
    (column lang_stats.lines_code rows' mod 2 ^ 64 =
     (column lang_stats.lines_code rows + sum_files lines_code files) mod 2 ^ 64
     /\
     column lang_stats.lines_comment rows' mod 2 ^ 64 =
     (column lang_stats.lines_comment rows + sum_files lines_comment files)
       mod 2 ^ 64 /\
     column lang_stats.lines_blank rows' mod 2 ^ 64 =
     (column lang_stats.lines_blank rows + sum_files lines_blank files)
       mod 2 ^ 64 /\
     (column lang_stats.files rows + N.of_nat (List.length files) < 2 ^ 32 ->
      column lang_stats.files rows' =
      column lang_stats.files rows + N.of_nat (List.length files)))%N.
Proof.
  induction 1 as [|fs files Hfs _ IH]; intros rows Hok rows'; subst rows'.
  - cbn [replay fold_left sum_files fold_right List.length N.of_nat].
    rewrite !N.add_0_r. auto.
  - change (replay update_stats_callback (fs :: files) rows)
      with (replay update_stats_callback files
              (snd (update_stats_callback fs rows))).
    destruct (update_stats_callback_ok fs rows Hfs Hok) as [_ Hok'].
    destruct (update_columns fs rows Hfs Hok) as (Hc & Hm & Hb & Hf).
    destruct (IH _ Hok') as (Hc' & Hm' & Hb' & Hf').
    cbn [sum_files fold_right].
    fold (sum_files lines_code files). fold (sum_files lines_comment files).
    fold (sum_files lines_blank files).
    split; [|split; [|split]].
    + rewrite Hc', <- N.Div0.add_mod_idemp_l, Hc, N.Div0.add_mod_idemp_l.
      f_equal. lia.
    + rewrite Hm', <- N.Div0.add_mod_idemp_l, Hm, N.Div0.add_mod_idemp_l.
      f_equal. lia.
    + rewrite Hb', <- N.Div0.add_mod_idemp_l, Hb, N.Div0.add_mod_idemp_l.
      f_equal. lia.
    + intros Hsmall. cbn [List.length] in Hsmall.
      assert (column lang_stats.files rows + 1 < 2 ^ 32)%N as H1 by lia.
      specialize (Hf H1). rewrite Hf in Hf'. rewrite Hf' by lia.
      cbn [List.length]. lia.
Qed.

(** X23.  The line of totals that [main] prints.  With at least one argument
    and the table allocated, [main] prints one line per row of the table
    and a line of totals whose code, comment and blank numbers are the
    sums, modulo 2^64, of the counters of the files accepted along the
    arguments, whose last number is their sum modulo 2^64, and whose
    first number is the number of those files when it is below 2^32. *)
Theorem main_prints_the_sums (args : list (string * option node)) :
  args <> [] ->
  exists exit_code lines tf tc tm tb tt,
    main_report true args =
      Done (exit_code, Some (lines, (tf, tc, tm, tb, tt))) /\
    lines = map print_row (replay update_stats_callback (main_files args) []) /\
    (tc = sum_files lines_code (main_files args) mod 2 ^ 64 /\
     tm = sum_files lines_comment (main_files args) mod 2 ^ 64 /\
     tb = sum_files lines_blank (main_files args) mod 2 ^ 64 /\
     tt = (tc + tm + tb) mod 2 ^ 64 /\
     (N.of_nat (List.length (main_files args)) < 2 ^ 32 ->
      tf = N.of_nat (List.length (main_files args))))%N.
Proof.
  intros Hne. unfold main_report, main.
  destruct args as [|a args]; [contradiction|].
  destruct (main_loop_replay (a :: args) 0%Z [] table_ok_nil (or_introl eq_refl))
    as (e' & Hloop & Hacc & _ & _).
  rewrite Hloop. cbn [bind fst snd print_stats].
  set (files := main_files (a :: args)) in *.
  set (rows := replay update_stats_callback files []).
  rewrite (fold_totals rows 0 0 0 0)%N by (cbv; reflexivity).
  rewrite !N.add_0_l.
  destruct (replay_columns files Hacc [] table_ok_nil) as (Hc & Hm & Hb & Hf).
  fold rows in Hc, Hm, Hb, Hf.
  cbn [column fold_right] in Hc, Hm, Hb, Hf. rewrite !N.add_0_l in *.
  do 7 eexists. split; [reflexivity|]. split; [reflexivity|].
  split; [exact Hc|]. split; [exact Hm|]. split; [exact Hb|]. split.
  - unfold add64. rewrite N.Div0.add_mod_idemp_l. reflexivity.
  - intros Hsmall. rewrite (Hf Hsmall). apply N.mod_small.
    apply N.lt_trans with (2 ^ 32)%N; [exact Hsmall | reflexivity].
Qed.

(** On the sample directory. *)
Lemma main_prints_the_sums_witness :
  exists exit_code lines tf tc tm tb tt,
    main_report true [("proj"%string, Some sample_dir)] =
      Done (exit_code, Some (lines, (tf, tc, tm, tb, tt))) /\
    tc = (sum_files lines_code (main_files [("proj"%string, Some sample_dir)])
          mod 2 ^ 64)%N.
Proof.
  destruct (main_prints_the_sums [("proj"%string, Some sample_dir)])
    as (e & lines & tf & tc & tm & tb & tt & H1 & _ & H2 & _); [discriminate|].
  exists e, lines, tf, tc, tm, tb, tt. split; [exact H1 | exact H2].
Defined.


(** ** What a walk does, whatever its callback *)

(** X15.  [process_directory] and its callback.  The walk with the logging
    callback fixes a code, [CLOC_SUCCESS] or [CLOC_ERROR_IO], and a list
    of files.  With a NULL callback the walk returns that code.  With a
    callback, the files are handed to it in turn up to the first one it
    does not return 0 for: the walk stops there and returns
    [CLOC_ERROR_ARG], from whatever depth; when the callback returns 0
    throughout, the walk returns the code of the logging walk. *)
Theorem walk_feeds_its_callback (path : string) (n : node) :
  exists code files,
    walked path n = Done (code, files) /\
    (code = CLOC_SUCCESS \/ code = CLOC_ERROR_IO) /\
    (forall (G : Type) (g : G),
       process_directory None path n g = Done (code, g)) /\
    (forall (G : Type) (cb : file_stats -> G -> Z * G) (g : G),
       process_directory (Some cb) path n g =
         Done (if fst (feed cb files g) then code else CLOC_ERROR_ARG,
               snd (feed cb files g))).
Proof.
  destruct (process_directory_walk n path)
    as (code & files & Hcode & _ & Hnull & Hcb).
  exists code, files. split.
  - unfold walked. rewrite Hcb, feed_log. reflexivity.
  - split; [exact Hcode|]. split; [exact Hnull | exact Hcb].
Qed.

Lemma substring_length (s : string) (n : nat) :
  String.length (substring 0 n s) <= n.
Proof.
  revert n. induction s as [|c s IH]; intros [|n]; cbn; try lia.
  specialize (IH n). lia.
Qed.

(** X16.  The files of a walk carry their whole path.  Every file handed to
    the callback was accepted by [process_file] under a path below the
    directory walked, made of the names on the way joined by slashes; the
    path is shorter than [CLOC_MAX_PATH] and [stats->path] holds all of
    it, and the language is one of the seven of the table. *)
Theorem walked_paths_are_whole (root : string) (n : node) :
  exists code files,
    walked root n = Done (code, files) /\
    Forall (fun fs =>
              exists file_path f,
                below root file_path /\
                String.length file_path < CLOC_MAX_PATH /\
                process_file file_path f = Done (CLOC_SUCCESS, fs) /\
                path fs = file_path /\
                1 <= language fs <= 7) files.
Proof.
  destruct (process_directory_walk n root)
    as (code & files & _ & Hrep & _ & Hcb).
  exists code, files. split.
  - unfold walked. rewrite Hcb, feed_log. reflexivity.
  - revert Hrep. apply Forall_impl. intros fs (q & f & Hb & Hpf & Hp).
    exists q, f. split; [exact Hb|].
    destruct (process_file_spec q f)
      as (c & st & Hpf' & _ & _ & _ & Hpath & _ & _ & Hok & _).
    rewrite Hpf in Hpf'. injection Hpf' as <- <-.
    split.
    + rewrite <- Hp at 1. rewrite Hpath.
      pose proof (substring_length q 4095). unfold CLOC_MAX_PATH. lia.
    + split; [exact Hpf|]. split; [exact Hp|]. apply Hok. reflexivity.
Qed.

(** X21.  In the program the limit of the table is never met.  On a table
    whose rows have different names, all among the seven names
    [update_stats_callback] can look up, the callback takes every file
    [process_file] accepts and keeps such a table, which has at most
    seven rows; so [process_directory] returns [CLOC_SUCCESS] or
    [CLOC_ERROR_IO] with it, never [CLOC_ERROR_ARG], and the table
    [main] prints is such a table. *)
Theorem limit_is_never_met :
  (forall fs rows,
     accepted fs -> table_ok rows ->
     fst (update_stats_callback fs rows) = CLOC_SUCCESS /\
     table_ok (snd (update_stats_callback fs rows))) /\
  (forall rows,
     table_ok rows ->
     List.length rows <= 7 /\ List.length rows < CLOC_MAX_LANGUAGES) /\
  (forall path n rows,
     table_ok rows ->
     exists code rows',
       process_directory (Some update_stats_callback) path n rows =
         Done (code, rows') /\
       (code = CLOC_SUCCESS \/ code = CLOC_ERROR_IO) /\
       table_ok rows') /\
  (forall calloc_ok args,
     exists exit_code rows,
       main calloc_ok args = Done (exit_code, rows) /\ table_ok rows).
Proof.
  split; [exact update_stats_callback_ok|].
  split.
  { intros rows H. pose proof (table_ok_length rows H).
    unfold CLOC_MAX_LANGUAGES. lia. }
  split.
  - intros path n rows Hok.
    destruct (process_directory_walk n path)
      as (code & files & Hcode & Hrep & _ & Hcb).
    assert (Forall accepted files) as Hacc.
    { revert Hrep. apply Forall_impl. intros fs. apply reported_accepted. }
    exists code, (replay update_stats_callback files rows).
    rewrite Hcb.
    rewrite (feed_ok update_stats_callback table_ok files rows
               update_stats_callback_ok Hacc Hok).
    split; [reflexivity|]. split; [exact Hcode|].
    apply (callback_ok_replay update_stats_callback table_ok files rows
             update_stats_callback_ok Hacc Hok).
  - intros calloc_ok args. unfold main.
    destruct args as [|arg args].
    { exists 1%Z, []. split; [reflexivity | exact table_ok_nil]. }
    destruct calloc_ok.
    2:{ exists 1%Z, []. split; [reflexivity | exact table_ok_nil]. }
    destruct (main_loop_replay (arg :: args) 0%Z [] table_ok_nil
                (or_introl eq_refl)) as (e & Hrun & Hacc & _).
    exists e, (replay update_stats_callback (main_files (arg :: args)) []).
    split; [exact Hrun|].
    apply (callback_ok_replay update_stats_callback table_ok _ []
             update_stats_callback_ok Hacc table_ok_nil).
Qed.

(** ** Entries a walk passes over, and what stops it *)

Section WalkSkips.

Variable G : Type.
Variable callback : option (file_stats -> G -> Z * G).
Variable walk : string -> node -> G -> outcome (Z * G).
Variable path : string.

Lemma readdir_loop_skip (d_name : string) (st : option node)
    (rest : list (string * option node)) (g : G) :
  hidden d_name = true \/ too_long path d_name = true \/
  (exists f, st = Some (Special f)) ->
  readdir_loop callback walk path ((d_name, st) :: rest) g =
  readdir_loop callback walk path rest g.
Proof.
  intros H. cbn [readdir_loop].
  destruct (hidden d_name); [reflexivity|].
  destruct (too_long path d_name); [reflexivity|].
  destruct H as [H | [H | [f ->]]]; try discriminate. reflexivity.
Qed.

(** An entry on which the loop ends with an error ends it whatever
    follows. *)
Lemma readdir_loop_stop (e : string * option node)
    (post : list (string * option node)) (g : G) (r : Z * G) :
  readdir_loop callback walk path [e] g = Done r ->
  fst r <> CLOC_SUCCESS ->
  readdir_loop callback walk path (e :: post) g = Done r.
Proof.
  destruct e as [d_name st]. cbn [readdir_loop]. intros H Hne.
  assert (forall g', Done (CLOC_SUCCESS, g') = Done r -> False) as Hno.
  { intros g' E. injection E as <-. apply Hne. reflexivity. }
  destruct (hidden d_name); [destruct (Hno _ H)|].
  destruct (too_long path d_name); [destruct (Hno _ H)|].
  destruct st as [[f | opens sub | f]|]; try (destruct (Hno _ H); fail).
  - destruct (process_file (full_path path d_name) f) as [r0| |];
      cbn [bind] in *; try discriminate.
    destruct (fst r0 =? CLOC_SUCCESS)%Z; [|destruct (Hno _ H)].
    destruct callback as [cb|]; [|destruct (Hno _ H)].
    destruct (cb (snd r0) g) as [c g'].
    destruct (c =? 0)%Z; [destruct (Hno _ H) | exact H].
  - destruct (walk (full_path path d_name) (Directory opens sub) g) as [r1| |];
      cbn [bind] in *; try discriminate.
    destruct (fst r1 =? CLOC_SUCCESS)%Z; [destruct (Hno _ H) | exact H].
Qed.

End WalkSkips.

Lemma hidden_spec (d_name : string) :
  hidden d_name = true <-> exists rest, d_name = String "."%char rest.
Proof.
  unfold hidden. destruct d_name as [|c rest].
  - cbn. split; [discriminate | intros [r H]; discriminate].
  - destruct (Ascii.eqb c "."%char) eqn:E.
    + apply Ascii.eqb_eq in E. subst c. cbn [orb].
      split; [eauto | reflexivity].
    + cbn [orb]. split.
      * intros H. apply String.eqb_eq in H. injection H as -> _.
        discriminate.
      * intros [r H]. injection H as -> _. discriminate.
Qed.

(** X17.  What a walk does not look at.  An entry is hidden exactly when its
    name starts with a dot.  A hidden entry, an entry whose path would
    not fit [CLOC_MAX_PATH], and an entry that is neither a directory
    nor a regular file change nothing: [process_directory] returns what
    it returns on the directory without the entry, whatever the entry is
    (a hidden directory is not entered, even one that cannot be read).
    As an argument of [main], a file that is not regular is processed
    as a regular one. *)
Theorem ignored_entries_change_nothing :
  (forall d_name,
     hidden d_name = true <-> exists rest, d_name = String "."%char rest) /\
  (forall (G : Type) (callback : option (file_stats -> G -> Z * G))
          path d_name st pre post g,
     hidden d_name = true \/ too_long path d_name = true \/
     (exists f, st = Some (Special f)) ->
     process_directory callback path
       (Directory true (pre ++ (d_name, st) :: post)) g =
     process_directory callback path (Directory true (pre ++ post)) g) /\
  (forall file_path f acc,
     main_arg (file_path, Some (Special f)) acc =
     main_arg (file_path, Some (Regular f)) acc).
Proof.
  split; [exact hidden_spec|]. split.
  - intros G callback path d_name st pre post g H. cbn [process_directory].
    apply readdir_loop_app. intros g'. apply readdir_loop_skip. exact H.
  - intros file_path f [e g]. reflexivity.
Qed.

(** The loop over entries that ends on an error at its last entry. *)
Lemma readdir_loop_fails_at (G : Type)
    (callback : option (file_stats -> G -> Z * G)) (path : string)
    (e : string * option node) (pre : list (string * option node)) :
  (forall g, exists r,
     readdir_loop callback (process_directory callback) path [e] g = Done r /\
     fst r <> CLOC_SUCCESS) ->
  forall g, exists r,
    readdir_loop callback (process_directory callback) path (pre ++ [e]) g =
      Done r /\
    fst r <> CLOC_SUCCESS.
Proof.
  intros He. induction pre as [|[d_name st] pre IH]; intros g; [apply He|].
  cbn [app readdir_loop].
  destruct (hidden d_name); [apply IH|].
  destruct (too_long path d_name); [apply IH|].
  destruct st as [[f | opens sub | f]|]; try apply IH.
  - destruct (process_file_returns (full_path path d_name) f) as (c & fs & Hpf).
    rewrite Hpf. cbn [bind fst snd].
    destruct (c =? CLOC_SUCCESS)%Z; [|apply IH].
    destruct callback as [cb|]; [|apply IH].
    destruct (cb fs g) as [c0 g'].
    destruct (c0 =? 0)%Z; [apply IH|].
    eexists. split; [reflexivity | discriminate].
  - destruct (process_directory_walk (Directory opens sub) (full_path path d_name))
      as (code & files & _ & _ & Hnull & Hcb).
    assert (exists r,
              process_directory callback (full_path path d_name)
                (Directory opens sub) g = Done r) as [r Hr].
    { destruct callback as [cb|]; [rewrite Hcb | rewrite Hnull]; eauto. }
    rewrite Hr. cbn [bind].
    destruct (fst r =? CLOC_SUCCESS)%Z eqn:E; [apply IH|].
    exists r. split; [reflexivity|]. apply Z.eqb_neq. exact E.
Qed.

(** X18.  A directory that fails stops the walk above it.  When the walk of
    a subdirectory returns an error (as it does when [opendir] fails on
    it), the loop over the entries of its parent ends there: the entries
    [readdir] returns after it are not looked at, and the walk of the
    parent returns an error as well, so that the failure reaches the
    caller from any depth.  The entries before it have been handed to
    the callback. *)
Theorem failed_subdirectory_stops_the_walk (G : Type)
    (callback : option (file_stats -> G -> Z * G))
    (path d_name : string) (opens : bool)
    (sub pre post : list (string * option node)) :
  hidden d_name = false -> too_long path d_name = false ->
  (forall g, exists code g',
     process_directory callback (full_path path d_name) (Directory opens sub) g =
       Done (code, g') /\
     code <> CLOC_SUCCESS) ->
  (forall g,
     process_directory callback path
       (Directory true (pre ++ (d_name, Some (Directory opens sub)) :: post)) g =
     process_directory callback path
       (Directory true (pre ++ [(d_name, Some (Directory opens sub))])) g) /\
  (forall g, exists code g',
     process_directory callback path
       (Directory true (pre ++ (d_name, Some (Directory opens sub)) :: post)) g =
       Done (code, g') /\
     code <> CLOC_SUCCESS).
Proof.
  intros Hh Hl Hsub.
  assert (forall g, exists r,
            readdir_loop callback (process_directory callback) path
              [(d_name, Some (Directory opens sub))] g = Done r /\
            fst r <> CLOC_SUCCESS) as Hone.
  { intros g. cbn [readdir_loop]. rewrite Hh, Hl.
    destruct (Hsub g) as (code & g' & Hrun & Hne).
    rewrite Hrun. cbn [bind fst].
    assert ((code =? CLOC_SUCCESS)%Z = false) as E by (apply Z.eqb_neq; exact Hne).
    rewrite E. exists (code, g'). split; [reflexivity | exact Hne]. }
  assert (forall g,
            readdir_loop callback (process_directory callback) path
              (pre ++ (d_name, Some (Directory opens sub)) :: post) g =
            readdir_loop callback (process_directory callback) path
              (pre ++ [(d_name, Some (Directory opens sub))]) g) as Hcut.
  { apply readdir_loop_app. intros g.
    destruct (Hone g) as (r & Hr & Hne). rewrite Hr.
    apply readdir_loop_stop; assumption. }
  split.
  - intros g. cbn [process_directory]. apply Hcut.
  - intros g. cbn [process_directory]. rewrite Hcut.
    destruct (readdir_loop_fails_at G callback path _ pre Hone g)
      as ([code g'] & Hr & Hne).
    exists code, g'. split; assumption.
Qed.

(** A directory that cannot be opened, after one file and before
    another. *)
Lemma failed_subdirectory_stops_the_walk_witness :
  exists code files,
    process_directory (Some log_callback) "proj"
      (Directory true
         ([("main.c"%string, Some (Regular (readable sample_source)))] ++
          ("locked"%string, Some (Directory false [])) ::
          [("util.c"%string, Some (Regular (readable sample_source)))])) [] =
      Done (code, files) /\
    code <> CLOC_SUCCESS.
Proof.
  apply (failed_subdirectory_stops_the_walk (list file_stats)
           (Some log_callback) "proj" "locked" false []
           [("main.c"%string, Some (Regular (readable sample_source)))]
           [("util.c"%string, Some (Regular (readable sample_source)))]).
  - reflexivity.
  - reflexivity.
  - intros g. exists CLOC_ERROR_IO, g. split; [reflexivity | discriminate].
Defined.

(** ** The remaining entry points *)

Lemma copy_rows_languages (max_langs : nat) :
  copy_rows languages max_langs = firstn max_langs languages.
Proof.
  do 8 (destruct max_langs as [|max_langs]; [reflexivity|]). reflexivity.
Qed.

(** X25.  [get_supported_languages] fills a prefix of the table.  It returns
    -1, writing nothing, exactly when [syntax] is NULL or [max_langs] is
    0.  Otherwise it returns the smaller of [max_langs] and 7 and writes
    that many rows, the first rows of the table in order: never more
    than [max_langs] rows, and never the sentinel. *)
Theorem get_supported_languages_fills_a_prefix (syntax : bool) (max_langs : nat) :
  (fst (get_supported_languages syntax max_langs) = (-1)%Z <->
   syntax = false \/ max_langs = 0) /\
  (fst (get_supported_languages syntax max_langs) = (-1)%Z ->
   snd (get_supported_languages syntax max_langs) = []) /\
  (fst (get_supported_languages syntax max_langs) <> (-1)%Z ->
   fst (get_supported_languages syntax max_langs) =
     Z.of_nat (Nat.min max_langs 7) /\
   snd (get_supported_languages syntax max_langs) = firstn max_langs languages /\
   List.length (snd (get_supported_languages syntax max_langs)) <= max_langs /\
   Forall (fun lang => name lang <> None)
     (snd (get_supported_languages syntax max_langs))).
Proof.
  unfold get_supported_languages. rewrite copy_rows_languages.
  assert (List.length (firstn max_langs languages) = Nat.min max_langs 7) as Hlen.
  { rewrite length_firstn. reflexivity. }
  destruct syntax; cbn [negb orb].
  - destruct max_langs as [|m]; cbn [Nat.eqb fst snd].
    + split; [split; auto|]. split; [reflexivity|]. intros H. contradiction.
    + rewrite Hlen. split.
      { split; [lia|]. intros [H | H]; discriminate. }
      split; [lia|]. intros _. split; [reflexivity|]. split; [reflexivity|].
      split; [lia|].
      apply Forall_forall. intros lang Hin.
      assert (In lang languages) as Hin'.
      { rewrite <- (firstn_skipn (S m) languages). apply in_or_app. left.
        exact Hin. }
      clear Hin. rename Hin' into Hin.
      unfold languages in Hin. cbn [In] in Hin.
      destruct Hin as [<-|[<-|[<-|[<-|[<-|[<-|[<-|[]]]]]]]]; discriminate.
  - cbn [fst snd]. split; [split; auto|]. split; [reflexivity|].
    intros H. contradiction.
Qed.

(** X26.  Every error code has a message.  [cloc_strerror] gives different
    messages for the five codes of cloc.h and the message for an unknown
    error for every other number; the codes [process_file],
    [process_directory] with any callback, and [update_stats_callback]
    return are among the five. *)
Theorem error_codes_are_named :
  (forall a b,
     cloc_strerror a = cloc_strerror b ->
     a = b \/ cloc_strerror a = "Unknown error"%string) /\
  (forall a,
     cloc_strerror a = "Unknown error"%string <->
     ~ In a [CLOC_SUCCESS; CLOC_ERROR_IO; CLOC_ERROR_MEM; CLOC_ERROR_ARG;
             CLOC_ERROR_LIMIT]) /\
  (forall file_path f,
     exists code st,
       process_file file_path f = Done (code, st) /\
       cloc_strerror code <> "Unknown error"%string) /\
  (forall (G : Type) (callback : option (file_stats -> G -> Z * G)) dir n g,
     exists code g',
       process_directory callback dir n g = Done (code, g') /\
       cloc_strerror code <> "Unknown error"%string) /\
  (forall fs rows,
     cloc_strerror (fst (update_stats_callback fs rows)) <>
     "Unknown error"%string).
Proof.
  assert (forall a,
            (a = CLOC_SUCCESS /\ cloc_strerror a = "Success"%string) \/
            (a = CLOC_ERROR_IO /\ cloc_strerror a = "I/O error"%string) \/
            (a = CLOC_ERROR_MEM /\
             cloc_strerror a = "Memory allocation failed"%string) \/
            (a = CLOC_ERROR_ARG /\ cloc_strerror a = "Invalid argument"%string) \/
            (a = CLOC_ERROR_LIMIT /\
             cloc_strerror a = "Internal limit reached"%string) \/
            (~ In a [CLOC_SUCCESS; CLOC_ERROR_IO; CLOC_ERROR_MEM; CLOC_ERROR_ARG;
                     CLOC_ERROR_LIMIT] /\
             cloc_strerror a = "Unknown error"%string)) as Hcases.
  { intros a. unfold cloc_strerror.
    destruct (a =? CLOC_SUCCESS)%Z eqn:E0.
    { apply Z.eqb_eq in E0. left. split; [exact E0 | reflexivity]. }
    destruct (a =? CLOC_ERROR_IO)%Z eqn:E1.
    { apply Z.eqb_eq in E1. right; left. split; [exact E1 | reflexivity]. }
    destruct (a =? CLOC_ERROR_MEM)%Z eqn:E2.
    { apply Z.eqb_eq in E2. do 2 right; left. split; [exact E2 | reflexivity]. }
    destruct (a =? CLOC_ERROR_ARG)%Z eqn:E3.
    { apply Z.eqb_eq in E3. do 3 right; left. split; [exact E3 | reflexivity]. }
    destruct (a =? CLOC_ERROR_LIMIT)%Z eqn:E4.
    { apply Z.eqb_eq in E4. do 4 right; left. split; [exact E4 | reflexivity]. }
    apply Z.eqb_neq in E0, E1, E2, E3, E4.
    do 5 right. split; [|reflexivity]. cbn [In]. intuition congruence. }
  split.
  { intros a b H.
    destruct (Hcases a) as [[-> Ha]|[[-> Ha]|[[-> Ha]|[[-> Ha]|[[-> Ha]|[_ Ha]]]]]];
      try (right; exact Ha);
      destruct (Hcases b) as [[-> Hb]|[[-> Hb]|[[-> Hb]|[[-> Hb]|[[-> Hb]|[_ Hb]]]]]];
      try (left; reflexivity); rewrite Ha, Hb in H; discriminate. }
  split.
  { intros a.
    destruct (Hcases a) as [[-> Ha]|[[-> Ha]|[[-> Ha]|[[-> Ha]|[[-> Ha]|[Hn Ha]]]]]];
      try (split; [intros H; rewrite Ha in H; discriminate
                  | intros H; exfalso; apply H; cbn [In]; auto 6]).
    split; [intros _; exact Hn | intros _; exact Ha]. }
  split.
  { intros file_path f.
    destruct (process_file_spec file_path f)
      as (code & st & Hpf & _ & _ & Hcode & _).
    exists code, st. split; [exact Hpf|].
    destruct Hcode as [-> | [-> | ->]]; discriminate. }
  split.
  { intros G callback dir n g.
    destruct (process_directory_walk n dir)
      as (code & files & Hcode & _ & Hnull & Hcb).
    destruct callback as [cb|].
    - rewrite Hcb. eexists _, _. split; [reflexivity|].
      destruct (fst (feed cb files g)); [|discriminate].
      destruct Hcode as [-> | ->]; discriminate.
    - rewrite Hnull. eexists _, _. split; [reflexivity|].
      destruct Hcode as [-> | ->]; discriminate. }
  intros fs rows. unfold update_stats_callback.
  destruct (update_row (language_name (language fs)) fs rows);
    [discriminate|].
  destruct (CLOC_MAX_LANGUAGES <=? List.length rows); discriminate.
Qed.

Lemma mod64_mod32 (x : N) : ((x mod 2 ^ 64) mod 2 ^ 32 = x mod 2 ^ 32)%N.
Proof.
  change (2 ^ 64)%N with (2 ^ 32 * 2 ^ 32)%N.
  rewrite N.Div0.mod_mul_r, N.mul_comm, N.Div0.mod_add.
  apply N.Div0.mod_mod.
Qed.

(** X24.  The lines [print_stats] writes.  It returns -1, writing no numbers,
    when [stats] or [stream] is NULL, and 0 otherwise, after a line for
    every row, in order.  Each number of a row is the counter reduced
    modulo 2^32 (the conversion to [unsigned]), and the last one is the
    sum of the three numbers before it modulo 2^32; the numbers are the
    counters themselves, and their sum, when the three counters add up to
    less than 2^32. *)
Theorem print_stats_rows (rows : list lang_stats.t) :
  (forall stream, print_stats None stream = ((-1)%Z, None)) /\
  print_stats (Some rows) false = ((-1)%Z, None) /\
  exists totals,
    print_stats (Some rows) true = (0%Z, Some (map print_row rows, totals)) /\
    List.length (map print_row rows) = List.length rows /\
    Forall (fun row =>
              let '(n, (f, c, m, b, t)) := print_row row in
              n = lang_stats.name row /\
              f = (lang_stats.files row mod 2 ^ 32)%N /\
              c = (lang_stats.lines_code row mod 2 ^ 32)%N /\
              m = (lang_stats.lines_comment row mod 2 ^ 32)%N /\
              b = (lang_stats.lines_blank row mod 2 ^ 32)%N /\
              t = ((c + m + b) mod 2 ^ 32)%N /\
              ((lang_stats.lines_code row + lang_stats.lines_comment row +
                lang_stats.lines_blank row < 2 ^ 32)%N ->
               c = lang_stats.lines_code row /\
               m = lang_stats.lines_comment row /\
               b = lang_stats.lines_blank row /\
               t = (c + m + b)%N)) rows.
Proof.
  split; [reflexivity|]. split; [reflexivity|].
  unfold print_stats.
  destruct (fold_left add_totals rows (0, 0, 0, 0)%N) as [[[tf tc] tm] tb].
  eexists. split; [reflexivity|]. split; [apply length_map|].
  apply Forall_forall. intros row _. unfold print_row, to_unsigned, add64.
  set (c := lang_stats.lines_code row).
  set (m := lang_stats.lines_comment row).
  set (b := lang_stats.lines_blank row).
  assert ((((c + m) mod 2 ^ 64 + b) mod 2 ^ 64) mod 2 ^ 32 =
          (c mod 2 ^ 32 + m mod 2 ^ 32 + b mod 2 ^ 32) mod 2 ^ 32)%N as Ht.
  { rewrite mod64_mod32.
    rewrite (N.Div0.add_mod ((c + m) mod 2 ^ 64) b).
    rewrite mod64_mod32.
    rewrite <- (N.Div0.add_mod (c + m) b).
    rewrite (N.Div0.add_mod (c mod 2 ^ 32 + m mod 2 ^ 32) (b mod 2 ^ 32)).
    rewrite <- (N.Div0.add_mod c m).
    rewrite N.Div0.mod_mod.
    rewrite <- (N.Div0.add_mod (c + m) b). reflexivity. }
  repeat (split; [reflexivity|]). split; [exact Ht|].
  intros Hsmall.
  rewrite Ht, !N.mod_small by lia.
  repeat split; reflexivity.
Qed.

(** ** One buffer inside another *)

Lemma set_size_classify (s t : scan) :
  in_line_comment t = in_line_comment s ->
  in_block_comment t = in_block_comment s ->
  has_code t = has_code s ->
  set_size 0 (stats t) = set_size 0 (stats s) ->
  set_size 0 (classify_line t) = set_size 0 (classify_line s).
Proof.
  intros Hl Hb Hc Hs. unfold classify_line. rewrite Hl, Hb, Hc.
  unfold set_size in Hs. injection Hs as E1 E2 E3 E4 E5 E6.
  destruct (in_line_comment s), (in_block_comment s), (has_code s);
    unfold set_size, incr_comment, incr_code, incr_blank; cbn;
    rewrite E1, E2, E3, E4, E5, E6; reflexivity.
Qed.

Section Simulation.

Variables big small : list byte.
Variable k : nat.
Variable lang : lang_syntax.

Hypothesis sim_length : List.length small + k <= List.length big.
Hypothesis sim_read :
  forall i, i < List.length small -> read big (i + k) = read small i.
Hypothesis sim_eol :
  forall i c, nth_error small i = Some c ->
    Byte.eqb c nl || (i + k =? List.length big - 1) =
    Byte.eqb c nl || (i =? List.length small - 1).
Hypothesis sim_prev :
  forall i, 1 <= i <= List.length small ->
    read_prev big (i + k) = read_prev small i.
Hypothesis sim_marker :
  forall i m, i < List.length small ->
    m = block_start lang \/ m = block_end lang \/ m = line_comment lang ->
    marker_at big (i + k) m = marker_at small i m.

Lemma shifted_end_of_line (s t : scan) :
  shifted k s t -> shifted k (end_of_line s) (end_of_line t).
Proof.
  intros [Hp Hb Hl Hc Hs Hch Hst]. constructor; cbn; try assumption; try lia.
  apply set_size_classify; assumption.
Qed.

Lemma shifted_advance (n : nat) (s t : scan) :
  shifted k s t -> shifted k (advance n s) (advance n t).
Proof.
  intros [Hp Hb Hl Hc Hs Hch Hst]. constructor; cbn; try assumption; lia.
Qed.

Lemma shifted_set_block (b : bool) (s t : scan) :
  shifted k s t -> shifted k (set_block b s) (set_block b t).
Proof.
  intros [Hp Hb Hl Hc Hs Hch Hst]. constructor; cbn; try assumption; reflexivity.
Qed.

Lemma shifted_set_line (b : bool) (s t : scan) :
  shifted k s t -> shifted k (set_line b s) (set_line b t).
Proof.
  intros [Hp Hb Hl Hc Hs Hch Hst]. constructor; cbn; try assumption; reflexivity.
Qed.

Lemma shifted_set_code (b : bool) (s t : scan) :
  shifted k s t -> shifted k (set_code b s) (set_code b t).
Proof.
  intros [Hp Hb Hl Hc Hs Hch Hst]. constructor; cbn; try assumption; reflexivity.
Qed.

Lemma shifted_open_string (c : byte) (s t : scan) :
  shifted k s t -> shifted k (open_string c s) (open_string c t).
Proof.
  intros [Hp Hb Hl Hc Hs Hch Hst]. constructor; cbn; try assumption; reflexivity.
Qed.

Lemma shifted_close_string (s t : scan) :
  shifted k s t -> shifted k (close_string s) (close_string t).
Proof.
  intros [Hp Hb Hl Hc Hs Hch Hst].
  constructor; cbn; try assumption; try reflexivity. discriminate.
Qed.

Lemma handle_string_sim (c : byte) (s t s1 : scan) :
  shifted k s t -> (in_string s = true -> 1 <= p s) ->
  p s <= List.length small ->
  handle_string small c s = Done s1 ->
  exists t1, handle_string big c t = Done t1 /\ shifted k s1 t1.
Proof.
  intros Hsh Hin Hb H. unfold handle_string, and_then in *.
  rewrite (sh_line _ _ _ Hsh), (sh_block _ _ _ Hsh), (sh_string _ _ _ Hsh).
  destruct (negb (in_line_comment s) && negb (in_block_comment s)).
  2:{ injection H as <-. eauto. }
  destruct (in_string s) eqn:Es; cbn [negb andb] in *.
  - rewrite (sh_char _ _ _ Hsh Es).
    destruct (Byte.eqb c (string_char s)); cbn [bind] in *.
    + rewrite (sh_p _ _ _ Hsh), sim_prev by (specialize (Hin eq_refl); lia).
      destruct (read_prev small (p s)) as [prev| |]; cbn [bind] in *;
        try discriminate.
      destruct (negb (Byte.eqb prev backslash)); injection H as <-;
        eexists; split; try reflexivity; try assumption.
      apply shifted_close_string. exact Hsh.
    + injection H as <-. eauto.
  - destruct (Byte.eqb c dquote || Byte.eqb c squote).
    + injection H as <-. eexists. split; [reflexivity|].
      apply shifted_open_string. exact Hsh.
    + cbn [bind] in *. injection H as <-. eauto.
Qed.

Lemma handle_markers_sim (s t s' : scan) :
  shifted k s t -> p s < List.length small ->
  handle_markers small lang s = Done s' ->
  exists t', handle_markers big lang t = Done t' /\ shifted k s' t'.
Proof.
  intros Hsh Hp H. unfold handle_markers in *.
  rewrite (sh_line _ _ _ Hsh), (sh_block _ _ _ Hsh), (sh_p _ _ _ Hsh).
  rewrite !sim_marker by auto.
  destruct (and_then (negb (in_line_comment s) && negb (in_block_comment s))
              (marker_at small (p s) (block_start lang))) as [[|]| |];
    cbn [bind] in *; try discriminate.
  { injection H as <-. eexists. split; [reflexivity|].
    apply shifted_advance, shifted_set_block. exact Hsh. }
  destruct (and_then (in_block_comment s)
              (marker_at small (p s) (block_end lang))) as [[|]| |];
    cbn [bind] in *; try discriminate.
  { injection H as <-. eexists. split; [reflexivity|].
    apply shifted_advance, shifted_set_block. exact Hsh. }
  destruct (and_then (negb (in_block_comment s) && negb (in_line_comment s))
              (marker_at small (p s) (line_comment lang))) as [[|]| |];
    cbn [bind] in *; try discriminate.
  { injection H as <-. eexists. split; [reflexivity|].
    apply shifted_advance, shifted_set_line. exact Hsh. }
  injection H as <-. eexists. split; [reflexivity|].
  apply shifted_advance.
  destruct (negb (in_block_comment s) && negb (in_line_comment s));
    [apply shifted_set_code|]; exact Hsh.
Qed.

(** An iteration on the small buffer is an iteration on the big one. *)
Lemma step_sim (s t s' : scan) :
  shifted k s t -> scan_inv small s -> p s < List.length small ->
  step small lang s = Done s' ->
  exists t', step big lang t = Done t' /\ shifted k s' t'.
Proof.
  intros Hsh Hinv Hp H. unfold step in *.
  rewrite (sh_p _ _ _ Hsh), (sim_read _ Hp).
  destruct (read small (p s)) as [c| |] eqn:Hc; cbn [bind] in *;
    try discriminate.
  apply read_Done in Hc. rewrite (sim_eol _ _ Hc).
  destruct (Byte.eqb c nl || (p s =? List.length small - 1)).
  { injection H as <-. eexists. split; [reflexivity|].
    apply shifted_end_of_line. exact Hsh. }
  destruct (isspace c).
  { injection H as <-. eexists. split; [reflexivity|].
    apply shifted_advance. exact Hsh. }
  destruct (handle_string small c s) as [s1| |] eqn:Hs; cbn [bind] in *;
    try discriminate.
  destruct (handle_string_sim c s t s1 Hsh) as (t1 & Ht1 & Hsh1);
    [ intros Hin; destruct (inv_string _ _ Hinv Hin) as (q & Hq & _); lia
    | lia | exact Hs | ].
  rewrite Ht1. cbn [bind]. rewrite (sh_string _ _ _ Hsh1).
  destruct (in_string s1).
  { injection H as <-. eexists. split; [reflexivity|].
    apply shifted_advance. exact Hsh1. }
  apply (handle_markers_sim s1 t1 s' Hsh1); [|exact H].
  apply handle_string_sound in Hs. rewrite (string_view_p _ _ _ _ Hs). exact Hp.
Qed.

(** A run on the small buffer is the start of a run on the big one. *)
Lemma scan_loop_sim (fuel : nat) :
  forall s t sa,
    shifted k s t -> scan_inv small s ->
    scan_loop small lang fuel s = Done sa ->
    exists ta,
      shifted k sa ta /\ scan_inv small sa /\
      forall m r, scan_loop big lang m ta = Done r ->
                  scan_loop big lang (fuel + m) t = Done r.
Proof.
  induction fuel as [|fuel IH]; intros s t sa Hsh Hinv H; cbn [scan_loop] in H.
  - destruct (p s <? List.length small); [discriminate|].
    injection H as <-. exists t. split; [exact Hsh|]. split; [exact Hinv|].
    intros m r Hr. exact Hr.
  - destruct (p s <? List.length small) eqn:E.
    + apply Nat.ltb_lt in E.
      destruct (step small lang s) as [s1| |] eqn:Hs; cbn [bind] in H;
        try discriminate.
      destruct (step_sim s t s1 Hsh Hinv E Hs) as (t1 & Ht1 & Hsh1).
      destruct (IH s1 t1 sa Hsh1 (step_inv small lang s s1 Hinv E Hs) H)
        as (ta & Hsha & Hinva & Hrun).
      exists ta. split; [exact Hsha|]. split; [exact Hinva|].
      intros m r Hr. cbn [Nat.add scan_loop].
      replace (p t <? List.length big) with true
        by (symmetry; apply Nat.ltb_lt; rewrite (sh_p _ _ _ Hsh); lia).
      rewrite Ht1. cbn [bind]. apply Hrun. exact Hr.
    + injection H as <-. exists t. split; [exact Hsh|]. split; [exact Hinv|].
      intros m r Hr.
      apply (scan_loop_more_fuel big lang m (S fuel + m) t r); [lia | exact Hr].
Qed.

End Simulation.

(** ** Splitting a buffer at the end of a line *)

Lemma read_app_l (a b : list byte) (i : nat) :
  i < List.length a -> read (a ++ b) i = read a i.
Proof. intros H. unfold read. rewrite nth_error_app1 by exact H. reflexivity. Qed.

Lemma read_app_r (a b : list byte) (i : nat) :
  read (a ++ b) (i + List.length a) = read b i.
Proof.
  unfold read. rewrite nth_error_app2 by lia.
  replace (i + List.length a - List.length a) with i by lia. reflexivity.
Qed.

Lemma memcmp_eq_app_r (a b m : list byte) (i : nat) :
  memcmp_eq (a ++ b) (i + List.length a) m = memcmp_eq b i m.
Proof.
  revert i. induction m as [|c m IH]; intros i; cbn [memcmp_eq]; [reflexivity|].
  rewrite read_app_r. change (S (i + List.length a)) with (S i + List.length a).
  rewrite IH. reflexivity.
Qed.

Lemma marker_at_app_r (a b m : list byte) (i : nat) :
  marker_at (a ++ b) (i + List.length a) m = marker_at b i m.
Proof.
  unfold marker_at. rewrite memcmp_eq_app_r, length_app.
  replace (i + List.length a + List.length m <=? List.length a + List.length b)
    with (i + List.length m <=? List.length b); [reflexivity|].
  destruct (Nat.leb_spec (i + List.length m) (List.length b));
    symmetry; [apply Nat.leb_le | apply Nat.leb_gt]; lia.
Qed.

Lemma firstn_skipn_app_l (a b : list byte) (i n : nat) :
  i + n <= List.length a ->
  firstn n (skipn i (a ++ b)) = firstn n (skipn i a).
Proof.
  intros H. rewrite skipn_app, firstn_app, length_skipn.
  replace (n - (List.length a - i)) with 0 by lia.
  cbn [firstn]. apply app_nil_r.
Qed.

Lemma ends_with_newline (a : list byte) :
  partial_line a = 0%N -> a = [] \/ exists a', a = a' ++ [nl].
Proof.
  unfold partial_line. intros H.
  destruct (rev a) as [|c l] eqn:E.
  - left. rewrite <- (rev_involutive a), E. reflexivity.
  - right. exists (rev l).
    destruct (Byte.eqb c nl) eqn:Ec; [|discriminate].
    apply byte_eqb_eq in Ec. subst c.
    rewrite <- (rev_involutive a), E. reflexivity.
Qed.

Lemma bool_eq_iff (x y : bool) : (x = true <-> y = true) -> x = y.
Proof.
  destruct x, y; intros [H1 H2]; try reflexivity.
  - symmetry. apply H1. reflexivity.
  - apply H2. reflexivity.
Qed.

(** A marker that holds no newline does not reach over a newline. *)
Lemma marker_at_app_l (a' b m : list byte) (i : nat) :
  ~ In nl m -> i < List.length (a' ++ [nl]) ->
  marker_at ((a' ++ [nl]) ++ b) i m = marker_at (a' ++ [nl]) i m.
Proof.
  intros Hnl Hi.
  destruct (marker_at_spec ((a' ++ [nl]) ++ b) m i) as [b1 [E1 H1]].
  destruct (marker_at_spec (a' ++ [nl]) m i) as [b2 [E2 H2]].
  rewrite E1, E2. f_equal. apply bool_eq_iff. rewrite H1, H2.
  rewrite length_app in Hi. cbn [List.length] in Hi.
  split.
  - intros [Hle Hm].
    assert (i + List.length m <= List.length (a' ++ [nl])) as Hin.
    { destruct (le_lt_dec (i + List.length m) (List.length (a' ++ [nl])))
        as [Hok | Hover]; [exact Hok|].
      exfalso. apply Hnl. rewrite <- Hm.
      apply nth_error_In with (n := List.length a' - i).
      rewrite length_app in Hover. cbn [List.length] in Hover.
      rewrite nth_error_firstn.
      replace (List.length a' - i <? List.length m) with true
        by (symmetry; apply Nat.ltb_lt; lia).
      rewrite nth_error_skipn.
      replace (i + (List.length a' - i)) with (List.length a') by lia.
      rewrite <- app_assoc, nth_error_app2 by lia.
      rewrite Nat.sub_diag. reflexivity. }
    split; [exact Hin|].
    rewrite firstn_skipn_app_l in Hm by exact Hin. exact Hm.
  - intros [Hle Hm]. split; [rewrite length_app; lia|].
    rewrite firstn_skipn_app_l by exact Hle. exact Hm.
Qed.

Lemma newlines_firstn_le (l : list byte) (i : nat) :
  (newlines (firstn i l) <= newlines l)%N.
Proof. rewrite <- (firstn_skipn i l) at 2. rewrite newlines_app. lia. Qed.

Lemma set_size_eq (z : Z) (x y : file_stats) :
  set_size 0 x = set_size 0 y -> size x = z -> x = set_size z y.
Proof.
  destruct x, y. unfold set_size. cbn. intros H <-.
  injection H as -> -> -> -> -> ->. reflexivity.
Qed.

Section Compose.

Variables a b : list byte.
Variable lang : lang_syntax.
Hypothesis nonempty : markers_nonempty lang.
Hypothesis one_line : markers_one_line lang.
Hypothesis whole_lines : partial_line a = 0%N.

Lemma prefix_eol (i : nat) (c : byte) :
  nth_error a i = Some c ->
  Byte.eqb c nl || (i + 0 =? List.length (a ++ b) - 1) =
  Byte.eqb c nl || (i =? List.length a - 1).
Proof.
  intros Hc. destruct (Byte.eqb c nl) eqn:Ec; [reflexivity|]. cbn [orb].
  apply byte_eqb_neq in Ec.
  destruct (ends_with_newline a whole_lines) as [-> | [a' ->]].
  { destruct i; discriminate. }
  assert (i < List.length (a' ++ [nl])) as Hi
    by (apply nth_error_Some; congruence).
  rewrite !length_app in *. cbn [List.length] in *.
  assert (i <> List.length a') as Hne.
  { intros ->. rewrite nth_error_app2 in Hc by lia.
    rewrite Nat.sub_diag in Hc. cbn in Hc. congruence. }
  replace (i + 0 =? List.length a' + 1 + List.length b - 1) with false
    by (symmetry; apply Nat.eqb_neq; lia).
  symmetry. apply Nat.eqb_neq. lia.
Qed.

Lemma prefix_marker (i : nat) (m : list byte) :
  i < List.length a ->
  m = block_start lang \/ m = block_end lang \/ m = line_comment lang ->
  marker_at (a ++ b) (i + 0) m = marker_at a i m.
Proof.
  intros Hi Hm. rewrite Nat.add_0_r.
  destruct (ends_with_newline a whole_lines) as [E | [a' E]]; subst a.
  { cbn in Hi. lia. }
  apply marker_at_app_l; [|exact Hi].
  destruct one_line as (Hl & Hs & He).
  destruct Hm as [-> | [-> | ->]]; assumption.
Qed.

(** A run on [a] is the start of the run on [a ++ b]. *)
Lemma prefix_run (fuel : nat) (s t sa : scan) :
  shifted 0 s t -> scan_inv a s ->
  scan_loop a lang fuel s = Done sa ->
  exists ta,
    shifted 0 sa ta /\ scan_inv a sa /\
    forall m r, scan_loop (a ++ b) lang m ta = Done r ->
                scan_loop (a ++ b) lang (fuel + m) t = Done r.
Proof.
  apply (scan_loop_sim (a ++ b) a 0 lang).
  - rewrite length_app. lia.
  - intros i Hi. rewrite Nat.add_0_r. apply read_app_l. exact Hi.
  - exact prefix_eol.
  - intros i Hi. rewrite Nat.add_0_r. destruct i as [|j]; [lia|].
    cbn [read_prev]. apply read_app_l. lia.
  - exact prefix_marker.
Qed.

(** A run on [b] is a run on the end of [a ++ b]. *)
Lemma suffix_run (fuel : nat) (s t sb : scan) :
  shifted (List.length a) s t -> scan_inv b s ->
  scan_loop b lang fuel s = Done sb ->
  exists tb,
    shifted (List.length a) sb tb /\ scan_inv b sb /\
    forall m r, scan_loop (a ++ b) lang m tb = Done r ->
                scan_loop (a ++ b) lang (fuel + m) t = Done r.
Proof.
  apply (scan_loop_sim (a ++ b) b (List.length a) lang).
  - rewrite length_app. lia.
  - intros i _. apply read_app_r.
  - intros i c Hc.
    assert (i < List.length b) as Hi by (apply nth_error_Some; congruence).
    rewrite length_app.
    replace (i + List.length a =? List.length a + List.length b - 1)
      with (i =? List.length b - 1); [reflexivity|].
    destruct (Nat.eqb_spec i (List.length b - 1));
      symmetry; [apply Nat.eqb_eq | apply Nat.eqb_neq]; lia.
  - intros i Hi. destruct i as [|j]; [lia|].
    cbn [Nat.add read_prev]. apply read_app_r.
  - intros i m _ _. apply marker_at_app_r.
Qed.

(** At the end of whole lines no line is open. *)
Lemma whole_lines_end (fuel : nat) (st : file_stats) (sa : scan) :
  scan_loop a lang fuel (scan_init a st) = Done sa ->
  in_line_comment sa = false /\ has_code sa = false.
Proof.
  intros H.
  destruct (scan_loop_invariant a lang
              (fun s => p s <= List.length a /\
                        (p s = List.length a ->
                         in_line_comment s = false /\ has_code s = false)))
    with (fuel := fuel) (s := scan_init a st) (s' := sa) as [[Hb Hflags] Hp].
  - intros s s' [_ _] Hlt Hstep. apply step_sound in Hstep.
    split; [apply (step_view_bound _ _ _ _ Hstep)|].
    intros Hend.
    destruct (step_view_passes a lang one_line s s' Hstep)
      as [[-> _] | [_ Hnl]]; [split; reflexivity|].
    exfalso.
    destruct (ends_with_newline a whole_lines) as [E | [a' E]].
    { rewrite E in Hlt. cbn in Hlt. lia. }
    rewrite Hend, firstn_all in Hnl.
    rewrite E in Hnl, Hlt. rewrite length_app in Hlt. cbn [List.length] in Hlt.
    rewrite firstn_app, !newlines_app in Hnl.
    replace (p s - List.length a') with 0 in Hnl by lia.
    pose proof (newlines_firstn_le a' (p s)).
    change (newlines (firstn 0 [nl])) with 0%N in Hnl.
    change (newlines [nl]) with 1%N in Hnl. lia.
  - split; [cbn; lia|]. intros _. split; reflexivity.
  - exact H.
  - apply Hflags. lia.
Qed.

Lemma count_lines_split (st : file_stats) (sa : scan) :
  scan_loop a lang (List.length a) (scan_init a st) = Done sa ->
  in_block_comment sa = false -> in_string sa = false ->
  exists ra rb,
    count_lines a lang st = Done ra /\
    count_lines b lang ra = Done rb /\
    count_lines (a ++ b) lang st =
      Done (set_size (Z.of_nat (List.length (a ++ b))) rb).
Proof.
  intros Hsa Hblock Hstring.
  destruct (whole_lines_end _ st sa Hsa) as [Hline Hcode].
  (* the run on [a] *)
  destruct (count_lines_runs a lang st nonempty)
    as (sa' & ra & Hsa' & _ & Hpa & Hlast_a & Hra).
  rewrite Hsa in Hsa'. injection Hsa' as <-.
  assert (ra = stats sa) as Era.
  { unfold last_line, and_then in Hlast_a. rewrite Hcode in Hlast_a.
    cbn [bind] in Hlast_a. injection Hlast_a as <-. reflexivity. }
  (* the run on [b] *)
  destruct (count_lines_runs b lang ra nonempty)
    as (sb & rb & Hsb & Hinv_b & Hpb & Hlast_b & Hrb).
  exists ra, rb. split; [exact Hra|]. split; [exact Hrb|].
  (* the run on [a ++ b] *)
  destruct (prefix_run (List.length a) (scan_init a st) (scan_init (a ++ b) st) sa)
    as (ta & Hsh_a & _ & Hrun_a).
  { constructor; cbn; try reflexivity. }
  { apply scan_init_inv. }
  { exact Hsa. }
  destruct (suffix_run (List.length b) (scan_init b ra) ta sb)
    as (tb & Hsh_b & _ & Hrun_b).
  { destruct Hsh_a as [Hp Hb Hl Hc Hs Hch Hst].
    constructor; cbn.
    - lia.
    - congruence.
    - congruence.
    - congruence.
    - congruence.
    - discriminate.
    - rewrite Era. exact Hst. }
  { apply scan_init_inv. }
  { exact Hsb. }
  assert (scan_loop (a ++ b) lang (List.length (a ++ b)) (scan_init (a ++ b) st) =
          Done tb) as Hrun.
  { rewrite length_app.
    replace (List.length a + List.length b)
      with (List.length a + (List.length b + 0)) by lia.
    apply Hrun_a, Hrun_b. cbn [scan_loop].
    replace (p tb <? List.length (a ++ b)) with false; [reflexivity|].
    symmetry. apply Nat.ltb_ge. rewrite (sh_p _ _ _ Hsh_b), length_app. lia. }
  destruct (count_lines_runs (a ++ b) lang st nonempty)
    as (tb' & rab & Htb' & _ & _ & Hlast_ab & Hrab).
  rewrite Hrun in Htb'. injection Htb' as <-.
  rewrite Hrab. f_equal.
  apply set_size_eq.
  - (* the counters *)
    unfold last_line, and_then in Hlast_ab, Hlast_b.
    rewrite (sh_code _ _ _ Hsh_b) in Hlast_ab.
    destruct (has_code sb) eqn:Hc.
    + pose proof (inv_code _ _ Hinv_b Hc) as H1.
      assert (read_prev (a ++ b) (List.length (a ++ b)) =
              read_prev b (List.length b)) as Eprev.
      { rewrite length_app.
        destruct (List.length b) as [|j] eqn:Elen; [lia|].
        replace (List.length a + S j) with (S (j + List.length a)) by lia.
        cbn [read_prev]. apply read_app_r. }
      rewrite Eprev in Hlast_ab.
      destruct (read_prev b (List.length b)) as [c| |]; cbn [bind] in *;
        try discriminate.
      destruct (negb (Byte.eqb c nl)); injection Hlast_ab as <-;
        injection Hlast_b as <-; [|apply (sh_stats _ _ _ Hsh_b)].
      pose proof (sh_stats _ _ _ Hsh_b) as Hst.
      unfold set_size, incr_code in *. cbn in *.
      injection Hst as -> -> -> -> -> ->. reflexivity.
    + cbn [bind] in *. injection Hlast_ab as <-. injection Hlast_b as <-.
      apply (sh_stats _ _ _ Hsh_b).
  - apply (count_lines_fuel_fields _ _ _ _ _ Hrab).
Qed.

End Compose.

(** X11.  Counting a buffer in two parts.  Take a descriptor whose markers are
    non-empty and hold no newline, and a buffer [a] that is empty or ends
    with a newline, after which the scanner is neither in a block comment
    nor in a string.  Then counting [a ++ b] is counting [a] and going on
    with [b] on the same counters: the three counters of
    [count_lines (a ++ b)] are those of [count_lines b] run on the
    result of [count_lines a], and [size] is the length of [a ++ b]. *)
Theorem count_lines_in_two_parts (a b : list byte) (lang : lang_syntax)
    (st : file_stats) (sa : scan) :
  markers_nonempty lang -> markers_one_line lang ->
  partial_line a = 0%N ->
  scan_loop a lang (List.length a) (scan_init a st) = Done sa ->
  in_block_comment sa = false -> in_string sa = false ->
  exists ra rb,
    count_lines a lang st = Done ra /\
    count_lines b lang ra = Done rb /\
    count_lines (a ++ b) lang st =
      Done (set_size (Z.of_nat (List.length (a ++ b))) rb).
Proof.
  intros Hne Hone Hwhole. apply (count_lines_split a b lang Hne Hone Hwhole).
Qed.

(** A line of code, then a comment that is not closed. *)
Lemma count_lines_in_two_parts_witness :
  exists ra rb,
    count_lines sample_source lang_C init_file_stats = Done ra /\
    count_lines (bytes "/* open") lang_C ra = Done rb /\
    count_lines (sample_source ++ bytes "/* open") lang_C init_file_stats =
      Done (set_size 14 rb) /\
    counts rb = (1, 1, 0)%N.
Proof.
  destruct (count_lines_in_two_parts sample_source (bytes "/* open") lang_C
              init_file_stats
              {| p := 7; in_block_comment := false; in_line_comment := false;
                 has_code := false; in_string := false; string_char := x00;
                 stats := incr_code (set_size 7 init_file_stats) |})
    as (ra & rb & Ha & Hb & Hab).
  - unfold markers_nonempty. cbn. lia.
  - unfold markers_one_line. cbn.
    repeat split; intros [H|[H|[]]]; discriminate.
  - reflexivity.
  - vm_compute. reflexivity.
  - reflexivity.
  - reflexivity.
  - exists ra, rb. split; [exact Ha|]. split; [exact Hb|]. split; [exact Hab|].
    vm_compute in Ha. injection Ha as <-. vm_compute in Hb. injection Hb as <-.
    reflexivity.
Defined.

(** ** Lines of code *)

Section CodeLines.

Variable buf : list byte.
Variable lang : lang_syntax.

(** Outside comments and strings a plain byte that is no white space is
    code. *)
Lemma step_at_code (s : scan) (c : byte) :
  in_line_comment s = false -> in_block_comment s = false ->
  in_string s = false ->
  nth_error buf (p s) = Some c -> c <> nl -> p s + 1 < List.length buf ->
  isspace c = false -> plain_at buf lang (p s) ->
  step buf lang s = Done (advance 1 (set_code true s)).
Proof.
  intros Hl Hb Hs Hc Hnl Hp Hsp (Hd & Hq & Hstart & Hline).
  assert (c <> dquote) as Hd' by congruence.
  assert (c <> squote) as Hq' by congruence.
  unfold step. apply read_Done in Hc. rewrite Hc. cbn [bind].
  apply byte_eqb_neq in Hnl. rewrite Hnl.
  replace (p s =? List.length buf - 1) with false
    by (symmetry; apply Nat.eqb_neq; lia).
  cbn [orb]. rewrite Hsp.
  unfold handle_string, and_then. rewrite Hl, Hb, Hs. cbn [negb andb bind].
  apply byte_eqb_neq in Hd', Hq'. rewrite Hd', Hq'. cbn [orb bind]. rewrite Hs.
  unfold handle_markers, and_then. rewrite Hl, Hb. cbn [negb andb bind].
  destruct (marker_at_spec buf (block_start lang) (p s)) as [b1 [E1 H1]].
  destruct (marker_at_spec buf (line_comment lang) (p s)) as [b3 [E3 H3]].
  rewrite E1. cbn [bind].
  destruct b1; [exfalso; apply Hstart; apply H1; reflexivity|].
  rewrite E3. cbn [bind].
  destruct b3; [exfalso; apply Hline; apply H3; reflexivity|].
  reflexivity.
Qed.

Lemma ink_succ (i n : nat) (c : byte) :
  nth_error buf i = Some c ->
  ink buf i (S n) = negb (isspace c) || ink buf (i + 1) n.
Proof.
  intros Hc. unfold ink. rewrite (skipn_cons_nth buf i c Hc).
  cbn [firstn existsb]. replace (i + 1) with (S i) by lia. reflexivity.
Qed.

(** Over a line of plain bytes to the start of the next line. *)
Lemma code_run (n : nat) :
  forall s,
    in_line_comment s = false -> in_block_comment s = false ->
    in_string s = false ->
    line_ahead buf (p s) n ->
    (forall k, k < n -> plain_at buf lang (p s + k)) ->
    iterate buf lang (n + 1) s =
    Done {| p := p s + n + 1; in_block_comment := false;
            in_line_comment := false; has_code := false; in_string := false;
            string_char := string_char s;
            stats := if has_code s || ink buf (p s) n
                     then incr_code (stats s) else incr_blank (stats s) |}.
Proof.
  induction n as [|n IH]; intros s Hl Hb Hs Hline Hplain.
  - destruct Hline as [_ Hnl]. rewrite Nat.add_0_r in Hnl.
    cbn [Nat.add iterate].
    assert (p s < List.length buf) by (apply nth_error_Some; congruence).
    replace (p s <? List.length buf) with true
      by (symmetry; apply Nat.ltb_lt; lia).
    rewrite (step_at_newline buf lang s Hnl). cbn [bind].
    unfold end_of_line, classify_line, ink. rewrite Hl, Hb, Hs.
    cbn [firstn existsb]. rewrite orb_false_r.
    f_equal. f_equal. lia.
  - pose proof (line_ahead_in_range buf (p s) (S n) 0 Hline ltac:(lia)) as Hr.
    destruct (proj1 Hline 0 ltac:(lia)) as (c & Hc & Hnl).
    rewrite Nat.add_0_r in Hc.
    pose proof (Hplain 0 ltac:(lia)) as Hp0. rewrite Nat.add_0_r in Hp0.
    assert (line_ahead buf (p s + 1) n) as Hline'.
    { replace n with (S n - 1) by lia. apply line_ahead_shift; [exact Hline | lia]. }
    assert (forall k, k < n -> plain_at buf lang (p s + 1 + k)) as Hplain'.
    { intros k Hk. replace (p s + 1 + k) with (p s + S k) by lia.
      apply Hplain. lia. }
    cbn [Nat.add iterate].
    replace (p s <? List.length buf) with true
      by (symmetry; apply Nat.ltb_lt; lia).
    rewrite (ink_succ (p s) n c Hc).
    destruct (isspace c) eqn:Hsp.
    + rewrite (step_at_space buf lang s c Hc Hnl Hsp) by lia. cbn [bind].
      rewrite (IH (advance 1 s)) by assumption.
      cbn [p advance has_code stats string_char negb orb].
      f_equal. f_equal. lia.
    + rewrite (step_at_code s c) by (try assumption; lia). cbn [bind].
      rewrite (IH (advance 1 (set_code true s))) by assumption.
      cbn [p advance set_code has_code stats string_char negb orb].
      rewrite orb_true_r. f_equal. f_equal. lia.
Qed.

End CodeLines.

(** X9.  A line of plain bytes is a line of code or a blank line.  Outside
    comments and strings, a line on which no quote occurs and neither the
    line comment marker nor the block start marker stands is counted
    once: as code when it holds a byte that is no white space, or code
    came earlier on the line, and as blank otherwise.  The scanner is at
    the start of the next line, outside comments and strings. *)
Theorem plain_line_is_code_or_blank (buf : list byte) (lang : lang_syntax)
    (s : scan) (n : nat) :
  in_line_comment s = false -> in_block_comment s = false ->
  in_string s = false ->
  line_ahead buf (p s) n ->
  (forall k, k < n -> plain_at buf lang (p s + k)) ->
  exists s',
    iterate buf lang (n + 1) s = Done s' /\
    p s' = p s + n + 1 /\
    in_line_comment s' = false /\ in_block_comment s' = false /\
    in_string s' = false /\ has_code s' = false /\
    stats s' = (if has_code s || ink buf (p s) n
                then incr_code (stats s) else incr_blank (stats s)).
Proof.
  intros Hl Hb Hs Hline Hplain.
  eexists. split; [apply code_run; assumption|].
  cbn. repeat split; reflexivity.
Qed.

(** On the line of code of the sample. *)
Lemma plain_line_is_code_or_blank_witness :
  exists s',
    iterate sample_source lang_C (6 + 1)
      (scan_init sample_source init_file_stats) = Done s' /\
    p s' = 7 /\ counts (stats s') = (1, 0, 0)%N.
Proof.
  destruct (plain_line_is_code_or_blank sample_source lang_C
              (scan_init sample_source init_file_stats) 6)
    as (s' & Hs' & Hp & _ & _ & _ & _ & Hst); try reflexivity.
  - split; [|reflexivity].
    intros [|[|[|[|[|[|k]]]]]] Hk; try lia; eexists;
      (split; [reflexivity|discriminate]).
  - intros [|[|[|[|[|[|k]]]]]] Hk; try lia;
      (split; [discriminate|]; split; [discriminate|];
       split; intros [_ Hm]; discriminate).
  - exists s'. split; [exact Hs'|]. split; [exact Hp|]. rewrite Hst. reflexivity.
Defined.

(** ** Markers that begin with a quote *)

Section QuoteMarkers.

Variable buf : list byte.
Variable lang : lang_syntax.

(** Outside comments and strings a quote opens a string, whatever
    stands at the cursor. *)
Lemma step_open_string (s : scan) (c : byte) :
  in_line_comment s = false -> in_block_comment s = false ->
  in_string s = false ->
  nth_error buf (p s) = Some c -> is_quote c -> p s + 1 < List.length buf ->
  step buf lang s = Done (advance 1 (open_string c s)).
Proof.
  intros Hl Hb Hs Hc Hq Hp.
  unfold step. apply read_Done in Hc. rewrite Hc. cbn [bind].
  replace (p s =? List.length buf - 1) with false
    by (symmetry; apply Nat.eqb_neq; lia).
  unfold handle_string. rewrite Hl, Hb, Hs. cbn [negb andb].
  destruct Hq as [-> | ->]; reflexivity.
Qed.

(** The quote that ends a string is then looked at by the comment
    rules. *)
Lemma step_close_string (s : scan) (prev : byte) :
  in_string s = true -> in_line_comment s = false ->
  in_block_comment s = false ->
  nth_error buf (p s) = Some (string_char s) -> is_quote (string_char s) ->
  read_prev buf (p s) = Done prev -> prev <> backslash ->
  p s + 1 < List.length buf ->
  step buf lang s = handle_markers buf lang (close_string s).
Proof.
  intros Hs Hl Hb Hc Hq Hprev Hne Hp.
  unfold step. apply read_Done in Hc. rewrite Hc. cbn [bind].
  replace (p s =? List.length buf - 1) with false
    by (symmetry; apply Nat.eqb_neq; lia).
  assert (Byte.eqb (string_char s) nl = false /\
          isspace (string_char s) = false) as [E1 E2]
    by (destruct Hq as [-> | ->]; split; reflexivity).
  rewrite E1, E2. cbn [orb].
  unfold handle_string, and_then. rewrite Hl, Hb, Hs. cbn [negb andb].
  replace (Byte.eqb (string_char s) (string_char s)) with true
    by (symmetry; apply byte_eqb_eq; reflexivity).
  rewrite Hprev. cbn [bind].
  apply byte_eqb_neq in Hne. rewrite Hne. cbn [negb bind in_string close_string].
  reflexivity.
Qed.

Lemma handle_markers_block_start (s : scan) :
  in_line_comment s = false -> in_block_comment s = false ->
  stands_at buf (p s) (block_start lang) ->
  handle_markers buf lang s =
  Done (advance (List.length (block_start lang)) (set_block true s)).
Proof.
  intros Hl Hb Hm. unfold handle_markers, and_then. rewrite Hl, Hb.
  cbn [negb andb].
  destruct (marker_at_spec buf (block_start lang) (p s)) as [b1 [E1 H1]].
  rewrite E1. cbn [bind]. destruct b1; [reflexivity|].
  apply H1 in Hm. discriminate.
Qed.

Lemma handle_markers_plain (s : scan) :
  in_line_comment s = false -> in_block_comment s = false ->
  ~ stands_at buf (p s) (block_start lang) ->
  ~ stands_at buf (p s) (line_comment lang) ->
  handle_markers buf lang s = Done (advance 1 (set_code true s)).
Proof.
  intros Hl Hb Hstart Hline. unfold handle_markers, and_then. rewrite Hl, Hb.
  cbn [negb andb].
  destruct (marker_at_spec buf (block_start lang) (p s)) as [b1 [E1 H1]].
  destruct (marker_at_spec buf (line_comment lang) (p s)) as [b3 [E3 H3]].
  rewrite E1. cbn [bind].
  destruct b1; [exfalso; apply Hstart; apply H1; reflexivity|].
  rewrite E3. cbn [bind].
  destruct b3; [exfalso; apply Hline; apply H3; reflexivity|].
  reflexivity.
Qed.

Lemma iterate_one (s s' : scan) :
  p s < List.length buf -> step buf lang s = Done s' ->
  iterate buf lang 1 s = Done s'.
Proof.
  intros Hp H. cbn [iterate].
  replace (p s <? List.length buf) with true
    by (symmetry; apply Nat.ltb_lt; exact Hp).
  rewrite H. reflexivity.
Qed.

End QuoteMarkers.

Lemma scan_ext (a b : scan) :
  p a = p b -> in_block_comment a = in_block_comment b ->
  in_line_comment a = in_line_comment b -> has_code a = has_code b ->
  in_string a = in_string b -> string_char a = string_char b ->
  stats a = stats b -> a = b.
Proof.
  destruct a, b. cbn. intros -> -> -> -> -> -> ->. reflexivity.
Qed.

Lemma skipn_app_r (pre l : list byte) (k : nat) :
  skipn (List.length pre + k) (pre ++ l) = skipn k l.
Proof.
  rewrite skipn_app, skipn_all2 by lia.
  replace (List.length pre + k - List.length pre) with k by lia. reflexivity.
Qed.

Lemma nth_error_app_r (pre l : list byte) (k : nat) :
  nth_error (pre ++ l) (List.length pre + k) = nth_error l k.
Proof.
  rewrite nth_error_app2 by lia.
  replace (List.length pre + k - List.length pre) with k by lia. reflexivity.
Qed.

(** A string between triple quotes in Python, from its first quote to
    the byte after its last. *)
Lemma python_docstring_run (pre text post : list byte) (s : scan) :
  let buf := pre ++ [dquote; dquote; dquote] ++ text ++
             [dquote; dquote; dquote] ++ post in
  p s = List.length pre ->
  in_line_comment s = false -> in_block_comment s = false ->
  in_string s = false ->
  text <> [] -> ~ In dquote text -> ~ In nl text ->
  last text x00 <> backslash -> post <> [] ->
  iterate buf lang_Python (3 + (List.length text + 1)) s =
  Done {| p := p s + List.length text + 6; in_block_comment := true;
          in_line_comment := false; has_code := true; in_string := false;
          string_char := dquote; stats := stats s |}.
Proof.
  intros buf Hp Hl Hb Hs Htext Hdq Hnl Hlast Hpost.
  set (n := List.length text).
  assert (List.length buf = List.length pre + (n + 6 + List.length post)) as Hlen.
  { unfold buf. rewrite !length_app. cbn [List.length]. fold n. lia. }
  assert (0 < List.length post) as Hpost'
    by (destruct post; [contradiction | cbn; lia]).
  assert (0 < n) as Hn by (unfold n; destruct text; [contradiction | cbn; lia]).
  assert (forall k, nth_error buf (List.length pre + k) =
                    nth_error ([dquote; dquote; dquote] ++ text ++
                               [dquote; dquote; dquote] ++ post) k) as Hnth
    by (intros k; apply nth_error_app_r).
  assert (forall k, k < n ->
            exists c, nth_error buf (List.length pre + (3 + k)) = Some c /\
                      In c text /\ nth_error text k = Some c) as Htxt.
  { intros k Hk. rewrite Hnth. cbn [app nth_error Nat.add].
    rewrite nth_error_app1 by exact Hk.
    destruct (nth_error text k) as [c|] eqn:E.
    - exists c. split; [reflexivity|]. split; [|reflexivity].
      apply (nth_error_In _ _ E).
    - apply nth_error_None in E. fold n in E. lia. }
  assert (forall k, k < 3 ->
            nth_error buf (List.length pre + (3 + n + k)) = Some dquote) as Hend.
  { intros k Hk. rewrite Hnth.
    replace (3 + n + k) with (3 + (n + k)) by lia. cbn [app nth_error Nat.add].
    rewrite nth_error_app2 by (fold n; lia). fold n.
    replace (n + k - n) with k by lia.
    destruct k as [|[|[|k]]]; try reflexivity. lia. }
  (* the first quote opens a string *)
  set (s1 := advance 1 (open_string dquote s)).
  assert (iterate buf lang_Python 1 s = Done s1) as R1.
  { apply iterate_one; [lia|].
    apply step_open_string; try assumption; [|left; reflexivity | lia].
    rewrite Hp. rewrite <- (Nat.add_0_r (List.length pre)), Hnth. reflexivity. }
  (* the second one closes it and counts as code *)
  set (s2 := advance 1 (set_code true (close_string s1))).
  assert (iterate buf lang_Python 1 s1 = Done s2) as R2.
  { apply iterate_one; [unfold s1; cbn; lia|].
    rewrite (step_close_string buf lang_Python s1 dquote).
    - apply handle_markers_plain.
      + cbn. exact Hl.
      + cbn. exact Hb.
      + intros [_ Hm]. cbn [p s1 advance open_string close_string] in Hm.
        rewrite Hp in Hm.
        assert (nth_error (firstn 3 (skipn (List.length pre + 1) buf)) 2 =
                Some dquote) as E.
        { change (firstn 3 (skipn (List.length pre + 1) buf) =
                  [dquote; dquote; dquote]) in Hm.
          rewrite Hm. reflexivity. }
        rewrite nth_error_firstn, nth_error_skipn in E. cbn [Nat.ltb Nat.leb] in E.
        destruct (Htxt 0 Hn) as (c & Hc & Hin & _).
        replace (List.length pre + 1 + 2) with (List.length pre + (3 + 0)) in E
          by lia.
        rewrite Hc in E. injection E as ->. contradiction.
      + intros [_ Hm]. cbn [p s1 advance open_string close_string] in Hm.
        rewrite Hp in Hm.
        assert (nth_error (firstn 1 (skipn (List.length pre + 1) buf)) 0 =
                Some x23) as E.
        { change (firstn 1 (skipn (List.length pre + 1) buf) = [x23]) in Hm.
          rewrite Hm. reflexivity. }
        rewrite nth_error_firstn, nth_error_skipn in E. cbn [Nat.ltb Nat.leb] in E.
        rewrite Nat.add_0_r, Hnth in E. discriminate.
    - reflexivity.
    - cbn. exact Hl.
    - cbn. exact Hb.
    - unfold s1. cbn [p advance open_string string_char]. rewrite Hp, Hnth.
      reflexivity.
    - left. reflexivity.
    - unfold s1. cbn [p advance open_string]. rewrite Hp.
      replace (List.length pre + 1) with (S (List.length pre)) by lia.
      cbn [read_prev]. apply read_Done.
      rewrite <- (Nat.add_0_r (List.length pre)), Hnth. reflexivity.
    - discriminate.
    - unfold s1. cbn. lia. }
  (* the third one opens a string *)
  set (s3 := advance 1 (open_string dquote s2)).
  assert (iterate buf lang_Python 1 s2 = Done s3) as R3.
  { apply iterate_one; [unfold s2, s1; cbn; lia|].
    apply step_open_string.
    - cbn. exact Hl.
    - cbn. exact Hb.
    - reflexivity.
    - unfold s2, s1. cbn [p advance open_string close_string set_code].
      rewrite Hp. replace (List.length pre + 1 + 1) with (List.length pre + 2)
        by lia.
      rewrite Hnth. reflexivity.
    - left. reflexivity.
    - unfold s2, s1. cbn. lia. }
  (* the text is passed over *)
  assert (p s3 = List.length pre + 3) as Hp3 by (unfold s3, s2, s1; cbn; lia).
  assert (iterate buf lang_Python n s3 = Done (advance n s3)) as R4.
  { apply (iterate_plain buf lang_Python
             (fun s => in_string s = true /\ in_line_comment s = false /\
                       in_block_comment s = false /\ string_char s = dquote)).
    - intros s0 H. exact H.
    - unfold s3, s2, s1. cbn. auto.
    - intros k Hk. split; [lia|].
      intros s0 (H1 & H2 & H3 & H4) E.
      destruct (Htxt k Hk) as (c & Hc & Hin & _).
      apply (step_in_string buf lang_Python s0 c); try assumption.
      + rewrite E, Hp3. replace (List.length pre + 3 + k)
          with (List.length pre + (3 + k)) by lia. exact Hc.
      + intros ->. contradiction.
      + lia.
      + rewrite H4. intros ->. contradiction. }
  (* the quote after it closes the string and starts a comment *)
  set (s4 := advance n s3).
  assert (p s4 = List.length pre + (3 + n)) as Hp4
    by (unfold s4; cbn [p advance]; lia).
  assert (iterate buf lang_Python 1 s4 =
          Done (advance 3 (set_block true (close_string s4)))) as R5.
  { apply iterate_one; [lia|].
    destruct (Htxt (n - 1) ltac:(lia)) as (c & Hc & _ & Hc').
    assert (c <> backslash) as Hcb.
    { intros ->. apply Hlast.
      destruct (exists_last Htext) as (l & z & E). rewrite E, last_last.
      rewrite E in Hc'. unfold n in Hc'. rewrite E, length_app in Hc'.
      cbn [List.length] in Hc'.
      rewrite nth_error_app2 in Hc' by lia.
      replace (List.length l + 1 - 1 - List.length l) with 0 in Hc' by lia.
      cbn in Hc'. congruence. }
    rewrite (step_close_string buf lang_Python s4 c).
    - apply (handle_markers_block_start buf lang_Python (close_string s4)).
      + cbn. exact Hl.
      + cbn. exact Hb.
      + cbn [p close_string]. rewrite Hp4. split; [cbn; lia|].
        cbn [block_start lang_Python List.length].
        assert (skipn (List.length pre + (3 + n)) buf =
                [dquote; dquote; dquote] ++ post) as E.
        { unfold buf. rewrite skipn_app_r.
          change ([dquote; dquote; dquote] ++ text ++
                  [dquote; dquote; dquote] ++ post)
            with (dquote :: dquote :: dquote ::
                  text ++ [dquote; dquote; dquote] ++ post).
          cbn [Nat.add skipn]. fold n.
          rewrite <- (Nat.add_0_r n). unfold n. apply skipn_app_r. }
        rewrite E. reflexivity.
    - reflexivity.
    - cbn. exact Hl.
    - cbn. exact Hb.
    - unfold s4, s3. cbn [p advance open_string string_char].
      change (p s2 + 1 + n) with (p s3 + n). rewrite Hp3.
      replace (List.length pre + 3 + n) with (List.length pre + (3 + n + 0))
        by lia.
      apply Hend. lia.
    - left. reflexivity.
    - rewrite Hp4. replace (List.length pre + (3 + n))
        with (S (List.length pre + (3 + (n - 1)))) by lia.
      cbn [read_prev]. apply read_Done. exact Hc.
    - exact Hcb.
    - lia. }
  change (3 + (List.length text + 1)) with (1 + (1 + (1 + (n + 1)))).
  rewrite (iterate_add buf lang_Python 1 (1 + (1 + (n + 1)))), R1. cbn [bind].
  rewrite (iterate_add buf lang_Python 1 (1 + (n + 1))), R2. cbn [bind].
  rewrite (iterate_add buf lang_Python 1 (n + 1)), R3. cbn [bind].
  rewrite (iterate_add buf lang_Python n 1), R4. cbn [bind].
  fold s4. rewrite R5.
  f_equal. apply scan_ext; unfold s4, s3, s2, s1, n; cbn; try reflexivity.
  - lia.
  - exact Hl.
Qed.

(** A string between triple quotes and the line after it, in Python. *)
Lemma python_docstring_counts (text line : list byte) (st : file_stats) :
  text <> [] -> ~ In dquote text -> ~ In nl text ->
  last text x00 <> backslash ->
  ~ In dquote line -> ~ In nl line ->
  count_lines ([dquote; dquote; dquote] ++ text ++ [dquote; dquote; dquote] ++
               [nl] ++ line ++ [nl]) lang_Python st =
  Done (incr_comment
          (incr_comment
             (set_size (Z.of_nat (List.length text + List.length line + 8)) st))).
Proof.
  intros Htext Hdq Hnl Hlast Hldq Hlnl.
  set (n := List.length text). set (m := List.length line).
  set (buf := [dquote; dquote; dquote] ++ text ++ [dquote; dquote; dquote] ++
              [nl] ++ line ++ [nl]).
  assert (List.length buf = n + m + 8) as Hlen.
  { unfold buf. rewrite !length_app. cbn [List.length]. fold n m. lia. }
  assert (skipn (n + 6) buf = [nl] ++ line ++ [nl]) as Hskip.
  { unfold buf.
    change ([dquote; dquote; dquote] ++ text ++ [dquote; dquote; dquote] ++
            [nl] ++ line ++ [nl])
      with (dquote :: dquote :: dquote ::
            text ++ dquote :: dquote :: dquote :: [nl] ++ line ++ [nl]).
    replace (n + 6) with (3 + (n + 3)) by lia. cbn [Nat.add skipn].
    unfold n. rewrite (skipn_app_r text _ 3). reflexivity. }
  assert (forall k, nth_error buf (n + 6 + k) =
                    nth_error ([nl] ++ line ++ [nl]) k) as Hnth.
  { intros k. rewrite <- Hskip, nth_error_skipn. reflexivity. }
  (* the first line *)
  set (s1 := {| p := n + 6; in_block_comment := true; in_line_comment := false;
                has_code := true; in_string := false; string_char := dquote;
                stats := set_size (Z.of_nat (List.length buf)) st |}).
  assert (iterate buf lang_Python (3 + (n + 1)) (scan_init buf st) = Done s1)
    as R1.
  { exact (python_docstring_run [] text ([nl] ++ line ++ [nl])
             (scan_init buf st) eq_refl eq_refl eq_refl eq_refl
             Htext Hdq Hnl Hlast ltac:(discriminate)). }
  (* its newline *)
  assert (iterate buf lang_Python (0 + 1) s1 = Done (end_of_line (advance 0 s1)))
    as R2.
  { apply block_comment_run; try reflexivity.
    - split; [intros k Hk; lia|]. cbn [p s1]. rewrite Hnth. reflexivity.
    - intros k Hk. lia. }
  set (s2 := end_of_line (advance 0 s1)) in R2.
  (* the second line *)
  assert (forall k, k < m ->
            exists c, nth_error buf (n + 6 + 0 + 1 + k) = Some c /\ In c line)
    as Hline.
  { intros k Hk.
    replace (n + 6 + 0 + 1 + k) with (n + 6 + S k) by lia.
    rewrite Hnth. cbn [app nth_error]. rewrite nth_error_app1 by exact Hk.
    destruct (nth_error line k) as [c|] eqn:E.
    - exists c. split; [reflexivity | apply (nth_error_In _ _ E)].
    - apply nth_error_None in E. fold m in E. lia. }
  assert (iterate buf lang_Python (m + 1) s2 = Done (end_of_line (advance m s2)))
    as R3.
  { apply block_comment_run; try reflexivity.
    - split.
      + intros k Hk. destruct (Hline k Hk) as (c & Hc & Hin).
        exists c. split; [exact Hc|]. intros ->. contradiction.
      + cbn [p s2 s1 end_of_line advance].
        replace (n + 6 + 0 + 1 + m) with (n + 6 + S m) by lia.
        rewrite Hnth. cbn [app nth_error].
        rewrite nth_error_app2 by (fold m; lia). fold m.
        rewrite Nat.sub_diag. reflexivity.
    - intros k Hk [_ Hm]. destruct (Hline k Hk) as (c & Hc & Hin).
      cbn [p s2 s1 end_of_line advance] in Hm.
      assert (nth_error (firstn 3 (skipn (n + 6 + 0 + 1 + k) buf)) 0 =
              Some dquote) as E.
      { change (firstn 3 (skipn (n + 6 + 0 + 1 + k) buf) =
                [dquote; dquote; dquote]) in Hm.
        rewrite Hm. reflexivity. }
      rewrite nth_error_firstn, nth_error_skipn in E. cbn [Nat.ltb Nat.leb] in E.
      rewrite Nat.add_0_r, Hc in E. injection E as ->. contradiction. }
  set (s3 := end_of_line (advance m s2)) in R3.
  (* the whole run *)
  unfold count_lines, count_lines_fuel. fold buf. rewrite Hlen.
  replace (n + m + 8) with ((3 + (n + 1)) + ((0 + 1) + ((m + 1) + 2))) by lia.
  rewrite scan_loop_iterate, R1. cbn [bind].
  rewrite scan_loop_iterate, R2. cbn [bind].
  rewrite scan_loop_iterate, R3. cbn [bind].
  cbn [scan_loop].
  replace (p s3 <? List.length buf) with false
    by (symmetry; apply Nat.ltb_ge; rewrite Hlen; unfold s3, s2, s1;
        cbn [p end_of_line advance]; lia).
  cbn [bind]. unfold last_line, and_then. cbn [has_code s3 end_of_line bind].
  unfold s3, s2, s1, end_of_line, classify_line, advance.
  cbn [stats in_line_comment in_block_comment has_code].
  rewrite Hlen. f_equal. f_equal. f_equal. f_equal. unfold n, m. lia.
Qed.

(** X10.  A marker that begins with a quote is seen at a closing quote only.
    Outside comments and strings a quote under the cursor opens a string
    before the comment rules are tried, whatever marker stands there; the
    quote that ends a string is handed to the comment rules, so that a
    block start marker whose first byte is that quote starts a comment
    there.  In Python, where the block markers are three double quotes, a
    text between triple quotes on one line therefore ends in the block
    comment state: its line and every following line up to the next
    triple quote are counted as comments. *)
Theorem quote_marker_starts_at_closing_quote :
  (forall buf lang s c,
     in_line_comment s = false -> in_block_comment s = false ->
     in_string s = false ->
     nth_error buf (p s) = Some c -> is_quote c -> p s + 1 < List.length buf ->
     step buf lang s = Done (advance 1 (open_string c s))) /\
  (forall buf lang s prev,
     in_string s = true -> in_line_comment s = false ->
     in_block_comment s = false ->
     nth_error buf (p s) = Some (string_char s) -> is_quote (string_char s) ->
     read_prev buf (p s) = Done prev -> prev <> backslash ->
     p s + 1 < List.length buf ->
     stands_at buf (p s) (block_start lang) ->
     step buf lang s =
     Done (advance (List.length (block_start lang))
             (set_block true (close_string s)))) /\
  (forall pre text post s,
     p s = List.length pre ->
     in_line_comment s = false -> in_block_comment s = false ->
     in_string s = false ->
     text <> [] -> ~ In dquote text -> ~ In nl text ->
     last text x00 <> backslash -> post <> [] ->
     exists s',
       iterate (pre ++ [dquote; dquote; dquote] ++ text ++
                [dquote; dquote; dquote] ++ post) lang_Python
         (3 + (List.length text + 1)) s = Done s' /\
       p s' = p s + List.length text + 6 /\
       in_block_comment s' = true /\ in_line_comment s' = false /\
       in_string s' = false /\ stats s' = stats s) /\
  (forall text line,
     text <> [] -> ~ In dquote text -> ~ In nl text ->
     last text x00 <> backslash ->
     ~ In dquote line -> ~ In nl line ->
     exists r,
       count_lines ([dquote; dquote; dquote] ++ text ++
                    [dquote; dquote; dquote] ++ [nl] ++ line ++ [nl])
         lang_Python init_file_stats = Done r /\
       counts r = (0, 2, 0)%N) /\
  option_map counts
    (result (count_lines ([dquote; dquote; dquote] ++ bytes "doc" ++
                          [dquote; dquote; dquote] ++ [nl] ++ bytes "x = 1" ++
                          [nl]) lang_Python init_file_stats)) =
    Some (0, 2, 0)%N.
Proof.
  split; [exact step_open_string|]. split.
  { intros buf lang s prev Hs Hl Hb Hc Hq Hprev Hne Hp Hm.
    rewrite (step_close_string buf lang s prev) by assumption.
    apply handle_markers_block_start; assumption. }
  split.
  { intros pre text post s Hp Hl Hb Hs Htext Hdq Hnl Hlast Hpost.
    eexists. split.
    - apply python_docstring_run; assumption.
    - cbn. repeat split; reflexivity. }
  split; [|vm_compute; reflexivity].
  intros text line Htext Hdq Hnl Hlast Hldq Hlnl. eexists. split.
  - apply python_docstring_counts; assumption.
  - reflexivity.
Qed.

(** ** The last line of a buffer without a final newline *)

Lemma last_app_nonempty (l m : list byte) (d : byte) :
  m <> [] -> last (l ++ m) d = last m d.
Proof.
  intros Hm. rewrite (app_removelast_last d Hm), app_assoc, !last_last.
  reflexivity.
Qed.

(** A marker that stands at the end of the buffer ends with its last
    byte. *)
Lemma marker_to_the_end (buf m : list byte) (i : nat) :
  stands_at buf i m -> i + List.length m = List.length buf -> m <> [] ->
  last m x00 = last buf x00.
Proof.
  intros [_ Hm] Hlen Hne.
  assert (skipn i buf = m) as E.
  { rewrite <- Hm. symmetry. apply firstn_all2. rewrite length_skipn. lia. }
  rewrite <- (firstn_skipn i buf), E, last_app_nonempty by exact Hne.
  reflexivity.
Qed.

(** The state the loop ends in is the one any run of iterations reaches
    at the end of the buffer. *)
Lemma scan_loop_unique (buf : list byte) (lang : lang_syntax) (k : nat) :
  forall s s',
    iterate buf lang k s = Done s' -> List.length buf <= p s' ->
    forall fuel sf, scan_loop buf lang fuel s = Done sf -> sf = s'.
Proof.
  induction k as [|k IH]; intros s s' Hit Hend fuel sf Hrun; cbn [iterate] in Hit.
  - injection Hit as <-. destruct fuel; cbn [scan_loop] in Hrun;
      replace (p s <? List.length buf) with false in Hrun
        by (symmetry; apply Nat.ltb_ge; exact Hend);
      congruence.
  - destruct (p s <? List.length buf) eqn:E.
    + destruct fuel as [|fuel]; cbn [scan_loop] in Hrun; rewrite E in Hrun;
        [discriminate|].
      destruct (step buf lang s) as [s1| |]; cbn [bind] in *; try discriminate.
      apply (IH s1 s' Hit Hend fuel sf Hrun).
    + injection Hit as <-. destruct fuel; cbn [scan_loop] in Hrun;
        rewrite E in Hrun; congruence.
Qed.

Section LastLine.

Variable buf : list byte.
Variable lang : lang_syntax.
Variable st : file_stats.
Hypothesis nonempty : markers_nonempty lang.
Hypothesis one_line : markers_one_line lang.
Hypothesis small : (line_count buf < 2 ^ 32)%N.
Hypothesis zero : total st = 0%N.
Hypothesis partial : partial_line buf = 1%N.

Lemma last_line_inv_init : last_line_inv buf lang st (scan_init buf st).
Proof.
  split; [exists 0; reflexivity|]. split; [cbn; lia|]. split.
  - intros _. cbn [p scan_init stats firstn]. unfold total in *. cbn. exact zero.
  - cbn [p scan_init]. intros E. symmetry in E. apply length_zero_iff_nil in E.
    rewrite E in partial. discriminate.
Qed.

Lemma last_line_inv_step (s s' : scan) :
  last_line_inv buf lang st s -> p s < List.length buf ->
  step buf lang s = Done s' -> last_line_inv buf lang st s'.
Proof.
  intros (Hr & Hb & Hex & _) Hlt Hstep.
  pose proof (step_sound _ _ _ _ Hstep) as Hv.
  specialize (Hex Hlt).
  assert (total (stats s) + 1 < 2 ^ 32)%N as Hsmall.
  { pose proof (newlines_firstn_le buf (p s)).
    unfold line_count in small. rewrite partial in small. lia. }
  split.
  { destruct Hr as [n Hn]. exists (n + 1). rewrite iterate_add, Hn. cbn [bind].
    apply iterate_one; assumption. }
  split; [apply (step_view_bound _ _ _ _ Hv)|].
  destruct (step_view_passes buf lang one_line s s' Hv)
    as [[-> (c & Hc & Heol)] | [Hst Hnl]].
  - cbn [p stats end_of_line has_code].
    rewrite (total_classify_line_exact s Hsmall), Hex.
    replace (p s + 1) with (S (p s)) by lia.
    pose proof (newlines_firstn_succ buf (p s) c Hc) as Hs.
    split.
    + intros Hlt'. destruct Heol as [-> | E]; [|lia].
      rewrite Hs. replace (Byte.eqb nl nl) with true by reflexivity. lia.
    + intros Hend. left. split; [|reflexivity].
      assert (read_prev buf (List.length buf) = Done c) as Hlast.
      { rewrite <- Hend. cbn [read_prev]. apply read_Done. exact Hc. }
      apply partial_line_last in Hlast. rewrite partial in Hlast.
      destruct (Byte.eqb c nl); [discriminate|].
      rewrite Hend, firstn_all in Hs. unfold line_count. rewrite partial. lia.
  - rewrite Hst. split.
    + intros _. rewrite Hnl. exact Hex.
    + intros Hend. right. split.
      * rewrite Hex, <- Hnl, Hend, firstn_all. reflexivity.
      * destruct Hr as [n Hn]. exists n, s.
        split; [exact Hn|]. split; [|split; assumption].
        destruct (Nat.eq_dec (p s + 1) (List.length buf)) as [E|E]; [|lia].
        exfalso. rewrite (step_at_last_byte buf lang s E) in Hstep.
        injection Hstep as <-. cbn [stats end_of_line] in Hst.
        pose proof (total_classify_line_exact s Hsmall) as Ht.
        rewrite Hst in Ht. lia.
Qed.

(** What becomes of the last line. *)
Lemma last_line_fate :
  exists r,
    count_lines buf lang st = Done r /\
    (total r = line_count buf \/ (total r + 1)%N = line_count buf) /\
    ((total r + 1)%N = line_count buf <->
     exists s', jumps_to_end buf lang st s' /\ has_code s' = false).
Proof.
  destruct (count_lines_runs buf lang st nonempty)
    as (sf & r & Hrun & _ & Hp & Hlast & Hr).
  exists r. split; [exact Hr|].
  destruct (scan_loop_invariant buf lang (last_line_inv buf lang st)
              last_line_inv_step (List.length buf) (scan_init buf st) sf
              last_line_inv_init Hrun) as [(_ & _ & _ & Hend) _].
  assert (forall s', jumps_to_end buf lang st s' ->
            sf = s' /\ total (stats s') = newlines buf) as Hjump.
  { intros s' (n & s & Hn & Hlt & Hstep & Hps').
    assert (last_line_inv buf lang st s) as (_ & _ & Hex & _).
    { apply (iterate_invariant buf lang (last_line_inv buf lang st)
               last_line_inv_step n (scan_init buf st) s last_line_inv_init Hn). }
    split.
    - apply (scan_loop_unique buf lang (n + 1) (scan_init buf st) s')
        with (fuel := List.length buf); [|lia | exact Hrun].
      rewrite iterate_add, Hn. cbn [bind]. apply iterate_one; [lia | exact Hstep].
    - pose proof (step_sound _ _ _ _ Hstep) as Hv.
      destruct (step_view_passes buf lang one_line s s' Hv)
        as [[-> _] | [Hst Hnl]]; [cbn [p end_of_line] in Hps'; lia|].
      rewrite Hst, Hex by lia. rewrite <- Hnl, Hps', firstn_all. reflexivity. }
  assert (line_count buf = newlines buf + 1)%N as Hlc
    by (unfold line_count; rewrite partial; reflexivity).
  unfold last_line, and_then in Hlast.
  destruct (Hend Hp) as [[Htot Hcode] | [Htot Hj]].
  - rewrite Hcode in Hlast. cbn [bind] in Hlast. injection Hlast as <-.
    split; [left; exact Htot|]. split; [lia|].
    intros (s' & Hj & _). destruct (Hjump s' Hj) as [<- Ht]. lia.
  - destruct (has_code sf) eqn:Hcode.
    + destruct (read_prev buf (List.length buf)) as [c| |] eqn:Hc;
        cbn [bind] in Hlast; try discriminate.
      apply partial_line_last in Hc. rewrite partial in Hc.
      destruct (Byte.eqb c nl); [discriminate|].
      cbn [negb] in Hlast. injection Hlast as <-.
      assert (total (incr_code (stats sf)) = total (stats sf) + 1)%N as Hinc.
      { unfold total in *. cbn [lines_code lines_comment lines_blank incr_code].
        rewrite incr32_small; lia. }
      split; [left; lia|]. split; [lia|].
      intros (s' & Hj' & Hc'). destruct (Hjump s' Hj') as [<- _]. congruence.
    + cbn [bind] in Hlast. injection Hlast as <-.
      split; [right; lia|]. split; [|lia].
      intros _. exists sf. split; assumption.
Qed.

End LastLine.

(** Only a marker takes the cursor from before the last byte to the
    end. *)
Lemma jump_is_a_marker (buf : list byte) (lang : lang_syntax)
    (st : file_stats) (s' : scan) :
  markers_nonempty lang ->
  jumps_to_end buf lang st s' ->
  exists m,
    (m = line_comment lang \/ m = block_start lang \/ m = block_end lang) /\
    last m x00 = last buf x00.
Proof.
  intros (Hn1 & Hn2 & Hn3) (n & s & _ & Hlt & Hstep & Hend).
  assert (forall m : list byte, 0 < List.length m -> m <> []) as Hne
    by (intros [|c m] H; [cbn in H; lia | discriminate]).
  apply step_sound in Hstep.
  inversion Hstep; subst; cbn [p end_of_line advance] in Hend; try lia.
  - match goal with Hs : string_view _ _ _ _ |- _ =>
      rewrite (string_view_p _ _ _ _ Hs) in Hend end. lia.
  - match goal with Hs : string_view _ _ _ _, Hm : marker_view _ _ _ _ |- _ =>
      pose proof (string_view_p _ _ _ _ Hs) as Ep;
      inversion Hm; subst;
        cbn [p advance set_block set_line set_code] in Hend
    end; try lia.
    + exists (block_start lang). split; [auto|].
      eapply marker_to_the_end; eauto.
    + exists (block_end lang). split; [auto|].
      eapply marker_to_the_end; eauto.
    + exists (line_comment lang). split; [auto|].
      eapply marker_to_the_end; eauto.
Qed.


(** X3.  The last line of a buffer that does not end with a newline.  For a
    descriptor whose markers are non-empty and hold no newline, on such a
    buffer of fewer than 2^32 lines, [count_lines] from zeroed counters
    counts every line, or every line but the last.  It misses the last
    line exactly when an iteration that starts before the last byte
    leaves the cursor at the end of the buffer with [has_code] unset,
    which only a comment marker ending the buffer can do: when the last
    byte of the buffer is the last byte of no marker, every line is
    counted. *)
Theorem partial_last_line_fate (buf : list byte) (lang : lang_syntax)
    (st : file_stats) :
  markers_nonempty lang -> markers_one_line lang ->
  (line_count buf < 2 ^ 32)%N -> total st = 0%N ->
  partial_line buf = 1%N ->
  exists r,
    count_lines buf lang st = Done r /\
    (total r = line_count buf \/ (total r + 1)%N = line_count buf) /\
    ((total r + 1)%N = line_count buf <->
     exists s', jumps_to_end buf lang st s' /\ has_code s' = false) /\
    ((forall m,
        m = line_comment lang \/ m = block_start lang \/ m = block_end lang ->
        last m x00 <> last buf x00) ->
     total r = line_count buf).
Proof.
  intros Hne Hone Hsmall Hzero Hpart.
  destruct (last_line_fate buf lang st Hne Hone Hsmall Hzero Hpart)
    as (r & Hr & Hcases & Hiff).
  exists r. split; [exact Hr|]. split; [exact Hcases|]. split; [exact Hiff|].
  intros Hlast. destruct Hcases as [H | H]; [exact H|].
  apply Hiff in H. destruct H as (s' & Hj & _).
  destruct (jump_is_a_marker buf lang st s' Hne Hj) as (m & Hm & E).
  destruct (Hlast m Hm E).
Qed.

(** A line of code without a final newline, in C: its last byte ends no
    marker, and it is counted. *)
Lemma partial_last_line_fate_witness :
  exists r,
    count_lines (bytes "int x;") lang_C init_file_stats = Done r /\
    total r = 1%N.
Proof.
  destruct (partial_last_line_fate (bytes "int x;") lang_C init_file_stats)
    as (r & Hr & _ & _ & Hall).
  - unfold markers_nonempty. cbn. lia.
  - unfold markers_one_line. cbn.
    repeat split; intros [H|[H|[]]]; discriminate.
  - vm_compute. reflexivity.
  - reflexivity.
  - reflexivity.
  - exists r. split; [exact Hr|]. rewrite Hall; [reflexivity|].
    intros m [-> | [-> | ->]]; discriminate.
Defined.
